(** * The chaindata reconciliation pipeline (src/processor.ts)

    A shallow embedding of the processor steps of the squid: each step is a
    function from the persisted entity graph (and the upstream responses of
    the run) to the next graph.  The entity tables are finite maps keyed by
    the primary column; rows handed out by [find] are copies, so a row only
    changes in the store when it is saved. *)

From stdpp Require Import gmap strings list fin_maps pretty.
From Stdlib Require Import ZArith QArith Qcanon.

Open Scope Z_scope.
Open Scope string_scope.
Open Scope list_scope.

(** ** JavaScript values used by the steps *)

(** JSON records carry optional fields; an absent field reads [undefined],
    which the model writes [None] (the feeds carry no explicit nulls). *)

(** [s ? a : b] on an optional string: absent and the empty string are
    falsy. *)
Definition truthy_string (o : option string) : bool :=
  match o with
  | Some s => negb (bool_decide (s = ""))
  | None => false
  end.

(** Truthiness of an optional number: absent and zero are falsy. *)
Definition truthy_number (o : option Z) : bool :=
  match o with
  | Some z => negb (bool_decide (z = 0))
  | None => false
  end.

(** [a || b] on optional strings. *)
Definition string_or (a b : option string) : option string :=
  if truthy_string a then a else b.

(** [flag || false] on an optional boolean. *)
Definition bool_or_false (o : option bool) : bool := default false o.

(** A number relayed from the price feed: a double read from JSON, kept as
    the rational it denotes; the steps never compute with it. *)
Definition number : Type := Qc.

(** ** Entities (src/model) *)

Record SubstrateRpc := mkSubstrateRpc {
  srpc_url : string;
  srpc_isHealthy : bool
}.

Record EthereumRpc := mkEthereumRpc {
  erpc_url : string;
  erpc_isHealthy : bool
}.

(** model/generated/chain.model.ts; relations are held by the id of the
    row they point to, as [loadRelationIds] yields them. *)
Record Chain := mkChain {
  chain_id : string;
  chain_isTestnet : bool;
  chain_sortIndex : option Z;
  chain_genesisHash : option string;
  chain_prefix : option Z;
  chain_name : option string;
  chain_chainName : option string;
  chain_implName : option string;
  chain_specName : option string;
  chain_specVersion : option string;
  chain_nativeToken : option string;
  chain_tokensCurrencyIdIndex : option Z;
  chain_account : option string;
  chain_subscanUrl : option string;
  chain_rpcs : list SubstrateRpc;
  chain_isHealthy : bool;
  chain_paraId : option Z;
  chain_relay : option string
}.

Record EvmNetwork := mkEvmNetwork {
  evm_id : option string;
  evm_isTestnet : bool;
  evm_sortIndex : option Z;
  evm_name : option string;
  evm_explorerUrl : option string;
  evm_rpcs : list EthereumRpc;
  evm_isHealthy : bool;
  evm_substrateChain : option string;
  evm_nativeToken : option string
}.

(** Quotes per currency code; a field never assigned is absent. *)
Abbreviation TokenRates := (gmap string number).

Inductive TokenKind := NativeToken | OrmlToken | Erc20Token.

(** The token row together with its [squidImplementationDetail]: the
    fields shared by the three variants, then the variant's own
    ([existentialDeposit] for native tokens, [stateKey] and [chain] for
    orml tokens, [contractAddress] and [evmNetwork] for erc20 tokens). *)
Record Token := mkToken {
  token_id : string;
  token_isTypeOf : TokenKind;
  token_isTestnet : bool;
  token_symbol : option string;
  token_decimals : option Z;
  token_coingeckoId : option string;
  token_rates : option TokenRates;
  token_existentialDeposit : option Z;
  token_stateKey : option string;
  token_contractAddress : option string;
  token_chain : option string;
  token_evmNetwork : option string
}.

#[global] Instance TokenKind_eq_dec : EqDecision TokenKind.
Proof. solve_decision. Defined.
#[global] Instance SubstrateRpc_eq_dec : EqDecision SubstrateRpc.
Proof. solve_decision. Defined.
#[global] Instance EthereumRpc_eq_dec : EqDecision EthereumRpc.
Proof. solve_decision. Defined.

(** ** Records of the configuration feed (src/types) *)

Record GithubChain := mkGithubChain {
  gc_id : string;
  gc_isTestnet : option bool;
  gc_name : option string;
  gc_account : option string;
  gc_subscanUrl : option string;
  gc_rpcs : option (list string);
  gc_paraId : option Z;
  gc_relay : option string          (* [relay?.id] *)
}.

Record GithubEvmNetwork := mkGithubEvmNetwork {
  gn_name : option string;
  gn_substrateChainId : option string;
  gn_isTestnet : option bool;
  gn_explorerUrl : option string;
  gn_rpcs : option (list string);
  gn_symbol : option string;
  gn_decimals : option Z
}.

Record GithubToken := mkGithubToken {
  gt_id : option string;
  gt_symbol : option string;
  gt_decimals : option Z;
  gt_coingeckoId : option string;
  gt_contractAddress : option string;
  gt_evmNetworkId : option string   (* [evmNetworkId?.toString()] *)
}.

(** ** The persisted graph *)

Record Store := mkStore {
  chains : gmap string Chain;
  evmNetworks : gmap string EvmNetwork;
  tokens : gmap string Token
}.

Definition set_chains (f : gmap string Chain → gmap string Chain) (st : Store) : Store :=
  mkStore (f (chains st)) (evmNetworks st) (tokens st).
Definition set_evmNetworks (f : gmap string EvmNetwork → gmap string EvmNetwork)
    (st : Store) : Store :=
  mkStore (chains st) (f (evmNetworks st)) (tokens st).
Definition set_tokens (f : gmap string Token → gmap string Token) (st : Store) : Store :=
  mkStore (chains st) (evmNetworks st) (f (tokens st)).

(** [store.find(E)]: every row of a table, in an order fixed by the set of
    primary keys. *)
Definition find {E : Type} (table : gmap string E) : list E :=
  omap (λ k, table !! k) (elements (dom table)).

(** [store.findOne(E, { where })] on a column other than the key: the
    first row satisfying the filter. *)
Definition findOneBy {E : Type} (p : E → bool) (table : gmap string E) : option E :=
  head (filter (λ e, Is_true (p e)) (find table)).

(** [store.delete(E, ids)]. *)
Definition deleteIds {E : Type} (ids : gset string) (table : gmap string E) : gmap string E :=
  filter (λ kv, kv.1 ∉ ids) table.

(** [store.save(chain)]: insert or overwrite the row of that id. *)
Definition saveChain (c : Chain) (st : Store) : Store :=
  set_chains (insert (chain_id c) c) st.

(** [store.save(evmNetwork)]; every network handed to it carries an id. *)
Definition saveEvmNetwork (n : EvmNetwork) (st : Store) : Store :=
  match evm_id n with
  | Some i => set_evmNetworks (insert i n) st
  | None => st
  end.

(** ** Upstream responses of one run *)

(** A type of the runtime metadata's lookup table, reduced to what the
    extraction reads: its path and, for a variant type, the variants'
    names and discriminants. *)
Inductive TypeDef :=
  | DefVariant (variants : list (string * Z))
  | DefOther.

Record PortableType := mkPortableType {
  pt_path : list string;
  pt_def : TypeDef
}.

(** [system_properties] reports [tokenSymbol] as a string or an array of
    strings and [tokenDecimals] as a number or an array of numbers. *)
Inductive JsSymbols :=
  | SymUndefined
  | SymString (s : string)
  | SymArray (l : list string).

Inductive JsDecimals :=
  | DecUndefined
  | DecNumber (z : Z)
  | DecArray (l : list Z).

(** The answers to the batched request of one extraction attempt, with
    the metadata already decoded by the external decoder. *)
Record RpcData := mkRpcData {
  rd_genesisHash : option string;
  rd_specName : option string;
  rd_specVersion : option string;
  rd_implName : option string;
  rd_chainName : option string;
  rd_ss58Format : option Z;
  rd_tokenDecimals : JsDecimals;
  rd_tokenSymbol : JsSymbols;
  rd_chainSS58 : option Z;                  (* [metadata.registry.chainSS58] *)
  rd_lookupTypes : list PortableType;       (* [metadata.asLatest.lookup?.types || []] *)
  rd_existentialDeposit : option Z          (* [constants?.balances?.existentialDeposit] *)
}.

(** The reply of an ethereum rpc to [eth_chainId]: the request fails, or
    it answers with a status and a result that [parseInt] reads as a
    number ([None] for NaN). *)
Inductive EthResponse :=
  | EthError
  | EthReply (status : Z) (result : option Z).

Record Upstream := mkUpstream {
  up_chaindata : list GithubChain;            (* chaindata.json *)
  up_testnets_chaindata : list GithubChain;   (* testnets-chaindata.json *)
  up_evm_networks : list GithubEvmNetwork;    (* evm-networks.json *)
  up_tokens : list GithubToken;               (* tokens.json *)
  (** does the rpc of this chain at this url answer [chain_getBlockHash]
      before the timeout? *)
  up_substrateProbe : string → string → bool;
  (** the batched answers of the chain's rpc at this url on the given
      attempt, [None] when connecting, sending or decoding fails *)
  up_chainRpc : string → nat → string → option RpcData;
  up_ethChainId : string → EthResponse;
  up_coingeckoPrices : gmap string (gmap string number)
}.

(** [processorSharedData] *)
Record SharedData := mkSharedData {
  githubChains : list GithubChain;
  githubEvmNetworks : list GithubEvmNetwork;
  githubTokens : list GithubToken
}.

Definition with_isTestnet_true (g : GithubChain) : GithubChain :=
  mkGithubChain (gc_id g) (Some true) (gc_name g) (gc_account g) (gc_subscanUrl g)
    (gc_rpcs g) (gc_paraId g) (gc_relay g).

Definition fetchDataFromGithub (up : Upstream) : SharedData :=
  mkSharedData
    (up_chaindata up ++ map with_isTestnet_true (up_testnets_chaindata up))
    (up_evm_networks up)
    (up_tokens up).

(** ** Step: updateChainsFromGithub *)

(** Modelled from the spec: [getOrCreate] of src/helpers.ts, which is not
    among the sources; it fetches the row of that id or makes a new entity
    carrying only the id (and does not persist it). *)
Definition newChain (id : string) : Chain :=
  mkChain id false None None None None None None None None None None None None [] false
    None None.

Definition getOrCreateChain (st : Store) (id : string) : Chain :=
  default (newChain id) (chains st !! id).

(** The body of the loop over the feed's chains, up to the save. *)
Definition upsertChain (st : Store) (githubChain : GithubChain) : Chain :=
  let chain := getOrCreateChain st (gc_id githubChain) in
  let relay :=
    if truthy_string (gc_relay githubChain)
    then chains st !! default "" (gc_relay githubChain)
    else None in
  let both := bool_decide (is_Some relay) && truthy_number (gc_paraId githubChain) in
  mkChain (chain_id chain)
    (bool_or_false (gc_isTestnet githubChain))
    (chain_sortIndex chain) (chain_genesisHash chain) (chain_prefix chain)
    (gc_name githubChain)
    (chain_chainName chain) (chain_implName chain) (chain_specName chain)
    (chain_specVersion chain) (chain_nativeToken chain)
    (chain_tokensCurrencyIdIndex chain)
    (gc_account githubChain)
    (gc_subscanUrl githubChain)
    (map (λ url, mkSubstrateRpc url false) (default [] (gc_rpcs githubChain)))
    (chain_isHealthy chain)
    (if both then gc_paraId githubChain else None)
    (if both then chain_id <$> relay else None).

(** One turn of the loop: the id leaves the deletion map and the chain is
    saved. *)
Definition chainsLoopBody (acc : Store * gset string) (githubChain : GithubChain)
    : Store * gset string :=
  let '(st, deletedChainIdsMap) := acc in
  (saveChain (upsertChain st githubChain) st, deletedChainIdsMap ∖ {[gc_id githubChain]}).

Definition updateChainsFromGithub (shared : SharedData) (st : Store) : Store :=
  let deletedChainIdsMap := dom (chains st) in
  let '(st', deletedChainIds) :=
    foldl chainsLoopBody (st, deletedChainIdsMap) (githubChains shared) in
  if bool_decide (0 < size deletedChainIds)%nat
  then set_chains (deleteIds deletedChainIds) st'
  else st'.

(** ** Tokens in the store *)

(** [Object.fromEntries]: a later entry with the same key wins. *)
Definition fromEntries {V : Type} (entries : list (string * V)) : gmap string V :=
  foldl (λ m kv, <[kv.1 := kv.2]> m) ∅ entries.

Definition newToken (kind : TokenKind) (id : string) : Token :=
  mkToken id kind false None None None None None None None None None.

(** Modelled from the spec: [getOrCreateToken] of src/helpers.ts, which is
    not among the sources; it fetches the token of that id as the asked
    variant, or makes a new one of that variant carrying only the id. *)
Definition getOrCreateToken (st : Store) (kind : TokenKind) (id : string) : Token :=
  match tokens st !! id with
  | Some t => if decide (token_isTypeOf t = kind) then t else newToken kind id
  | None => newToken kind id
  end.

(** Modelled from the spec: [saveToken] of src/helpers.ts, which is not
    among the sources; it persists the token under its id, the anchor
    columns following the variant's [chain] and [evmNetwork] fields. *)
Definition saveToken (t : Token) (st : Store) : Store :=
  set_tokens (insert (token_id t) t) st.

(** [store.remove(token)] *)
Definition removeToken (t : Token) (st : Store) : Store :=
  set_tokens (delete (token_id t)) st.

(** [for (const deletedToken of Object.values(deletedTokensMap))
      await store.remove(deletedToken)] *)
Definition removeTokens (deletedTokensMap : gmap string Token) (st : Store) : Store :=
  foldl (λ st deletedToken, removeToken deletedToken st) st (find deletedTokensMap).

(** The known per-chain overrides of [tokenSymbolWorkarounds]. *)
Record Workaround := mkWorkaround {
  wa_symbols : option (list string);
  wa_decimals : option (list Z);
  wa_stateKeys : option (gmap string string)
}.

(** A computation on the store that may throw; the store is kept as it was
    at the throw, which is what the [catch] of an attempt finds. *)
Inductive outcome (A : Type) :=
  | Done (st : Store) (a : A)
  | Thrown (st : Store).
Arguments Done {A} st a.
Arguments Thrown {A} st.

Definition outcome_store {A : Type} (o : outcome A) : Store :=
  match o with Done st _ => st | Thrown st => st end.

Definition throws {A : Type} (o : outcome A) : bool :=
  match o with Done _ _ => false | Thrown _ => true end.

Definition outcome_bind {A B : Type} (o : outcome A) (k : Store → A → outcome B)
    : outcome B :=
  match o with
  | Done st a => k st a
  | Thrown st => Thrown st
  end.

Notation "' ( st , x ) <- o ;; k" := (outcome_bind o (λ st x, k))
  (at level 100, o at next level, st name, x name, right associativity,
   format "' ( st ,  x )  <-  o  ;;  '/' k").

(** *** Helpers of src/helpers.ts, taken as given

    The identifier functions, the table of overrides, the storage-key hash
    and the ordering of chains and networks are not among the sources at
    hand; the steps are stated over any choice of them. *)
Record Helpers := mkHelpers {
  hp_nativeTokenId : string → option string → string;
  hp_ormlTokenId : string → string → string;
  hp_erc20TokenId : string → option string → string;
  hp_tokenSymbolWorkarounds : string → option Workaround;
  hp_twox64Concat : list Z → string;
  hp_sortChainsAndNetworks : list Chain → list EvmNetwork → list (Chain + EvmNetwork)
}.

Section Pipeline.

Variable helpers : Helpers.

Local Abbreviation nativeTokenId := (hp_nativeTokenId helpers).
Local Abbreviation ormlTokenId := (hp_ormlTokenId helpers).
Local Abbreviation erc20TokenId := (hp_erc20TokenId helpers).
Local Abbreviation tokenSymbolWorkarounds := (hp_tokenSymbolWorkarounds helpers).
Local Abbreviation twox64Concat := (hp_twox64Concat helpers).
Local Abbreviation sortChainsAndNetworks := (hp_sortChainsAndNetworks helpers).

(** *** Step: updateChainData *)

(** The health check of the chain's rpcs: one [chain_getBlockHash] per
    rpc. *)
Definition probeSubstrateRpcs (up : Upstream) (chain : Chain) : list SubstrateRpc :=
  map (λ rpc, mkSubstrateRpc (srpc_url rpc) (up_substrateProbe up (chain_id chain) (srpc_url rpc)))
    (chain_rpcs chain).

Definition set_chain_rpcs_health (rpcs : list SubstrateRpc) (isHealthy : bool)
    (chain : Chain) : Chain :=
  mkChain (chain_id chain) (chain_isTestnet chain) (chain_sortIndex chain)
    (chain_genesisHash chain) (chain_prefix chain) (chain_name chain)
    (chain_chainName chain) (chain_implName chain) (chain_specName chain)
    (chain_specVersion chain) (chain_nativeToken chain)
    (chain_tokensCurrencyIdIndex chain) (chain_account chain) (chain_subscanUrl chain)
    rpcs isHealthy (chain_paraId chain) (chain_relay chain).

Definition set_chain_isHealthy (isHealthy : bool) (chain : Chain) : Chain :=
  set_chain_rpcs_health (chain_rpcs chain) isHealthy chain.

(** [type.path.slice(-1).toString() === name] *)
Definition pathEndsWith (name : string) (t : PortableType) : bool :=
  bool_decide (last (pt_path t) = Some name).

Definition isVariant (t : PortableType) : bool :=
  match pt_def t with DefVariant _ => true | DefOther => false end.

(** [def?.type?.def?.asVariant?.variants.toJSON() || []], where
    [asVariant] throws on a type that is not a variant. *)
Definition variantsOf (def : option PortableType) : option (list (string * Z)) :=
  match def with
  | None => Some []
  | Some t => match pt_def t with DefVariant vs => Some vs | DefOther => None end
  end.

Definition currencyIdVariants (data : RpcData) : list (string * Z) :=
  default []
    (variantsOf
       (head (filter (λ t, Is_true (pathEndsWith "CurrencyId" t && isVariant t))
                (rd_lookupTypes data)))).

Definition tokensCurrencyIdIndex (data : RpcData) : option Z :=
  fromEntries (currencyIdVariants data) !! "Token".

Definition tokenSymbolVariants (data : RpcData) : option (list (string * Z)) :=
  variantsOf
    (head (filter (λ t, Is_true (pathEndsWith "TokenSymbol" t)) (rd_lookupTypes data))).

(** A [Uint8Array] element keeps the value modulo 256. *)
Definition toUint8 (z : Z) : Z := z mod 256.

Definition tokenStateKeyLookup (data : RpcData) (variants : list (string * Z))
    : gmap string string :=
  fromEntries
    (map (λ '(name, index),
            (name, twox64Concat [toUint8 (default 0 (tokensCurrencyIdIndex data));
                                 toUint8 index]))
       variants).

Definition chosenSymbols (chainId : string) (data : RpcData) : JsSymbols :=
  match tokenSymbolWorkarounds chainId ≫= wa_symbols with
  | Some l => SymArray l
  | None => rd_tokenSymbol data
  end.

(** [workaround?.decimals || chainTokenDecimals]: a number 0 is falsy,
    but the right operand is then the result all the same. *)
Definition chosenDecimals (chainId : string) (data : RpcData) : JsDecimals :=
  match tokenSymbolWorkarounds chainId ≫= wa_decimals with
  | Some l => DecArray l
  | None => rd_tokenDecimals data
  end.

Definition chosenStateKeys (chainId : string) (data : RpcData)
    (variants : list (string * Z)) : gmap string string :=
  match tokenSymbolWorkarounds chainId ≫= wa_stateKeys with
  | Some m => m
  | None => tokenStateKeyLookup data variants
  end.

(** [tokenDecimals[index]]: throws on [undefined], reads [undefined] on a
    number or past the end of an array. *)
Definition decimalsAt (tokenDecimals : JsDecimals) (index : nat) : option (option Z) :=
  match tokenDecimals with
  | DecUndefined => None
  | DecNumber _ => Some None
  | DecArray l => Some (l !! index)
  end.

Definition set_orml_fields (symbol : string) (decimals : option Z) (stateKey : string)
    (chainId : string) (t : Token) : Token :=
  mkToken (token_id t) (token_isTypeOf t) (token_isTestnet t) (Some symbol) decimals
    (token_coingeckoId t) (token_rates t) (token_existentialDeposit t) (Some stateKey)
    (token_contractAddress t) (Some chainId) (token_evmNetwork t).

(** The loop over [(Array.isArray(tokenSymbol) ? tokenSymbol : []).entries()]. *)
Fixpoint ormlLoop (chainId : string) (tokenDecimals : JsDecimals)
    (tokenStateKeys : gmap string string) (entries : list (nat * string))
    (st : Store) (deletedTokensMap : gmap string Token) : outcome (gmap string Token) :=
  match entries with
  | [] => Done st deletedTokensMap
  | (index, symbol) :: rest =>
      match tokenStateKeys !! symbol with
      | None => ormlLoop chainId tokenDecimals tokenStateKeys rest st deletedTokensMap
      | Some stateKey =>
          let token := getOrCreateToken st OrmlToken (ormlTokenId chainId symbol) in
          let deletedTokensMap := delete (token_id token) deletedTokensMap in
          match decimalsAt tokenDecimals index with
          | None => Thrown st
          | Some decimals =>
              ormlLoop chainId tokenDecimals tokenStateKeys rest
                (saveToken (set_orml_fields symbol decimals stateKey chainId token) st)
                deletedTokensMap
          end
      end
  end.

Definition symbolEntries (tokenSymbol : JsSymbols) : list (nat * string) :=
  match tokenSymbol with
  | SymArray l => imap (λ i s, (i, s)) l
  | _ => []
  end.

(** The chain's orml tokens in the store:
    [store.find(Token, { where: { squidImplementationDetailChain: { id } } })]
    filtered on [isTypeOf === 'OrmlToken']. *)
Definition existingOrmlTokens (st : Store) (chainId : string) : list Token :=
  filter (λ t, token_isTypeOf t = OrmlToken)
    (filter (λ t, token_chain t = Some chainId) (find (tokens st))).

Definition nativeSymbol (tokenSymbol : JsSymbols) : option string :=
  match tokenSymbol with
  | SymArray l => head l
  | SymString s => Some s
  | SymUndefined => None
  end.

Definition nativeDecimals (tokenDecimals : JsDecimals) : option Z :=
  match tokenDecimals with
  | DecArray l => head l
  | DecNumber z => Some z
  | DecUndefined => None
  end.

Definition set_native_fields (symbol : option string) (decimals : option Z)
    (existentialDeposit : option Z) (t : Token) : Token :=
  mkToken (token_id t) (token_isTypeOf t) (token_isTestnet t) symbol decimals
    (token_coingeckoId t) (token_rates t) existentialDeposit (token_stateKey t)
    (token_contractAddress t) (token_chain t) (token_evmNetwork t).

Definition chainPrefix (data : RpcData) : Z :=
  match rd_chainSS58 data with
  | Some ss58Prefix => ss58Prefix
  | None => default 42 (rd_ss58Format data)
  end.

Definition set_chain_data (data : RpcData) (nativeToken : string) (chain : Chain) : Chain :=
  mkChain (chain_id chain) (chain_isTestnet chain) (chain_sortIndex chain)
    (rd_genesisHash data) (Some (chainPrefix data)) (chain_name chain)
    (rd_chainName data) (rd_implName data) (rd_specName data) (rd_specVersion data)
    (Some nativeToken)
    (chain_tokensCurrencyIdIndex chain) (chain_account chain) (chain_subscanUrl chain)
    (chain_rpcs chain) (chain_isHealthy chain) (chain_paraId chain) (chain_relay chain).

(** The orml tokens of the chain: those of the symbols with a state key
    are saved, the existing ones not seen again are removed. *)
Definition reconcileOrmlTokens (chainId : string) (tokenSymbol : JsSymbols)
    (tokenDecimals : JsDecimals) (tokenStateKeys : gmap string string) (st : Store)
    : outcome unit :=
  let existingTokens := existingOrmlTokens st chainId in
  let deletedTokensMap := fromEntries (map (λ t, (token_id t, t)) existingTokens) in
  '(st, deletedTokensMap) <-
     ormlLoop chainId tokenDecimals tokenStateKeys (symbolEntries tokenSymbol) st
       deletedTokensMap ;;
  Done (removeTokens deletedTokensMap st) tt.

(** What one attempt does with the answers of the rpc, from the
    deconstruction of the rpc data to the last save of the [try] block. *)
Definition applyRpcData (chain : Chain) (data : RpcData) (st : Store) : outcome unit :=
  match tokenSymbolVariants data with
  | None => Thrown st
  | Some variants =>
      let tokenSymbol := chosenSymbols (chain_id chain) data in
      let tokenDecimals := chosenDecimals (chain_id chain) data in
      let tokenStateKeys := chosenStateKeys (chain_id chain) data variants in
      '(st, _) <-
         reconcileOrmlTokens (chain_id chain) tokenSymbol tokenDecimals tokenStateKeys st ;;
      (* re-load chain with new token relations *)
      let chain := getOrCreateChain st (chain_id chain) in
      let nativeTokenSymbol := nativeSymbol tokenSymbol in
      let nativeToken :=
        set_native_fields nativeTokenSymbol (nativeDecimals tokenDecimals)
          (rd_existentialDeposit data)
          (getOrCreateToken st NativeToken
             (nativeTokenId (chain_id chain) nativeTokenSymbol)) in
      let st := saveToken nativeToken st in
      Done (saveChain (set_chain_data data (token_id nativeToken) chain) st) tt
  end.

(** One attempt: connect to the endpoint, fetch, apply. *)
Definition attemptOnce (up : Upstream) (chain : Chain) (attempt : nat) (url : string)
    (st : Store) : outcome unit :=
  match up_chainRpc up (chain_id chain) attempt url with
  | None => Thrown st
  | Some data => applyRpcData chain data st
  end.

(** The outcome of a chain's task together with the connections the
    retry loop opened, in order: the attempt number and the url. *)
Definition Connections : Type := list (nat * string).

(** [healthyRpcUrls[(attempt - 1) % healthyRpcUrls.length]] *)
Definition roundRobin (healthyRpcUrls : list string) (attempt : nat) : string :=
  default "" (healthyRpcUrls !! ((attempt - 1) mod length healthyRpcUrls)%nat).

(** [for (let attempt = 1; attempt <= maxAttempts; attempt += 1)], with
    [remaining] attempts left from [attempt] on. *)
Fixpoint attemptLoop (up : Upstream) (chain : Chain) (healthyRpcUrls : list string)
    (remaining attempt : nat) (st : Store) (log : Connections) : Store * Connections :=
  match remaining with
  | O =>
      (* ran out of attempts *)
      (saveChain (set_chain_isHealthy false chain) st, log)
  | S remaining' =>
      let url := roundRobin healthyRpcUrls attempt in
      match attemptOnce up chain attempt url st with
      | Done st' _ => (st', log ++ [(attempt, url)])
      | Thrown st' =>
          attemptLoop up chain healthyRpcUrls remaining' (S attempt) st'
            (log ++ [(attempt, url)])
      end
  end.

Definition healthyUrls (rpcs : list SubstrateRpc) : list string :=
  map srpc_url (filter (λ rpc, Is_true (srpc_isHealthy rpc)) rpcs).

(** The task [pMap] runs for one chain. *)
Definition updateOneChain (up : Upstream) (chain : Chain) (st : Store)
    : Store * Connections :=
  let rpcs := probeSubstrateRpcs up chain in
  let healthyRpcUrls := healthyUrls rpcs in
  let chain := set_chain_rpcs_health rpcs (bool_decide (0 < length healthyRpcUrls)%nat) chain in
  let st := saveChain chain st in
  let maxAttempts := (length healthyRpcUrls * 2)%nat in
  attemptLoop up chain healthyRpcUrls maxAttempts 1 st [].

(** The chains are taken one after the other in the order of [find]: a
    task awaits each of its store operations, and the tasks of two chains
    touch different rows. *)
Definition updateChainData (up : Upstream) (st : Store) : Store :=
  foldl (λ st chain, (updateOneChain up chain st).1) st (find (chains st)).


(** *** Step: updateEvmNetworksFromGithub *)

(** [isStandaloneEvmNetwork], [isSubstrateEvmNetwork] and
    [isInvalidEvmNetwork] on an entity ... *)
Definition isStandaloneEntity (evmNetwork : EvmNetwork) : bool :=
  bool_decide (evm_substrateChain evmNetwork = None).
Definition isSubstrateEntity (evmNetwork : EvmNetwork) : bool :=
  bool_decide (is_Some (evm_substrateChain evmNetwork)).
Definition isInvalidEntity (evmNetwork : EvmNetwork) : bool :=
  negb (isStandaloneEntity evmNetwork) && negb (isSubstrateEntity evmNetwork).

(** ... and on a record of the feed. *)
Definition isStandaloneRecord (evmNetwork : GithubEvmNetwork) : bool :=
  bool_decide (gn_substrateChainId evmNetwork = None)
  && bool_decide (is_Some (gn_name evmNetwork)).
Definition isSubstrateRecord (evmNetwork : GithubEvmNetwork) : bool :=
  bool_decide (is_Some (gn_substrateChainId evmNetwork)).

Definition newEvmNetwork : EvmNetwork :=
  mkEvmNetwork None false None None None [] false None None.

Definition feedRpcs (evmNetwork : GithubEvmNetwork) : list EthereumRpc :=
  map (λ url, mkEthereumRpc url false) (default [] (gn_rpcs evmNetwork)).

(** The entity of a standalone record, found by name. *)
Definition standaloneEntity (st : Store) (evmNetwork : GithubEvmNetwork) : EvmNetwork :=
  let entity :=
    default newEvmNetwork
      (findOneBy (λ e, bool_decide (evm_name e = gn_name evmNetwork)) (evmNetworks st)) in
  mkEvmNetwork (evm_id entity)
    (bool_or_false (gn_isTestnet evmNetwork))
    (evm_sortIndex entity)
    (gn_name evmNetwork)
    (gn_explorerUrl evmNetwork)
    (feedRpcs evmNetwork)
    (evm_isHealthy entity)
    None
    (evm_nativeToken entity).

(** The entity of a substrate record, found by its chain; the record is
    dropped when the chain is not in the store. *)
Definition substrateEntity (st : Store) (evmNetwork : GithubEvmNetwork)
    : option EvmNetwork :=
  let entity :=
    default newEvmNetwork
      (findOneBy (λ e, bool_decide (evm_substrateChain e = gn_substrateChainId evmNetwork))
         (evmNetworks st)) in
  match chains st !! default "" (gn_substrateChainId evmNetwork) with
  | None => None
  | Some substrateChain =>
      Some (mkEvmNetwork (evm_id entity)
              (chain_isTestnet substrateChain)
              (evm_sortIndex entity)
              (string_or (gn_name evmNetwork) (chain_name substrateChain))
              (gn_explorerUrl evmNetwork)
              (feedRpcs evmNetwork)
              (evm_isHealthy entity)
              (Some (chain_id substrateChain))
              (chain_nativeToken substrateChain))
  end.

Definition standaloneEvmNetworks (shared : SharedData) (st : Store) : list EvmNetwork :=
  map (standaloneEntity st)
    (filter (λ r, Is_true (isStandaloneRecord r)) (githubEvmNetworks shared)).

Definition substrateEvmNetworks (shared : SharedData) (st : Store) : list EvmNetwork :=
  omap (substrateEntity st)
    (filter (λ r, Is_true (isSubstrateRecord r)) (githubEvmNetworks shared)).

(** The id an rpc reports: the request succeeds with status 200 and a
    result that is a number, printed in base 10. *)
Definition ethereumIdOf (response : EthResponse) : option string :=
  match response with
  | EthReply status (Some ethereumId) =>
      if bool_decide (status = 200) then Some (pretty ethereumId) else None
  | _ => None
  end.

Definition ethereumIds (up : Upstream) (rpcs : list EthereumRpc) : list (option string) :=
  map (λ rpc, ethereumIdOf (up_ethChainId up (erpc_url rpc))) rpcs.

(** Each rpc is healthy exactly when it reported an id. *)
Definition probedRpcs (up : Upstream) (rpcs : list EthereumRpc) : list EthereumRpc :=
  map (λ rpc, mkEthereumRpc (erpc_url rpc)
                (bool_decide (is_Some (ethereumIdOf (up_ethChainId up (erpc_url rpc))))))
    rpcs.

(** [ethereumIds.forEach((id, rpcIndex) => ...)]: any rpc with a
    different id is set unhealthy. *)
Definition markDisagreeing (networkId : string) (ids : list (option string))
    (rpcs : list EthereumRpc) : list EthereumRpc :=
  foldl (λ rpcs '(rpcIndex, id),
           if bool_decide (id = Some networkId) then rpcs
           else alter (λ rpc, mkEthereumRpc (erpc_url rpc) false) rpcIndex rpcs)
    rpcs (imap (λ i id, (i, id)) ids).

Definition healthyEthUrls (rpcs : list EthereumRpc) : list string :=
  map erpc_url (filter (λ rpc, Is_true (erpc_isHealthy rpc)) rpcs).

(** The network after the probe of its rpcs: id, rpc health and network
    health. *)
Definition probeEvmNetwork (up : Upstream) (evmNetwork : EvmNetwork) : EvmNetwork :=
  let ids := ethereumIds up (evm_rpcs evmNetwork) in
  let rpcs := probedRpcs up (evm_rpcs evmNetwork) in
  let '(id, rpcs) :=
    match head (omap (λ id, id) ids) with
    | Some first => (Some first, markDisagreeing first ids rpcs)
    | None => (evm_id evmNetwork, rpcs)
    end in
  mkEvmNetwork id (evm_isTestnet evmNetwork) (evm_sortIndex evmNetwork)
    (evm_name evmNetwork) (evm_explorerUrl evmNetwork) rpcs
    (bool_decide (0 < length (healthyEthUrls rpcs))%nat)
    (evm_substrateChain evmNetwork) (evm_nativeToken evmNetwork).

Definition set_evm_nativeToken (nativeToken : string) (n : EvmNetwork) : EvmNetwork :=
  mkEvmNetwork (evm_id n) (evm_isTestnet n) (evm_sortIndex n) (evm_name n)
    (evm_explorerUrl n) (evm_rpcs n) (evm_isHealthy n) (evm_substrateChain n)
    (Some nativeToken).

Definition set_symbol_decimals (symbol : string) (decimals : Z) (t : Token) : Token :=
  mkToken (token_id t) (token_isTypeOf t) (token_isTestnet t) (Some symbol) (Some decimals)
    (token_coingeckoId t) (token_rates t) (token_existentialDeposit t) (token_stateKey t)
    (token_contractAddress t) (token_chain t) (token_evmNetwork t).

(** The record of the feed a standalone network is matched with: the
    first standalone record of that name. *)
Definition githubNetworkOf (shared : SharedData) (evmNetwork : EvmNetwork)
    : option GithubEvmNetwork :=
  head (filter (λ network, gn_name network = evm_name evmNetwork)
          (filter (λ r, Is_true (isStandaloneRecord r)) (githubEvmNetworks shared))).

(** [githubNetwork?.symbol || 'ETH'] *)
Definition nativeSymbolOf (githubNetwork : option GithubEvmNetwork) : string :=
  let symbol := githubNetwork ≫= gn_symbol in
  if truthy_string symbol then default "ETH" symbol else "ETH".

(** [typeof githubNetwork?.decimals === 'number' ? githubNetwork.decimals : 18] *)
Definition nativeDecimalsOf (githubNetwork : option GithubEvmNetwork) : Z :=
  default 18 (githubNetwork ≫= gn_decimals).

(** What the step keeps while it goes through the networks. *)
Record EvmLoop := mkEvmLoop {
  el_store : Store;
  el_deletedStandalone : gset string;
  el_deletedSubstrate : gset string;
  el_updates : list EvmNetwork
}.

(** The native token of a standalone network with id [id]. *)
Definition provisionNativeToken (shared : SharedData) (id : string)
    (evmNetwork : EvmNetwork) (st : Store) : Store * EvmNetwork :=
  let githubNetwork := githubNetworkOf shared evmNetwork in
  let nativeToken :=
    set_symbol_decimals (nativeSymbolOf githubNetwork) (nativeDecimalsOf githubNetwork)
      (getOrCreateToken st NativeToken
         (nativeTokenId id (Some (nativeSymbolOf githubNetwork)))) in
  (saveToken nativeToken st, set_evm_nativeToken (token_id nativeToken) evmNetwork).

(** The callback over [[...standaloneEvmNetworks, ...substrateEvmNetworks]]
    for one network. *)
Definition evmLoopBody (up : Upstream) (shared : SharedData) (acc : EvmLoop)
    (evmNetwork : EvmNetwork) : EvmLoop :=
  let evmNetwork := probeEvmNetwork up evmNetwork in
  match evm_id evmNetwork with
  | None => acc
  | Some id =>
      let deletedStandalone :=
        if isStandaloneEntity evmNetwork then el_deletedStandalone acc ∖ {[id]}
        else el_deletedStandalone acc in
      let deletedSubstrate :=
        if isSubstrateEntity evmNetwork then el_deletedSubstrate acc ∖ {[id]}
        else el_deletedSubstrate acc in
      let '(st, evmNetwork) :=
        if isStandaloneEntity evmNetwork
        then provisionNativeToken shared id evmNetwork (el_store acc)
        else (el_store acc, evmNetwork) in
      mkEvmLoop st deletedStandalone deletedSubstrate (el_updates acc ++ [evmNetwork])
  end.

Definition idsOf (l : list EvmNetwork) : gset string :=
  list_to_set (omap evm_id l).

(** The loop over the networks of the feed: the store with the native
    tokens, what is left of the two deletion maps, and
    [evmNetworkUpdates]. *)
Definition evmLoopFinal (up : Upstream) (shared : SharedData) (st : Store) : EvmLoop :=
  let storeEvmNetworks := find (evmNetworks st) in
  let deletedStandaloneEvmNetworkIdsMap :=
    idsOf (filter (λ e, Is_true (isStandaloneEntity e)) storeEvmNetworks) in
  let deletedSubstrateEvmNetworkIdsMap :=
    idsOf (filter (λ e, Is_true (isSubstrateEntity e)) storeEvmNetworks) in
  foldl (evmLoopBody up shared)
    (mkEvmLoop st deletedStandaloneEvmNetworkIdsMap deletedSubstrateEvmNetworkIdsMap [])
    (standaloneEvmNetworks shared st ++ substrateEvmNetworks shared st).

Definition evmNetworkUpdates (up : Upstream) (shared : SharedData) (st : Store)
    : list EvmNetwork :=
  el_updates (evmLoopFinal up shared st).

Definition saveEvmNetworks (updates : list EvmNetwork) (st : Store) : Store :=
  foldl (λ st evmNetwork, saveEvmNetwork evmNetwork st) st updates.

Definition updateEvmNetworksFromGithub (up : Upstream) (shared : SharedData)
    (st : Store) : Store :=
  let deletedInvalidEvmNetworkIds :=
    idsOf (filter (λ e, Is_true (isInvalidEntity e)) (find (evmNetworks st))) in
  let final := evmLoopFinal up shared st in
  let st := saveEvmNetworks (evmNetworkUpdates up shared st) (el_store final) in
  let deletedEvmNetworkIds :=
    deletedInvalidEvmNetworkIds ∪ el_deletedStandalone final ∪ el_deletedSubstrate final in
  if bool_decide (0 < size deletedEvmNetworkIds)%nat
  then set_evmNetworks (deleteIds deletedEvmNetworkIds) st
  else st.

(** *** Step: updateSortIndexes *)

Definition saveSorted (st : Store) (e : Chain + EvmNetwork) : Store :=
  match e with
  | inl chain => saveChain chain st
  | inr evmNetwork => saveEvmNetwork evmNetwork st
  end.

Definition updateSortIndexes (st : Store) : Store :=
  foldl saveSorted st
    (sortChainsAndNetworks (find (chains st)) (find (evmNetworks st))).


(** *** Step: updateTokensFromGithub *)

Definition isRenameOrCoingeckoId (token : GithubToken) : bool :=
  bool_decide (is_Some (gt_id token))
  && (bool_decide (is_Some (gt_coingeckoId token))
      || bool_decide (is_Some (gt_symbol token))).

Definition isErc20 (token : GithubToken) : bool :=
  bool_decide (is_Some (gt_contractAddress token))
  && bool_decide (is_Some (gt_evmNetworkId token)).

Definition applyRename (renameOrCoingeckoId : GithubToken) (token : Token) : Token :=
  mkToken (token_id token) (token_isTypeOf token) (token_isTestnet token)
    (if truthy_string (gt_symbol renameOrCoingeckoId)
     then gt_symbol renameOrCoingeckoId else token_symbol token)
    (token_decimals token)
    (if truthy_string (gt_coingeckoId renameOrCoingeckoId)
     then gt_coingeckoId renameOrCoingeckoId else token_coingeckoId token)
    (token_rates token) (token_existentialDeposit token) (token_stateKey token)
    (token_contractAddress token) (token_chain token) (token_evmNetwork token).

Definition renameLoopBody (st : Store) (renameOrCoingeckoId : GithubToken) : Store :=
  match tokens st !! default "" (gt_id renameOrCoingeckoId) with
  | None => st
  | Some tokenEntity => saveToken (applyRename renameOrCoingeckoId tokenEntity) st
  end.

Definition set_erc20_fields (erc20 : GithubToken) (evmNetwork : EvmNetwork) (t : Token)
    : Token :=
  mkToken (token_id t) (token_isTypeOf t) (token_isTestnet t)
    (gt_symbol erc20) (gt_decimals erc20) (gt_coingeckoId erc20)
    (token_rates t) (token_existentialDeposit t) (token_stateKey t)
    (gt_contractAddress erc20) (token_chain t) (evm_id evmNetwork).

Definition erc20LoopBody (acc : Store * gmap string Token) (erc20 : GithubToken)
    : Store * gmap string Token :=
  let '(st, deletedTokensMap) := acc in
  match evmNetworks st !! default "" (gt_evmNetworkId erc20) with
  | None => acc
  | Some evmNetwork =>
      let token :=
        getOrCreateToken st Erc20Token
          (erc20TokenId (default "" (evm_id evmNetwork)) (gt_contractAddress erc20)) in
      (saveToken (set_erc20_fields erc20 evmNetwork token) st,
       delete (token_id token) deletedTokensMap)
  end.

Definition existingErc20Tokens (st : Store) : list Token :=
  filter (λ t, token_isTypeOf t = Erc20Token) (find (tokens st)).

(** The first loop: rename / set coingeckoId for tokens. *)
Definition renameTokens (shared : SharedData) (st : Store) : Store :=
  foldl renameLoopBody st
    (filter (λ t, Is_true (isRenameOrCoingeckoId t)) (githubTokens shared)).

(** The second loop and the removal that follows it: the preconfigured
    erc20 tokens. *)
Definition reconcileErc20Tokens (shared : SharedData) (st : Store) : Store :=
  let deletedTokensMap :=
    fromEntries (map (λ t, (token_id t, t)) (existingErc20Tokens st)) in
  let '(st, deletedTokensMap) :=
    foldl erc20LoopBody (st, deletedTokensMap)
      (filter (λ t, Is_true (isErc20 t)) (githubTokens shared)) in
  removeTokens deletedTokensMap st.

Definition updateTokensFromGithub (shared : SharedData) (st : Store) : Store :=
  reconcileErc20Tokens shared (renameTokens shared st).

(** *** Step: updateTokensTestnetField *)

(** Modelled from the spec: the relation columns of a token row as
    [loadRelationIds] yields them (model/generated/token.model.ts is not
    among the sources): the primary anchors are the chain and the
    network of the variant, the "native to" relations are the chains and
    networks whose native token is this token. *)
Record TokenRelations := mkTokenRelations {
  squidImplementationDetailChain : option string;
  squidImplementationDetailNativeToChains : list string;
  squidImplementationDetailEvmNetwork : option string;
  squidImplementationDetailNativeToEvmNetworks : list string
}.

Definition loadRelationIds (st : Store) (token : Token) : TokenRelations :=
  mkTokenRelations
    (token_chain token)
    (map chain_id
       (filter (λ c, chain_nativeToken c = Some (token_id token)) (find (chains st))))
    (token_evmNetwork token)
    (omap evm_id
       (filter (λ n, evm_nativeToken n = Some (token_id token)) (find (evmNetworks st)))).

Definition chainsMap (st : Store) : gmap string Chain :=
  fromEntries (map (λ chain, (chain_id chain, chain)) (find (chains st))).

Definition evmNetworksMap (st : Store) : gmap string EvmNetwork :=
  fromEntries (omap (λ n, (λ id, (id, n)) <$> evm_id n) (find (evmNetworks st))).

(** The testnet flags a token is judged by: those of the chains and
    networks it is related to, as far as they are in the maps. *)
Definition testnetFlags (st : Store) (rel : TokenRelations) : list bool :=
  map chain_isTestnet
    (omap (λ id, chainsMap st !! id)
       (option_list (squidImplementationDetailChain rel)
        ++ squidImplementationDetailNativeToChains rel))
  ++ map evm_isTestnet
       (omap (λ id, evmNetworksMap st !! id)
          (option_list (squidImplementationDetailEvmNetwork rel)
           ++ squidImplementationDetailNativeToEvmNetworks rel)).

Definition isTestnetToken (st : Store) (token : Token) : bool :=
  forallb (λ isTestnet, isTestnet) (testnetFlags st (loadRelationIds st token)).

Definition set_token_isTestnet (isTestnet : bool) (t : Token) : Token :=
  mkToken (token_id t) (token_isTypeOf t) isTestnet (token_symbol t) (token_decimals t)
    (token_coingeckoId t) (token_rates t) (token_existentialDeposit t) (token_stateKey t)
    (token_contractAddress t) (token_chain t) (token_evmNetwork t).

Definition saveTokens (updatedTokens : list Token) (st : Store) : Store :=
  foldl (λ st token, saveToken token st) st updatedTokens.

Definition updateTokensTestnetField (st : Store) : Store :=
  saveTokens
    (map (λ token, set_token_isTestnet (isTestnetToken st token) token) (find (tokens st)))
    st.

(** *** Step: updateTokenRates *)

Definition coingeckoCurrencies : list string := ["usd"; "eur"].

(** The ids the quote request asks for. *)
Definition coingeckoIds (st : Store) : list string :=
  omap (λ token,
          if token_isTestnet token then None
          else if truthy_string (token_coingeckoId token) then token_coingeckoId token
          else None)
    (find (tokens st)).

(** [new TokenRates()] filled currency by currency from the entry of the
    response. *)
Definition ratesFrom (rates : gmap string number) : TokenRates :=
  foldl (λ tokenRates currency,
           match rates !! currency with
           | Some quote => <[currency := quote]> tokenRates
           | None => delete currency tokenRates
           end)
    ∅ coingeckoCurrencies.

Definition set_token_rates (rates : option TokenRates) (t : Token) : Token :=
  mkToken (token_id t) (token_isTypeOf t) (token_isTestnet t) (token_symbol t)
    (token_decimals t) (token_coingeckoId t) rates (token_existentialDeposit t)
    (token_stateKey t) (token_contractAddress t) (token_chain t) (token_evmNetwork t).

Definition refreshRates (coingeckoPrices : gmap string (gmap string number))
    (token : Token) : Token :=
  let token := set_token_rates None token in
  if token_isTestnet token then token
  else if negb (truthy_string (token_coingeckoId token)) then token
  else
    match coingeckoPrices !! default "" (token_coingeckoId token) with
    | None => token
    | Some rates => set_token_rates (Some (ratesFrom rates)) token
    end.

Definition updateTokenRates (up : Upstream) (st : Store) : Store :=
  saveTokens (map (refreshRates (up_coingeckoPrices up)) (find (tokens st))) st.

(** *** The post-block hook *)

(** [processorSteps], after [fetchDataFromGithub] has filled the shared
    data. *)
Definition processorSteps (up : Upstream) (st : Store) : Store :=
  let shared := fetchDataFromGithub up in
  let st := updateChainsFromGithub shared st in
  let st := updateChainData up st in
  let st := updateEvmNetworksFromGithub up shared st in
  let st := updateSortIndexes st in
  let st := updateTokensFromGithub shared st in
  let st := updateTokensTestnetField st in
  updateTokenRates up st.

Definition numBlocksPerExecution : Z := 50.
Definition skipBlocksOlderThan : Z := 86400000.

(** The hook runs the steps on every fiftieth block that is not older
    than a day. *)
Definition postHook (up : Upstream) (now blockHeight blockTimestamp : Z) (st : Store)
    : Store :=
  if negb (bool_decide (blockHeight mod numBlocksPerExecution = 0)) then st
  else if bool_decide (skipBlocksOlderThan < now - blockTimestamp) then st
  else processorSteps up st.

End Pipeline.

(** * Properties of the steps *)

(** ** Notions used in the statements *)

(** A table is keyed by the primary column of its rows. *)
Definition wf_chains (m : gmap string Chain) : Prop :=
  map_Forall (λ k c, chain_id c = k) m.
Definition wf_evmNetworks (m : gmap string EvmNetwork) : Prop :=
  map_Forall (λ k n, evm_id n = Some k) m.
Definition wf_tokens (m : gmap string Token) : Prop :=
  map_Forall (λ k t, token_id t = k) m.

Definition wf_store (st : Store) : Prop :=
  wf_chains (chains st) ∧ wf_evmNetworks (evmNetworks st) ∧ wf_tokens (tokens st).

(** Saving the rows of a list one after the other. *)
Definition insertAll {E : Type} (key : E → string) (l : list E) (m : gmap string E)
    : gmap string E :=
  foldl (λ m x, <[key x := x]> m) m l.

(** The ids of the chains of the feed. *)
Definition feedChainIds (gcs : list GithubChain) : gset string :=
  list_to_set (gc_id <$> gcs).

(** The loop of [updateChainsFromGithub] over a prefix of the feed. *)
Definition chainsLoop (gcs : list GithubChain) (st : Store) : Store * gset string :=
  foldl chainsLoopBody (st, dom (chains st)) gcs.

Definition setUnhealthy (rpc : EthereumRpc) : EthereumRpc :=
  mkEthereumRpc (erpc_url rpc) false.

Definition evmKey (n : EvmNetwork) : string := default "" (evm_id n).

(** The entity the step hands to [store.save] for an incoming network:
    none when the network has no id after the probe. *)
Definition evmUpdateOf (h : Helpers) (up : Upstream) (shared : SharedData)
    (evmNetwork : EvmNetwork) : option EvmNetwork :=
  let probed := probeEvmNetwork up evmNetwork in
  match evm_id probed with
  | None => None
  | Some id =>
      Some (if isStandaloneEntity probed
            then set_evm_nativeToken
                   (hp_nativeTokenId h id (Some (nativeSymbolOf (githubNetworkOf shared probed))))
                   probed
            else probed)
  end.

Definition incomingEvmNetworks (shared : SharedData) (st : Store) : list EvmNetwork :=
  standaloneEvmNetworks shared st ++ substrateEvmNetworks shared st.

(** The ids [updateEvmNetworksFromGithub] deletes at its end. *)
Definition evmDeleted (h : Helpers) (up : Upstream) (shared : SharedData) (st : Store)
    : gset string :=
  idsOf (filter (λ e, Is_true (isInvalidEntity e)) (find (evmNetworks st)))
  ∪ el_deletedStandalone (evmLoopFinal h up shared st)
  ∪ el_deletedSubstrate (evmLoopFinal h up shared st).


(** A loop that, for each item with an id, saves the token made for it
    and takes the id out of the deletion map: the shape of the erc20 and
    orml loops. *)
Definition tokenLoopBody {S : Type} (idOf : S → option string) (upsert : Store → S → Token)
    (acc : Store * gmap string Token) (s : S) : Store * gmap string Token :=
  match idOf s with
  | None => acc
  | Some k => (saveToken (upsert acc.1 s) acc.1, delete k acc.2)
  end.

Definition tokenLoop {S : Type} (idOf : S → option string) (upsert : Store → S → Token)
    (l : list S) (acc : Store * gmap string Token) : Store * gmap string Token :=
  foldl (tokenLoopBody idOf upsert) acc l.

(** The erc20 records of the feed, the id a record resolves to (none when
    its network is not persisted) and the token the loop saves for it. *)
Definition erc20Records (shared : SharedData) : list GithubToken :=
  filter (λ t, Is_true (isErc20 t)) (githubTokens shared).

Definition erc20IdOf (h : Helpers) (nets : gmap string EvmNetwork) (erc20 : GithubToken)
    : option string :=
  (λ evmNetwork, hp_erc20TokenId h (evmKey evmNetwork) (gt_contractAddress erc20))
    <$> nets !! default "" (gt_evmNetworkId erc20).

Definition erc20Upsert (h : Helpers) (nets : gmap string EvmNetwork) (st : Store)
    (erc20 : GithubToken) : Token :=
  match nets !! default "" (gt_evmNetworkId erc20) with
  | Some evmNetwork =>
      set_erc20_fields erc20 evmNetwork
        (getOrCreateToken st Erc20Token
           (hp_erc20TokenId h (evmKey evmNetwork) (gt_contractAddress erc20)))
  | None => newToken Erc20Token ""
  end.

Definition erc20Deleted0 (st : Store) : gmap string Token :=
  fromEntries (map (λ t, (token_id t, t)) (existingErc20Tokens st)).

(** The erc20 loop over a prefix of the records. *)
Definition erc20Loop (h : Helpers) (l : list GithubToken) (st : Store)
    : Store * gmap string Token :=
  foldl (erc20LoopBody h) (st, erc20Deleted0 st) l.


(** The same for the orml loop of one chain. *)
Definition ormlIdOf (h : Helpers) (chainId : string) (tokenStateKeys : gmap string string)
    (entry : nat * string) : option string :=
  (λ _, hp_ormlTokenId h chainId entry.2) <$> tokenStateKeys !! entry.2.

Definition ormlUpsert (h : Helpers) (chainId : string) (tokenDecimals : JsDecimals)
    (tokenStateKeys : gmap string string) (st : Store) (entry : nat * string) : Token :=
  set_orml_fields entry.2
    (default None (decimalsAt tokenDecimals entry.1))
    (default "" (tokenStateKeys !! entry.2))
    chainId
    (getOrCreateToken st OrmlToken (hp_ormlTokenId h chainId entry.2)).

Definition ormlDeleted0 (st : Store) (chainId : string) : gmap string Token :=
  fromEntries (map (λ t, (token_id t, t)) (existingOrmlTokens st chainId)).





(** ** The chain task in closed form *)

Definition emptyStore : Store := mkStore ∅ ∅ ∅.

(** The chain as saved after the health check of its rpcs. *)
Definition probedChain (up : Upstream) (chain : Chain) : Chain :=
  set_chain_rpcs_health (probeSubstrateRpcs up chain)
    (bool_decide (0 < length (healthyUrls (probeSubstrateRpcs up chain)))%nat) chain.

(** The answers of an attempt, when the attempt goes through; whether it
    throws does not depend on the store. *)
Definition attemptData (h : Helpers) (up : Upstream) (chain : Chain) (attempt : nat)
    (url : string) : option RpcData :=
  match up_chainRpc up (chain_id chain) attempt url with
  | Some data => if throws (applyRpcData h chain data emptyStore) then None else Some data
  | None => None
  end.

Fixpoint firstSuccess (h : Helpers) (up : Upstream) (chain : Chain) (urls : list string)
    (remaining attempt : nat) : option RpcData :=
  match remaining with
  | O => None
  | S remaining' =>
      match attemptData h up chain attempt (roundRobin urls attempt) with
      | Some data => Some data
      | None => firstSuccess h up chain urls remaining' (S attempt)
      end
  end.

(** The answers the retry loop of the chain ends on, if any. *)
Definition extractedData (h : Helpers) (up : Upstream) (chain : Chain) : option RpcData :=
  let urls := healthyUrls (probeSubstrateRpcs up chain) in
  firstSuccess h up (probedChain up chain) urls (length urls * 2) 1.

(** The row of the chain after its task. *)
Definition dChain (h : Helpers) (up : Upstream) (chain : Chain) : Chain :=
  match extractedData h up chain with
  | Some data =>
      set_chain_data data
        (hp_nativeTokenId h (chain_id chain)
           (nativeSymbol (chosenSymbols h (chain_id chain) data)))
        (probedChain up chain)
  | None => set_chain_isHealthy false (probedChain up chain)
  end.

(** The tokens after an attempt that goes through with [data]. *)
Definition dTokens (h : Helpers) (chainId : string) (data : RpcData) (m : gmap string Token)
    : gmap string Token :=
  tokens (outcome_store (applyRpcData h (newChain chainId) data (mkStore ∅ ∅ m))).

Definition dTokensOf (h : Helpers) (up : Upstream) (m : gmap string Token) (chain : Chain)
    : gmap string Token :=
  match extractedData h up chain with
  | Some data => dTokens h (chain_id chain) data m
  | None => m
  end.

(** ** Notions for the comparison of two runs *)

Definition set_chain_sortIndex (sortIndex : option Z) (chain : Chain) : Chain :=
  mkChain (chain_id chain) (chain_isTestnet chain) sortIndex
    (chain_genesisHash chain) (chain_prefix chain) (chain_name chain)
    (chain_chainName chain) (chain_implName chain) (chain_specName chain)
    (chain_specVersion chain) (chain_nativeToken chain)
    (chain_tokensCurrencyIdIndex chain) (chain_account chain) (chain_subscanUrl chain)
    (chain_rpcs chain) (chain_isHealthy chain) (chain_paraId chain) (chain_relay chain).

Definition set_evm_sortIndex (sortIndex : option Z) (n : EvmNetwork) : EvmNetwork :=
  mkEvmNetwork (evm_id n) (evm_isTestnet n) sortIndex (evm_name n)
    (evm_explorerUrl n) (evm_rpcs n) (evm_isHealthy n) (evm_substrateChain n)
    (evm_nativeToken n).

(** The ordering helper only assigns sort indices, and the index it gives
    an entity does not depend on the indices the entities carried. *)
Definition sortAssignsRanks (h : Helpers) : Prop :=
  ∃ (rankC rankN : list Chain → list EvmNetwork → string → option Z),
    ∀ chains evmNetworks,
      hp_sortChainsAndNetworks h chains evmNetworks
      ≡ₚ map (λ c, inl (set_chain_sortIndex
                          (rankC (set_chain_sortIndex None <$> chains)
                             (set_evm_sortIndex None <$> evmNetworks) (chain_id c)) c))
           chains
         ++ map (λ n, inr (set_evm_sortIndex
                             (rankN (set_chain_sortIndex None <$> chains)
                                (set_evm_sortIndex None <$> evmNetworks) (evmKey n)) n))
              evmNetworks.

(** The fields [upsertChain] writes from a record of the feed, over the
    row it was given. *)
Definition upsertFields (githubChain : GithubChain) (relay : option string) (base : Chain)
    : Chain :=
  let both := bool_decide (is_Some relay) && truthy_number (gc_paraId githubChain) in
  mkChain (chain_id base)
    (bool_or_false (gc_isTestnet githubChain))
    (chain_sortIndex base) (chain_genesisHash base) (chain_prefix base)
    (gc_name githubChain)
    (chain_chainName base) (chain_implName base) (chain_specName base)
    (chain_specVersion base) (chain_nativeToken base)
    (chain_tokensCurrencyIdIndex base)
    (gc_account githubChain)
    (gc_subscanUrl githubChain)
    (map (λ url, mkSubstrateRpc url false) (default [] (gc_rpcs githubChain)))
    (chain_isHealthy base)
    (if both then gc_paraId githubChain else None)
    (if both then relay else None).

(** The relay of a record, as far as it is among the known chains. *)
Definition relayResolved (known : gset string) (githubChain : GithubChain) : option string :=
  if truthy_string (gc_relay githubChain)
     && bool_decide (default "" (gc_relay githubChain) ∈ known)
  then gc_relay githubChain else None.

(** Every record with a paraId finds its relay among the chains known at
    its turn exactly when the relay is a chain of the feed. *)
Fixpoint relaysStable (known all : gset string) (feed : list GithubChain) : bool :=
  match feed with
  | [] => true
  | githubChain :: rest =>
      (negb (truthy_number (gc_paraId githubChain))
       || bool_decide (relayResolved known githubChain = relayResolved all githubChain))
      && relaysStable (known ∪ {[gc_id githubChain]}) all rest
  end.

(** The last record of the feed for a chain id. *)
Definition lastRecord (feed : list GithubChain) (k : string) : option GithubChain :=
  last (filter (λ g, gc_id g = k) feed).

(** The row the first step leaves for a record, over the row [base]. *)
Definition cRow (feed : list GithubChain) (g : GithubChain) (base : Chain) : Chain :=
  upsertFields g (relayResolved (feedChainIds feed) g) base.

Definition lefts {A B : Type} (l : list (A + B)) : list A :=
  omap (λ e, match e with inl a => Some a | inr _ => None end) l.
Definition rights {A B : Type} (l : list (A + B)) : list B :=
  omap (λ e, match e with inl _ => None | inr b => Some b end) l.

(** The rows of a store with the sort indices of a ranking. *)
Definition rankedChain (rankC : list Chain → list EvmNetwork → string → option Z)
    (st : Store) (c : Chain) : Chain :=
  set_chain_sortIndex
    (rankC (set_chain_sortIndex None <$> find (chains st))
       (set_evm_sortIndex None <$> find (evmNetworks st)) (chain_id c)) c.
Definition rankedEvmNetwork (rankN : list Chain → list EvmNetwork → string → option Z)
    (st : Store) (n : EvmNetwork) : EvmNetwork :=
  set_evm_sortIndex
    (rankN (set_chain_sortIndex None <$> find (chains st))
       (set_evm_sortIndex None <$> find (evmNetworks st)) (evmKey n)) n.

(** The entity of a standalone record over the entity found for it, and
    the entity of a substrate record over the entity and the chain found
    for it. *)
Definition standaloneOver (r : GithubEvmNetwork) (entity : EvmNetwork) : EvmNetwork :=
  mkEvmNetwork (evm_id entity) (bool_or_false (gn_isTestnet r)) (evm_sortIndex entity)
    (gn_name r) (gn_explorerUrl r) (feedRpcs r) (evm_isHealthy entity) None
    (evm_nativeToken entity).
Definition substrateOver (r : GithubEvmNetwork) (substrateChain : Chain)
    (entity : EvmNetwork) : EvmNetwork :=
  mkEvmNetwork (evm_id entity) (chain_isTestnet substrateChain) (evm_sortIndex entity)
    (string_or (gn_name r) (chain_name substrateChain)) (gn_explorerUrl r) (feedRpcs r)
    (evm_isHealthy entity) (Some (chain_id substrateChain))
    (chain_nativeToken substrateChain).

Definition standaloneRecords (shared : SharedData) : list GithubEvmNetwork :=
  filter (λ r, Is_true (isStandaloneRecord r)) (githubEvmNetworks shared).
Definition substrateRecords (shared : SharedData) : list GithubEvmNetwork :=
  filter (λ r, Is_true (isSubstrateRecord r)) (githubEvmNetworks shared).

(** The standalone records of the feed have distinct names and the
    substrate records distinct chains. *)
Definition evmFeedDistinct (shared : SharedData) : Prop :=
  NoDup (gn_name <$> standaloneRecords shared)
  ∧ NoDup (gn_substrateChainId <$> substrateRecords shared).

(** The networks the step saves from store [st] have distinct ids, none
    of them linked to a chain under the name of a standalone record, and
    none of another kind than the network the store has under its id. *)
Definition evmUpdatesSettled (h : Helpers) (up : Upstream) (shared : SharedData)
    (st : Store) : Prop :=
  NoDup (evmKey <$> evmNetworkUpdates h up shared st)
  ∧ Forall (λ u,
      (Is_true (isSubstrateEntity u) → evm_name u ∉ gn_name <$> standaloneRecords shared)
      ∧ match evmNetworks st !! evmKey u with
        | Some old => isStandaloneEntity u = isStandaloneEntity old
        | None => True
        end)
      (evmNetworkUpdates h up shared st).

(** Every record with a paraId resolves its relay, at its turn in the
    loop over [feed] from store [st], as it would among the chains of
    the whole feed. *)
Definition relaysKnown (feed : list GithubChain) (st : Store) : Prop :=
  ∀ pre g post, feed = pre ++ g :: post →
    truthy_number (gc_paraId g) = true →
    relayResolved (dom (chains st) ∪ feedChainIds pre) g
    = relayResolved (feedChainIds feed) g.

(** The store after the first two, three and four steps of a run. *)
Definition afterTasks (h : Helpers) (up : Upstream) (st : Store) : Store :=
  updateChainData h up (updateChainsFromGithub (fetchDataFromGithub up) st).
Definition afterNetworks (h : Helpers) (up : Upstream) (st : Store) : Store :=
  updateEvmNetworksFromGithub h up (fetchDataFromGithub up) (afterTasks h up st).
Definition afterSort (h : Helpers) (up : Upstream) (st : Store) : Store :=
  updateSortIndexes h (afterNetworks h up st).

(** ** Rows of the token table *)

(** What a step writes into a token: for each field that the steps set,
    the value written, if the step writes the field. *)
Record Patch := mkPatch {
  p_symbol : option (option string);
  p_decimals : option (option Z);
  p_coingeckoId : option (option string);
  p_existentialDeposit : option (option Z);
  p_stateKey : option (option string);
  p_contractAddress : option (option string);
  p_chain : option (option string);
  p_evmNetwork : option (option string)
}.

Definition applyPatch (p : Patch) (t : Token) : Token :=
  mkToken (token_id t) (token_isTypeOf t) (token_isTestnet t)
    (default (token_symbol t) (p_symbol p))
    (default (token_decimals t) (p_decimals p))
    (default (token_coingeckoId t) (p_coingeckoId p))
    (token_rates t)
    (default (token_existentialDeposit t) (p_existentialDeposit p))
    (default (token_stateKey t) (p_stateKey p))
    (default (token_contractAddress t) (p_contractAddress p))
    (default (token_chain t) (p_chain p))
    (default (token_evmNetwork t) (p_evmNetwork p)).

Definition emptyPatch : Patch := mkPatch None None None None None None None None.

(** The later patch over the earlier one. *)
Definition overPatch (q p : Patch) : Patch :=
  mkPatch
    (from_option Some (p_symbol p) (p_symbol q))
    (from_option Some (p_decimals p) (p_decimals q))
    (from_option Some (p_coingeckoId p) (p_coingeckoId q))
    (from_option Some (p_existentialDeposit p) (p_existentialDeposit q))
    (from_option Some (p_stateKey p) (p_stateKey q))
    (from_option Some (p_contractAddress p) (p_contractAddress q))
    (from_option Some (p_chain p) (p_chain q))
    (from_option Some (p_evmNetwork p) (p_evmNetwork q)).

(** The patches of the steps. *)
Definition ormlPatch (symbol : string) (decimals : option Z) (stateKey chainId : string)
    : Patch :=
  mkPatch (Some (Some symbol)) (Some decimals) None None (Some (Some stateKey)) None
    (Some (Some chainId)) None.
Definition nativePatch (symbol : option string) (decimals existentialDeposit : option Z)
    : Patch :=
  mkPatch (Some symbol) (Some decimals) None (Some existentialDeposit) None None None None.
Definition evmNativePatch (symbol : string) (decimals : Z) : Patch :=
  mkPatch (Some (Some symbol)) (Some (Some decimals)) None None None None None None.
Definition renamePatch (r : GithubToken) : Patch :=
  mkPatch (if truthy_string (gt_symbol r) then Some (gt_symbol r) else None) None
    (if truthy_string (gt_coingeckoId r) then Some (gt_coingeckoId r) else None)
    None None None None None.
Definition erc20Patch (erc20 : GithubToken) (evmNetwork : EvmNetwork) : Patch :=
  mkPatch (Some (gt_symbol erc20)) (Some (gt_decimals erc20)) (Some (gt_coingeckoId erc20))
    None None (Some (gt_contractAddress erc20)) None (Some (evm_id evmNetwork)).

(** A patch that writes the symbol and the coingecko id at most. *)
Definition renameOnly (p : Patch) : Prop :=
  p_decimals p = None ∧ p_existentialDeposit p = None ∧ p_stateKey p = None
  ∧ p_contractAddress p = None ∧ p_chain p = None ∧ p_evmNetwork p = None.

(** Two tokens that differ in the testnet flag and the rates at most. *)
Definition sim (t t' : Token) : Prop :=
  token_id t = token_id t' ∧ token_isTypeOf t = token_isTypeOf t'
  ∧ token_symbol t = token_symbol t' ∧ token_decimals t = token_decimals t'
  ∧ token_coingeckoId t = token_coingeckoId t'
  ∧ token_existentialDeposit t = token_existentialDeposit t'
  ∧ token_stateKey t = token_stateKey t'
  ∧ token_contractAddress t = token_contractAddress t'
  ∧ token_chain t = token_chain t' ∧ token_evmNetwork t = token_evmNetwork t'.

(** What the removals look at: the variant, and the chain of an orml
    token. *)
Definition cls (t : Token) : TokenKind * option string :=
  (token_isTypeOf t,
   match token_isTypeOf t with OrmlToken => token_chain t | _ => None end).

(** [getOrCreateToken] on the row of the id. *)
Definition gocRow (kind : TokenKind) (id : string) (x : option Token) : Token :=
  match x with
  | Some t => if decide (token_isTypeOf t = kind) then t else newToken kind id
  | None => newToken kind id
  end.

(** What a save after [getOrCreateToken] and what a removal do to the
    row of an id. *)
Definition makeRow (kind : TokenKind) (p : Patch) (id : string) (x : option Token)
    : option Token :=
  Some (applyPatch p (gocRow kind id x)).
Definition killRow (P : Token → bool) (x : option Token) : option Token :=
  match x with
  | Some t => if P t then None else Some t
  | None => None
  end.

Definition isOrmlOf (chainId : string) (t : Token) : bool :=
  bool_decide (token_isTypeOf t = OrmlToken) && bool_decide (token_chain t = Some chainId).
Definition isErc20Row (t : Token) : bool := bool_decide (token_isTypeOf t = Erc20Token).

(** The shape of what a sequence of saves and removals does to a row: a
    row that is accepted is patched, any other is replaced by [dflt]. *)
Definition rowShape (f : option Token → option Token) (acc : Token → bool) (p : Patch)
    (dflt : option Token) : Prop :=
  ∀ x, f x = match x with
             | Some t => if acc t then Some (applyPatch p t) else dflt
             | None => dflt
             end.

(** The rows a sequence of steps leaves are kept by the same steps, up
    to the testnet flag and the rates. *)
Definition settling (f : option Token → option Token) : Prop :=
  ∃ acc p dflt, rowShape f acc p dflt
    ∧ (∀ t t', acc t = true → sim t' (applyPatch p t) → acc t' = true)
    ∧ (∀ d0, dflt = Some d0 → sim (applyPatch p d0) d0).

(** The same with what the steps over the chains with ids [K] need to
    go on. *)
Definition rowInv (strict : bool) (K : list string) (f : option Token → option Token)
    : Prop :=
  ∃ acc p dflt, rowShape f acc p dflt
    ∧ (∀ t t', cls t = cls t' → acc t = acc t')
    ∧ (∀ t, acc t = true → acc (applyPatch p t) = true)
    ∧ match dflt with
      | None => renameOnly p ∧ (strict = true → p = emptyPatch)
      | Some d0 =>
          sim (applyPatch p d0) d0
          ∧ (∀ t, acc t = true → cls (applyPatch p t) = cls d0)
          ∧ (token_isTypeOf d0 = OrmlToken → ∃ c, c ∈ K ∧ token_chain d0 = Some c)
          ∧ token_isTypeOf d0 ≠ Erc20Token
      end
    ∧ ((∀ t, acc t = false)
       ∨ (∀ t, acc t = false →
            (token_isTypeOf t = OrmlToken ∧ ∃ c, c ∈ K ∧ token_chain t = Some c)
            ∨ (∃ d0, dflt = Some d0 ∧ token_isTypeOf t ≠ token_isTypeOf d0))).

(** The loop of [tokenLoop] and the removal that follows it, on the row
    of [k]. *)
Definition loopRow {S : Type} (idOf : S → option string) (kind : TokenKind)
    (patch : S → Patch) (k : string) (l : list S) (x : option Token) : option Token :=
  foldl (λ x s, if decide (idOf s = Some k) then makeRow kind (patch s) k x else x) x l.

Definition reconcileRow {S : Type} (idOf : S → option string) (kind : TokenKind)
    (patch : S → Patch) (P : Token → bool) (k : string) (l : list S) (x : option Token)
    : option Token :=
  if decide (Some k ∈ idOf <$> l) then loopRow idOf kind patch k l x else killRow P x.

Definition ormlEntryPatch (chainId : string) (tokenDecimals : JsDecimals)
    (tokenStateKeys : gmap string string) (entry : nat * string) : Patch :=
  ormlPatch entry.2 (default None (decimalsAt tokenDecimals entry.1))
    (default "" (tokenStateKeys !! entry.2)) chainId.

Definition erc20RecordPatch (nets : gmap string EvmNetwork) (erc20 : GithubToken) : Patch :=
  match nets !! default "" (gt_evmNetworkId erc20) with
  | Some evmNetwork => erc20Patch erc20 evmNetwork
  | None => emptyPatch
  end.

(** What the task of a chain that ends on [data] does to the row of [k]. *)
Definition dRow (h : Helpers) (chainId : string) (data : RpcData) (k : string)
    (x : option Token) : option Token :=
  match tokenSymbolVariants data with
  | None => x
  | Some variants =>
      let tokenSymbol := chosenSymbols h chainId data in
      let tokenDecimals := chosenDecimals h chainId data in
      let tokenStateKeys := chosenStateKeys h chainId data variants in
      let x :=
        reconcileRow (ormlIdOf h chainId tokenStateKeys) OrmlToken
          (ormlEntryPatch chainId tokenDecimals tokenStateKeys) (isOrmlOf chainId) k
          (symbolEntries tokenSymbol) x in
      if decide (hp_nativeTokenId h chainId (nativeSymbol tokenSymbol) = k)
      then makeRow NativeToken
             (nativePatch (nativeSymbol tokenSymbol) (nativeDecimals tokenDecimals)
                (rd_existentialDeposit data)) k x
      else x
  end.

Definition dRowOf (h : Helpers) (up : Upstream) (k : string) (x : option Token)
    (chain : Chain) : option Token :=
  match extractedData h up chain with
  | Some data => dRow h (chain_id chain) data k x
  | None => x
  end.

(** What the network step does to the row of [k] for a network it
    saves. *)
Definition uRow (shared : SharedData) (k : string) (x : option Token) (u : EvmNetwork)
    : option Token :=
  if isStandaloneEntity u && bool_decide (evm_nativeToken u = Some k)
  then makeRow NativeToken
         (evmNativePatch (nativeSymbolOf (githubNetworkOf shared u))
            (nativeDecimalsOf (githubNetworkOf shared u))) k x
  else x.

(** What a rename record does to the row of [k]. *)
Definition renameRow (k : string) (x : option Token) (r : GithubToken) : option Token :=
  if decide (default "" (gt_id r) = k) then applyPatch (renamePatch r) <$> x else x.

(** What the last two steps make of a token, given the chains and the
    networks of [st]. *)
Definition settleToken (up : Upstream) (st : Store) (t : Token) : Token :=
  refreshRates (up_coingeckoPrices up) (set_token_isTestnet (isTestnetToken st t) t).

Definition renameRecords (shared : SharedData) : list GithubToken :=
  filter (λ t, Is_true (isRenameOrCoingeckoId t)) (githubTokens shared).

(** What the steps up to [updateTokensFromGithub] do to the row of [k],
    given the chains the tasks run for, the networks the network step
    saves and the networks the erc20 records are resolved in. *)
Definition pipelineRow (h : Helpers) (up : Upstream) (chains : list Chain)
    (updates : list EvmNetwork) (nets : gmap string EvmNetwork) (k : string)
    (x : option Token) : option Token :=
  let shared := fetchDataFromGithub up in
  reconcileRow (erc20IdOf h nets) Erc20Token (erc20RecordPatch nets) isErc20Row k
    (erc20Records shared)
    (foldl (renameRow k)
       (foldl (uRow shared k) (foldl (dRowOf h up k) x chains) updates)
       (renameRecords shared)).

(** ** Notions for the fate of a token row *)

(** A row that is not an erc20 token, and not an orml token of one of
    the chains [l], is still there after the tasks of these chains. *)
Definition outlives (l : list string) (x : option Token) : Prop :=
  ∃ t, x = Some t ∧ token_isTypeOf t ≠ Erc20Token
    ∧ (token_isTypeOf t = OrmlToken → ∀ c, c ∈ l → token_chain t ≠ Some c).

(** What a sequence of rename records may have made of the token [t]:
    everything but the symbol and the coingecko id is as in [t], and
    each of the two is as in [t] or the non-empty value of a record of
    the feed for the id [k]. *)
Definition renamedFrom (shared : SharedData) (k : string) (t t' : Token) : Prop :=
  t' = mkToken (token_id t) (token_isTypeOf t) (token_isTestnet t) (token_symbol t')
         (token_decimals t) (token_coingeckoId t') (token_rates t)
         (token_existentialDeposit t) (token_stateKey t) (token_contractAddress t)
         (token_chain t) (token_evmNetwork t)
  ∧ (token_symbol t' = token_symbol t
     ∨ ∃ r symbol, r ∈ githubTokens shared ∧ gt_id r = Some k
         ∧ gt_symbol r = Some symbol ∧ symbol ≠ "" ∧ token_symbol t' = Some symbol)
  ∧ (token_coingeckoId t' = token_coingeckoId t
     ∨ ∃ r coingeckoId, r ∈ githubTokens shared ∧ gt_id r = Some k
         ∧ gt_coingeckoId r = Some coingeckoId ∧ coingeckoId ≠ ""
         ∧ token_coingeckoId t' = Some coingeckoId).

(** ** Sample inputs

    Concrete helpers, feeds and stores on which the statements below are
    exercised. *)
Module Sample.

Definition helpers : Helpers :=
  mkHelpers
    (λ id symbol, id +:+ "-native-" +:+ default "undefined" symbol)
    (λ chainId symbol, chainId +:+ "-orml-" +:+ symbol)
    (λ id address, id +:+ "-erc20-" +:+ default "undefined" address)
    (λ _, None)
    (λ bytes, pretty (foldl (λ acc b, acc * 256 + b) 0 bytes))
    (λ chains evmNetworks, map inl chains ++ map inr evmNetworks).

Definition emptyStore : Store := mkStore ∅ ∅ ∅.

Definition noRpcData : string → nat → string → option RpcData := λ _ _ _, None.

(** A relay chain and one of its parachains. *)
Definition relayChain : GithubChain :=
  mkGithubChain "polkadot" None (Some "Polkadot") None None
    (Some ["wss://a"; "wss://b"; "wss://c"]) None None.
Definition paraChain : GithubChain :=
  mkGithubChain "acala" None (Some "Acala") None None (Some ["wss://acala"])
    (Some 2000) (Some "polkadot").

Definition relayFirst : SharedData := mkSharedData [relayChain; paraChain] [] [].
Definition paraFirst : SharedData := mkSharedData [paraChain; relayChain] [] [].

(** Every rpc answers the health check, every extraction attempt fails. *)
Definition upAllFail : Upstream :=
  mkUpstream [relayChain] [] [] [] (λ _ _, true) noRpcData (λ _, EthError) ∅.

Definition polkadot : Chain :=
  upsertChain emptyStore relayChain.

Definition dotToken : Token :=
  mkToken "polkadot-orml-DOT" OrmlToken false (Some "DOT") (Some 10) (Some "polkadot")
    None None (Some "0x00") None (Some "polkadot") None.

Definition storeWithDot : Store :=
  mkStore {[ "polkadot" := polkadot ]} ∅ {[ "polkadot-orml-DOT" := dotToken ]}.

(** Three rpcs of one network: the first is down, the second reports
    chain id 5, the third answers validly with chain id 7. *)
Definition ethReplies (url : string) : EthResponse :=
  if decide (url = "https://two") then EthReply 200 (Some 5)
  else if decide (url = "https://three") then EthReply 200 (Some 7)
  else if decide (url = "https://moon") then EthReply 200 (Some 1284)
  else EthError.

Definition upEth : Upstream :=
  mkUpstream [] [] [] [] (λ _ _, false) noRpcData ethReplies ∅.




Definition ethereumRecord : GithubEvmNetwork :=
  mkGithubEvmNetwork (Some "Ethereum") None None (Some "https://etherscan.io")
    (Some ["https://one"]) None None.


Definition goerliRecord : GithubEvmNetwork :=
  mkGithubEvmNetwork (Some "Goerli") None (Some true) None
    (Some ["https://one"; "https://two"; "https://three"]) None None.


(** A substrate-linked record that names its network. *)
Definition moonbeam : Chain :=
  mkChain "moonbeam" true None None None (Some "Moonbeam") None None None None
    (Some "moonbeam-native-GLMR") None None None [] true None None.

Definition storeWithMoonbeam : Store :=
  mkStore {[ "moonbeam" := moonbeam ]} ∅ ∅.

Definition moonbeamRecord : GithubEvmNetwork :=
  mkGithubEvmNetwork (Some "Moonbeam EVM") (Some "moonbeam") (Some false) None
    (Some ["https://moon"]) None None.

Definition sharedMoonbeam : SharedData := mkSharedData [] [moonbeamRecord] [].

(** A token that is native to a testnet and to a live chain, and a token
    no chain refers to. *)
Definition chainA : Chain :=
  mkChain "A" true None None None None None None None None (Some "T") None None None []
    true None None.
Definition chainB : Chain :=
  mkChain "B" false None None None None None None None None (Some "T") None None None []
    true None None.
Definition tokenT : Token :=
  mkToken "T" NativeToken true (Some "T") (Some 12) (Some "t-coin")
    (Some {[ "usd" := Q2Qc (1 # 2) ]}) None None None None None.
Definition tokenO : Token :=
  mkToken "O" NativeToken false (Some "O") (Some 12) (Some "o-coin")
    (Some {[ "usd" := Q2Qc (3 # 1) ]}) None None None None None.

Definition storeAB : Store :=
  mkStore {[ "A" := chainA; "B" := chainB ]} ∅ {[ "T" := tokenT; "O" := tokenO ]}.

(** The feed quotes [o-coin] only. *)
Definition upPrices : Upstream :=
  mkUpstream [] [] [] [] (λ _ _, false) noRpcData (λ _, EthError)
    {[ "o-coin" := {[ "usd" := Q2Qc (7 # 1); "gbp" := Q2Qc (5 # 1) ]} ]}.

Definition storeQuoted : Store :=
  mkStore ∅ ∅
    {[ "T" := set_token_isTestnet false tokenT; "O" := tokenO ]}.

(** A whole run: a relay chain whose extraction fails, a parachain that
    reports two tokens, a standalone network, a standalone network whose
    rpc is down, a network linked to the parachain, a rename record and
    an erc20 record. *)
Definition rankOf (ids : list string) (offset : nat) (id : string) : option Z :=
  (λ p, Z.of_nat (offset + p.1)) <$> list_find (λ x, x = id) ids.

Definition sortingHelpers : Helpers :=
  mkHelpers
    (λ id symbol, id +:+ "-native-" +:+ default "undefined" symbol)
    (λ chainId symbol, chainId +:+ "-orml-" +:+ symbol)
    (λ id address, id +:+ "-erc20-" +:+ default "undefined" address)
    (λ _, None)
    (λ bytes, pretty (foldl (λ acc b, acc * 256 + b) 0 bytes))
    (λ chains evmNetworks,
       map (λ c, inl (set_chain_sortIndex
                        (rankOf (chain_id <$> chains) 0 (chain_id c)) c)) chains
       ++ map (λ n, inr (set_evm_sortIndex
                           (rankOf (evmKey <$> evmNetworks) (length chains) (evmKey n)) n))
            evmNetworks).

Definition acalaData : RpcData :=
  mkRpcData (Some "0xfc41") (Some "acala") (Some "2000") (Some "acala") (Some "Acala")
    (Some 10) (DecArray [12; 12]) (SymArray ["ACA"; "AUSD"]) (Some 10)
    [mkPortableType ["acala_primitives"; "currency"; "TokenSymbol"]
       (DefVariant [("ACA", 0); ("AUSD", 1)]);
     mkPortableType ["acala_primitives"; "currency"; "CurrencyId"]
       (DefVariant [("Token", 0)])]
    (Some 100000000000).

Definition acalaEvmRecord : GithubEvmNetwork :=
  mkGithubEvmNetwork None (Some "acala") None None (Some ["https://moon"]) None None.

Definition renameEth : GithubToken :=
  mkGithubToken (Some "5-native-ETH") None None (Some "ethereum") None None.
Definition usdcRecord : GithubToken :=
  mkGithubToken None (Some "USDC") (Some 6) (Some "usd-coin") (Some "0xa0b8") (Some "5").

Definition upWhole : Upstream :=
  mkUpstream [relayChain; paraChain] [] [goerliRecord; ethereumRecord; acalaEvmRecord]
    [renameEth; usdcRecord] (λ _ _, true)
    (λ chainId _ _, if decide (chainId = "acala") then Some acalaData else None)
    ethReplies
    {[ "ethereum" := {[ "usd" := Q2Qc (2000 # 1) ]} ]}.

(** The feed lists the parachain before its relay. *)
Definition upParaFirst : Upstream :=
  mkUpstream [paraChain; relayChain] [] [] [] (λ _ _, false) noRpcData (λ _, EthError) ∅.

(** An erc20 token of a network that no feed lists any more. *)
Definition staleErc20 : Token :=
  mkToken "9-erc20-0xdead" Erc20Token false (Some "OLD") (Some 18) None None None None
    (Some "0xdead") None (Some "9").

Definition storeStale : Store :=
  mkStore {[ "polkadot" := polkadot ]} ∅
    {[ "polkadot-orml-DOT" := dotToken; "9-erc20-0xdead" := staleErc20 ]}.

(** A chain that both feeds list. *)
Definition westend : GithubChain :=
  mkGithubChain "westend" (Some false) (Some "Westend") None None (Some ["wss://westend"])
    None None.

Definition upTestnets : Upstream :=
  mkUpstream [westend; relayChain] [westend] [] [] (λ _ _, false) noRpcData (λ _, EthError) ∅.

(** The feed of a chain that is persisted with what an extraction left. *)
Definition moonbeamChainRecord : GithubChain :=
  mkGithubChain "moonbeam" None (Some "Moonbeam Network") None None
    (Some ["wss://moonbeam"]) None None.

Definition sharedMoonbeamChain : SharedData := mkSharedData [moonbeamChainRecord] [] [].

(** Records that rename the token [T]; the second has an empty symbol. *)
Definition renameT : GithubToken :=
  mkGithubToken (Some "T") (Some "TT") None None None None.
Definition renameTempty : GithubToken :=
  mkGithubToken (Some "T") (Some "") None (Some "t-coin-2") None None.

Definition sharedRenames : SharedData := mkSharedData [] [] [renameT; renameTempty].

(** A record of the network feed without a name and without a chain. *)
Definition namelessRecord : GithubEvmNetwork :=
  mkGithubEvmNetwork None None None None (Some ["https://two"]) None None.

End Sample.

Section tables.
Context {E : Type}.
Implicit Types (m : gmap string E) (x : E) (k : string).

Lemma elem_of_find m x : x ∈ find m ↔ ∃ k, m !! k = Some x.
Proof.
  unfold find. rewrite list_elem_of_omap. split.
  - intros (k & _ & Hk). eauto.
  - intros (k & Hk). exists k. split; [|done].
    apply elem_of_elements, elem_of_dom. eauto.
Qed.

Lemma omap_lookup_keys (f : E → string) m (ks : list string) :
  (∀ k x, m !! k = Some x → f x = k) →
  (∀ k, k ∈ ks → is_Some (m !! k)) →
  f <$> omap (λ k, m !! k) ks = ks.
Proof.
  intros Hf. induction ks as [|k ks IH]; intros Hks; [done|].
  destruct (Hks k) as [x Hx]; [left|].
  cbn. rewrite Hx. cbn. rewrite (Hf _ _ Hx). f_equal.
  apply IH. intros k' Hk'. apply Hks. by right.
Qed.

Lemma find_keys (f : E → string) m :
  (∀ k x, m !! k = Some x → f x = k) → f <$> find m = elements (dom m).
Proof.
  intros Hf. apply omap_lookup_keys; [done|].
  intros k Hk. by apply elem_of_dom, elem_of_elements.
Qed.

Lemma fromEntries_snoc (l : list (string * E)) kv :
  fromEntries (l ++ [kv]) = <[kv.1 := kv.2]> (fromEntries l).
Proof. unfold fromEntries. by rewrite foldl_snoc. Qed.

Lemma fromEntries_keyed_lookup (f : E → string) (l : list E) k x :
  NoDup (f <$> l) →
  fromEntries (map (λ y, (f y, y)) l) !! k = Some x ↔ x ∈ l ∧ f x = k.
Proof.
  induction l as [|y l IH] using rev_ind; intros Hnd.
  - cbn. rewrite lookup_empty. split; [done|]. intros [H _]. by apply elem_of_nil in H.
  - rewrite map_app. cbn [map]. rewrite fromEntries_snoc. cbn.
    rewrite fmap_app in Hnd. apply NoDup_app in Hnd as (Hnd & Hdis & _).
    destruct (decide (f y = k)) as [<-|Hne].
    + rewrite lookup_insert_eq. split.
      * intros [= <-]. split; [|done]. apply elem_of_app. right. by left.
      * intros [Hin Hfx]. apply elem_of_app in Hin as [Hin|Hin].
        -- exfalso. apply (Hdis (f x)); [by apply list_elem_of_fmap_2|].
           rewrite Hfx. by left.
        -- apply list_elem_of_singleton in Hin. by subst.
    + rewrite lookup_insert_ne by done. rewrite IH by done. split.
      * intros [Hin Hfx]. split; [|done]. apply elem_of_app. by left.
      * intros [Hin Hfx]. split; [|done]. apply elem_of_app in Hin as [Hin|Hin]; [done|].
        apply list_elem_of_singleton in Hin. by subst.
Qed.

Lemma NoDup_find_keys (f : E → string) m :
  (∀ k x, m !! k = Some x → f x = k) → NoDup (f <$> find m).
Proof. intros Hf. rewrite (find_keys f m Hf). apply NoDup_elements. Qed.

Lemma fromEntries_find (f : E → string) m :
  (∀ k x, m !! k = Some x → f x = k) →
  fromEntries (map (λ y, (f y, y)) (find m)) = m.
Proof.
  intros Hf. apply map_eq. intros k. apply option_eq. intros x.
  rewrite fromEntries_keyed_lookup by by apply NoDup_find_keys.
  rewrite elem_of_find. split.
  - intros [(k' & Hk') Hfx]. by rewrite <- Hfx, (Hf _ _ Hk').
  - intros Hk. split; [eauto|]. by apply Hf.
Qed.

Lemma fromEntries_find_filter (f : E → string) (P : E → Prop) `{!∀ x, Decision (P x)} m :
  (∀ k x, m !! k = Some x → f x = k) →
  fromEntries (map (λ y, (f y, y)) (filter P (find m))) = filter (λ kv, P kv.2) m.
Proof.
  intros Hf. apply map_eq. intros k. apply option_eq. intros x.
  rewrite fromEntries_keyed_lookup.
  - rewrite list_elem_of_filter, elem_of_find, map_lookup_filter_Some. cbn. split.
    + intros [[HP (k' & Hk')] Hfx]. by rewrite <- Hfx, (Hf _ _ Hk').
    + intros [Hk HP]. split; [eauto|]. by apply Hf.
  - apply (sublist_NoDup _ (f <$> find m)); [by apply NoDup_find_keys|].
    apply fmap_sublist, sublist_filter.
Qed.

Lemma lookup_deleteIds (ids : gset string) m k :
  deleteIds ids m !! k = if decide (k ∈ ids) then None else m !! k.
Proof.
  unfold deleteIds. destruct (decide (k ∈ ids)) as [Hin|Hnin].
  - apply map_lookup_filter_None. right. intros x _. cbn. tauto.
  - apply option_eq. intros x. rewrite map_lookup_filter_Some. cbn. tauto.
Qed.

Lemma deleteIds_empty m : deleteIds ∅ m = m.
Proof. apply map_eq. intros k. rewrite lookup_deleteIds. by rewrite decide_False by set_solver. Qed.
End tables.

(** ** updateChainsFromGithub *)

Lemma upsertChain_id st g :
  wf_chains (chains st) → chain_id (upsertChain st g) = gc_id g.
Proof.
  intros Hwf. unfold upsertChain, getOrCreateChain. cbn.
  destruct (chains st !! gc_id g) as [c|] eqn:Hc; cbn; [|done].
  by apply (Hwf _ _ Hc).
Qed.

Lemma saveChain_wf c st :
  wf_chains (chains st) → wf_chains (chains (saveChain c st)).
Proof. intros Hwf. cbn. by apply map_Forall_insert_2. Qed.

Lemma chainsLoop_spec gcs st del :
  wf_chains (chains st) →
  let r := foldl chainsLoopBody (st, del) gcs in
  wf_chains (chains r.1) ∧ r.2 = del ∖ feedChainIds gcs
  ∧ dom (chains r.1) = dom (chains st) ∪ feedChainIds gcs
  ∧ evmNetworks r.1 = evmNetworks st ∧ tokens r.1 = tokens st.
Proof.
  revert st del. induction gcs as [|g gcs IH]; intros st del Hwf; cbn [foldl].
  - unfold feedChainIds. cbn. repeat split; [done| |]; set_solver.
  - cbn [chainsLoopBody].
    specialize (IH (saveChain (upsertChain st g) st) (del ∖ {[gc_id g]})
                  (saveChain_wf _ _ Hwf)).
    destruct IH as (H1 & H2 & H3 & H4 & H5).
    repeat split; [done| | |done|done].
    + rewrite H2. unfold feedChainIds. cbn. set_solver.
    + rewrite H3. unfold saveChain, set_chains. cbn [chains].
      rewrite dom_insert_L, upsertChain_id by done.
      unfold feedChainIds. cbn. set_solver.
Qed.

Lemma set_chains_id st : set_chains (λ m, m) st = st.
Proof. by destruct st. Qed.

Lemma chainsLoop_snoc gcs g st :
  chainsLoop (gcs ++ [g]) st = chainsLoopBody (chainsLoop gcs st) g.
Proof. unfold chainsLoop. by rewrite foldl_snoc. Qed.

Lemma updateChainsFromGithub_eq shared st :
  updateChainsFromGithub shared st
  = set_chains (deleteIds (chainsLoop (githubChains shared) st).2)
      (chainsLoop (githubChains shared) st).1.
Proof.
  unfold updateChainsFromGithub. fold (chainsLoop (githubChains shared) st).
  destruct (chainsLoop (githubChains shared) st) as [st' del]. cbn [fst snd].
  case_bool_decide as Hsz; [done|].
  assert (del = ∅) as ->.
  { apply leibniz_equiv, size_empty_iff. lia. }
  unfold set_chains. destruct st'. cbn. by rewrite deleteIds_empty.
Qed.

Lemma chainsLoop_wf gcs st :
  wf_chains (chains st) → wf_chains (chains (chainsLoop gcs st).1).
Proof. intros Hwf. apply (chainsLoop_spec gcs st (dom (chains st)) Hwf). Qed.

Lemma chainsLoop_lookup_last pre g post st :
  wf_chains (chains st) →
  gc_id g ∉ feedChainIds post →
  chains (chainsLoop (pre ++ g :: post) st).1 !! gc_id g
  = Some (upsertChain (chainsLoop pre st).1 g).
Proof.
  intros Hwf. induction post as [|g' post IH] using rev_ind; intros Hnin.
  - rewrite chainsLoop_snoc. destruct (chainsLoop pre st) as [st' del] eqn:Hl.
    cbn. rewrite <- (upsertChain_id st' g) at 1; [by rewrite lookup_insert_eq|].
    pose proof (chainsLoop_wf pre st Hwf) as H. by rewrite Hl in H.
  - replace (pre ++ g :: post ++ [g']) with ((pre ++ g :: post) ++ [g'])
      by by rewrite <- app_assoc.
    rewrite chainsLoop_snoc.
    pose proof (chainsLoop_wf (pre ++ g :: post) st Hwf) as Hwf'.
    destruct (chainsLoop (pre ++ g :: post) st) as [st' del] eqn:Hl.
    cbn [fst snd] in *. unfold chainsLoopBody. cbn.
    unfold feedChainIds in Hnin. rewrite fmap_app, list_to_set_app_L in Hnin.
    cbn in Hnin.
    rewrite lookup_insert_ne.
    + apply IH. unfold feedChainIds. set_solver.
    + change (chain_id (getOrCreateChain st' (gc_id g')))
        with (chain_id (upsertChain st' g')).
      rewrite upsertChain_id by done. set_solver.
Qed.

Lemma updateChainsFromGithub_dom shared st :
  wf_chains (chains st) →
  dom (chains (updateChainsFromGithub shared st)) = feedChainIds (githubChains shared).
Proof.
  intros Hwf. rewrite updateChainsFromGithub_eq.
  destruct (chainsLoop_spec (githubChains shared) st (dom (chains st)) Hwf)
    as (_ & Hdel & Hdom & _).
  fold (chainsLoop (githubChains shared) st) in Hdel, Hdom.
  apply set_eq. intros k. rewrite elem_of_dom. cbn [chains set_chains].
  rewrite lookup_deleteIds, Hdel. case_decide as Hk.
  - split; [intros H; by apply is_Some_None in H|]. intros Hin. exfalso. set_solver.
  - rewrite <- elem_of_dom, Hdom. rewrite elem_of_union. rewrite elem_of_difference in Hk.
    destruct (decide (k ∈ feedChainIds (githubChains shared))); tauto.
Qed.

Lemma updateChainsFromGithub_lookup shared st k :
  wf_chains (chains st) →
  k ∈ feedChainIds (githubChains shared) →
  chains (updateChainsFromGithub shared st) !! k
  = chains (chainsLoop (githubChains shared) st).1 !! k.
Proof.
  intros Hwf Hk. rewrite updateChainsFromGithub_eq.
  destruct (chainsLoop_spec (githubChains shared) st (dom (chains st)) Hwf)
    as (_ & Hdel & _).
  fold (chainsLoop (githubChains shared) st) in Hdel.
  cbn [chains set_chains]. rewrite lookup_deleteIds, Hdel.
  rewrite decide_False; [done|set_solver].
Qed.

Lemma chainsLoop_Forall (P : Chain → Prop) gcs st :
  wf_chains (chains st) →
  (∀ st' g, P (upsertChain st' g)) →
  ∀ k c, k ∈ feedChainIds gcs → chains (chainsLoop gcs st).1 !! k = Some c → P c.
Proof.
  intros Hwf HP. induction gcs as [|g gcs IH] using rev_ind; intros k c Hk.
  - unfold feedChainIds in Hk. set_solver.
  - rewrite chainsLoop_snoc.
    pose proof (chainsLoop_wf gcs st Hwf) as Hwf'.
    destruct (chainsLoop gcs st) as [st' del] eqn:Hl. cbn [fst snd] in *.
    unfold chainsLoopBody. cbn [fst chains saveChain set_chains].
    rewrite upsertChain_id by done.
    destruct (decide (gc_id g = k)) as [->|Hne].
    + rewrite lookup_insert_eq. intros [= <-]. apply HP.
    + rewrite lookup_insert_ne by done. apply IH.
      unfold feedChainIds in *. rewrite fmap_app, list_to_set_app_L in Hk. set_solver.
Qed.

Lemma upsertChain_relay_paraId st g :
  is_Some (chain_relay (upsertChain st g)) ↔ is_Some (chain_paraId (upsertChain st g)).
Proof.
  unfold upsertChain. cbn.
  destruct (bool_decide _ && truthy_number _) eqn:Hb.
  - apply andb_true_iff in Hb as [Hr Hp]. apply bool_decide_eq_true in Hr.
    destruct Hr as [r ->]. destruct (gc_paraId g); [|done]. cbn. split; eauto.
  - split; by intros [].
Qed.

Lemma last_occurrence {A : Type} (f : A → string) (l : list A) k :
  k ∈ f <$> l → ∃ pre x post, l = pre ++ x :: post ∧ f x = k ∧ k ∉ f <$> post.
Proof.
  induction l as [|y l IH] using rev_ind.
  - intros H. by apply elem_of_nil in H.
  - rewrite fmap_app. cbn. intros Hk.
    destruct (decide (f y = k)) as [Hy|Hy].
    + exists l, y, []. split; [done|]. split; [done|]. cbn. apply not_elem_of_nil.
    + destruct IH as (pre & x & post & -> & Hx & Hpost); [set_solver|].
      exists pre, x, (post ++ [y]). split; [by rewrite <- app_assoc|].
      split; [done|]. rewrite fmap_app. cbn. set_solver.
Qed.

Lemma upsertChain_unresolved st g :
  (gc_relay g ≫= λ r, chains st !! r) = None ∨ gc_paraId g = None →
  chain_relay (upsertChain st g) = None ∧ chain_paraId (upsertChain st g) = None.
Proof.
  intros Hcase. unfold upsertChain. cbn.
  assert (bool_decide (is_Some (if truthy_string (gc_relay g)
                                then chains st !! default "" (gc_relay g) else None))
          && truthy_number (gc_paraId g) = false) as ->; [|done].
  destruct Hcase as [Hrelay| ->]; [|by rewrite andb_false_r].
  apply andb_false_iff. left. apply bool_decide_eq_false_2.
  destruct (gc_relay g) as [r|]; cbn in *; [|by intros [? ?]].
  case_bool_decide; cbn; [by intros [? ?]|]. rewrite Hrelay. by intros [? ?].
Qed.

(** The chains persisted by the step are the last-applied mappings of the
    feed's records. *)
Lemma updateChainsFromGithub_last shared st k c :
  wf_chains (chains st) →
  chains (updateChainsFromGithub shared st) !! k = Some c →
  ∃ pre g post, githubChains shared = pre ++ g :: post ∧ gc_id g = k
    ∧ k ∉ feedChainIds post
    ∧ c = upsertChain (chainsLoop pre st).1 g.
Proof.
  intros Hwf Hc.
  assert (k ∈ feedChainIds (githubChains shared)) as Hk.
  { rewrite <- (updateChainsFromGithub_dom shared st Hwf). apply elem_of_dom. eauto. }
  rewrite updateChainsFromGithub_lookup in Hc by done.
  unfold feedChainIds in Hk. rewrite elem_of_list_to_set in Hk.
  apply last_occurrence in Hk as (pre & g & post & Hsplit & Hg & Hpost).
  exists pre, g, post. split; [done|]. split; [done|].
  split; [unfold feedChainIds; by rewrite elem_of_list_to_set|].
  rewrite Hsplit, <- Hg in Hc. rewrite chainsLoop_lookup_last in Hc.
  - congruence.
  - done.
  - unfold feedChainIds. rewrite elem_of_list_to_set. by rewrite Hg.
Qed.

(** C4: after the chain step every persisted chain has its relay set
    exactly when its paraId is set; it is the mapping of a record of the
    feed, and when that record's relay does not resolve to a chain
    persisted at that point, or the record has no paraId, both fields are
    null. *)
Theorem relay_and_paraId_set_together shared st k c :
  wf_chains (chains st) →
  chains (updateChainsFromGithub shared st) !! k = Some c →
  (is_Some (chain_relay c) ↔ is_Some (chain_paraId c))
  ∧ ∃ pre g post, githubChains shared = pre ++ g :: post ∧ gc_id g = k
      ∧ c = upsertChain (chainsLoop pre st).1 g
      ∧ ((gc_relay g ≫= λ r, chains (chainsLoop pre st).1 !! r) = None
         ∨ gc_paraId g = None →
         chain_relay c = None ∧ chain_paraId c = None).
Proof.
  intros Hwf Hc.
  destruct (updateChainsFromGithub_last shared st k c Hwf Hc)
    as (pre & g & post & Hsplit & Hg & _ & ->).
  split; [apply upsertChain_relay_paraId|].
  exists pre, g, post. split; [done|]. split; [done|]. split; [done|].
  apply upsertChain_unresolved.
Qed.

(** ** Saving a list of rows *)

Section insertAll.
Context {E : Type} (key : E → string).
Local Abbreviation insertAll := (insertAll key).

Lemma insertAll_snoc l x m : insertAll (l ++ [x]) m = <[key x := x]> (insertAll l m).
Proof. unfold insertAll. by rewrite foldl_snoc. Qed.

Lemma insertAll_lookup_notin l m k :
  k ∉ key <$> l → insertAll l m !! k = m !! k.
Proof.
  induction l as [|x l IH] using rev_ind; intros Hk; [done|].
  rewrite insertAll_snoc. rewrite fmap_app in Hk. cbn in Hk.
  rewrite lookup_insert_ne by set_solver. apply IH. set_solver.
Qed.

Lemma insertAll_lookup_last pre x post m :
  key x ∉ key <$> post → insertAll (pre ++ x :: post) m !! key x = Some x.
Proof.
  intros Hk. unfold insertAll. rewrite foldl_app. cbn [foldl].
  fold (insertAll pre m).
  fold (insertAll post (<[key x:=x]> (insertAll pre m))).
  rewrite insertAll_lookup_notin by done. by rewrite lookup_insert_eq.
Qed.

Lemma insertAll_lookup_NoDup l m k x :
  NoDup (key <$> l) → x ∈ l → key x = k → insertAll l m !! k = Some x.
Proof.
  intros Hnd Hx <-. apply list_elem_of_split in Hx as (pre & post & ->).
  apply insertAll_lookup_last.
  rewrite fmap_app, fmap_cons in Hnd.
  apply NoDup_app in Hnd as (_ & _ & Hnd). by apply NoDup_cons in Hnd as [? _].
Qed.

Lemma insertAll_lookup_Some l m k x :
  insertAll l m !! k = Some x → (x ∈ l ∧ key x = k) ∨ (k ∉ key <$> l ∧ m !! k = Some x).
Proof.
  induction l as [|y l IH] using rev_ind.
  - intros H. right. split; [|done]. cbn. apply not_elem_of_nil.
  - rewrite insertAll_snoc. destruct (decide (key y = k)) as [<-|Hne].
    + rewrite lookup_insert_eq. intros [= <-]. left. split; [|done]. set_solver.
    + rewrite lookup_insert_ne by done. intros H. apply IH in H as [[H1 H2]|[H1 H2]].
      * left. split; [|done]. set_solver.
      * right. split; [|done]. rewrite fmap_app. cbn. set_solver.
Qed.

Lemma insertAll_lookup_Some_last l m k x :
  insertAll l m !! k = Some x →
  (∃ pre post, l = pre ++ x :: post ∧ key x = k ∧ k ∉ key <$> post)
  ∨ (k ∉ key <$> l ∧ m !! k = Some x).
Proof.
  induction l as [|y l IH] using rev_ind.
  - intros H. right. split; [|done]. cbn. apply not_elem_of_nil.
  - rewrite insertAll_snoc. destruct (decide (key y = k)) as [<-|Hne].
    + rewrite lookup_insert_eq. intros [= <-]. left. exists l, [].
      split; [done|]. split; [done|]. cbn. apply not_elem_of_nil.
    + rewrite lookup_insert_ne by done. intros H.
      apply IH in H as [(pre & post & -> & H1 & H2)|[H1 H2]].
      * left. exists pre, (post ++ [y]). split; [by rewrite <- app_assoc|].
        split; [done|]. rewrite fmap_app. cbn. set_solver.
      * right. split; [|done]. rewrite fmap_app. cbn. set_solver.
Qed.

Lemma insertAll_dom l m : dom (insertAll l m) = dom m ∪ list_to_set (key <$> l).
Proof.
  induction l as [|y l IH] using rev_ind; [cbn; set_solver|].
  rewrite insertAll_snoc, dom_insert_L, IH, fmap_app, list_to_set_app_L. cbn. set_solver.
Qed.

Lemma insertAll_wf l m :
  map_Forall (λ k x, key x = k) m → map_Forall (λ k x, key x = k) (insertAll l m).
Proof.
  intros Hm. induction l as [|y l IH] using rev_ind; [done|].
  rewrite insertAll_snoc. by apply map_Forall_insert_2.
Qed.

Lemma fmap_key_preserved (f : E → E) (l : list E) :
  (∀ x, key (f x) = key x) → key <$> map f l = key <$> l.
Proof. intros Hf. induction l as [|x l IH]; cbn; [done|]. by rewrite Hf, IH. Qed.

(** Rewriting every row of a table in place. *)
Lemma insertAll_find_fmap (f : E → E) m :
  map_Forall (λ k x, key x = k) m →
  (∀ x, key (f x) = key x) →
  insertAll (map f (find m)) m = f <$> m.
Proof.
  intros Hwf Hf. apply map_eq. intros k. rewrite lookup_fmap.
  destruct (m !! k) as [x|] eqn:Hk.
  - cbn. apply insertAll_lookup_NoDup.
    + rewrite fmap_key_preserved by done.
      apply NoDup_find_keys. apply Hwf.
    + apply list_elem_of_fmap_2. apply elem_of_find. eauto.
    + rewrite Hf. by apply (Hwf _ _ Hk).
  - cbn. rewrite insertAll_lookup_notin; [done|].
    rewrite fmap_key_preserved by done.
    rewrite (find_keys key m) by apply Hwf.
    rewrite elem_of_elements. by apply not_elem_of_dom.
Qed.
End insertAll.

Lemma saveTokens_eq l st :
  saveTokens l st = set_tokens (insertAll token_id l) st.
Proof.
  unfold saveTokens. revert st. induction l as [|t l IH]; intros st; cbn [foldl].
  - by destruct st.
  - rewrite IH. by destruct st.
Qed.

(** ** updateTokensTestnetField *)

Lemma updateTokensTestnetField_tokens st :
  wf_tokens (tokens st) →
  tokens (updateTokensTestnetField st)
  = (λ t, set_token_isTestnet (isTestnetToken st t) t) <$> tokens st.
Proof.
  intros Hwf. unfold updateTokensTestnetField. rewrite saveTokens_eq. cbn [tokens set_tokens].
  by apply (insertAll_find_fmap token_id).
Qed.

Lemma chainsMap_wf st : wf_chains (chains st) → chainsMap st = chains st.
Proof. intros Hwf. unfold chainsMap. by apply (fromEntries_find chain_id). Qed.

Lemma find_evm_keyed (m : gmap string EvmNetwork) :
  wf_evmNetworks m →
  omap (λ n, (λ id, (id, n)) <$> evm_id n) (find m)
  = map (λ n, (default "" (evm_id n), n)) (find m).
Proof.
  intros Hwf.
  assert (Forall (λ n, is_Some (evm_id n)) (find m)) as Hall.
  { apply Forall_forall. intros n (k & Hk)%elem_of_find. rewrite (Hwf _ _ Hk). eauto. }
  induction Hall as [|n l [i Hi] _ IH]; [done|].
  cbn. rewrite Hi. cbn. by rewrite <- IH.
Qed.

Lemma evmNetworksMap_wf st :
  wf_evmNetworks (evmNetworks st) → evmNetworksMap st = evmNetworks st.
Proof.
  intros Hwf. unfold evmNetworksMap. rewrite find_evm_keyed by done.
  apply (fromEntries_find (λ n, default "" (evm_id n))).
  intros k n Hk. by rewrite (Hwf _ _ Hk).
Qed.

Lemma forallb_id_true (l : list bool) :
  forallb (λ b, b) l = true ↔ ∀ b, b ∈ l → b = true.
Proof.
  rewrite forallb_forall. split; intros H b Hb; apply H; by apply list_elem_of_In.
Qed.

Lemma isTestnetToken_spec st t :
  wf_store st →
  isTestnetToken st t = true ↔
    (∀ i c, chains st !! i = Some c →
       token_chain t = Some i ∨ chain_nativeToken c = Some (token_id t) →
       chain_isTestnet c = true)
    ∧ (∀ i n, evmNetworks st !! i = Some n →
         token_evmNetwork t = Some i ∨ evm_nativeToken n = Some (token_id t) →
         evm_isTestnet n = true).
Proof.
  intros (Hc & Hn & _). unfold isTestnetToken, testnetFlags. cbn.
  rewrite chainsMap_wf, evmNetworksMap_wf by done.
  rewrite forallb_id_true. split.
  - intros H. split.
    + intros i c Hi Href. apply H. apply elem_of_app. left.
      apply list_elem_of_fmap_2. apply list_elem_of_omap. exists i. split; [|done].
      apply elem_of_app. destruct Href as [Href|Href].
      * left. rewrite Href. cbn. by left.
      * right. rewrite <- (Hc _ _ Hi). apply list_elem_of_fmap_2.
        apply list_elem_of_filter. split; [done|]. apply elem_of_find. eauto.
    + intros i n Hi Href. apply H. apply elem_of_app. right.
      apply list_elem_of_fmap_2. apply list_elem_of_omap. exists i. split; [|done].
      apply elem_of_app. destruct Href as [Href|Href].
      * left. rewrite Href. cbn. by left.
      * right. apply list_elem_of_omap. exists n. split; [|by apply Hn].
        apply list_elem_of_filter. split; [done|]. apply elem_of_find. eauto.
  - intros [H1 H2] b Hb. apply elem_of_app in Hb as [Hb|Hb].
    + apply list_elem_of_fmap in Hb as (c & -> & Hb).
      apply list_elem_of_omap in Hb as (i & Hi & Hic).
      apply (H1 i c Hic). apply elem_of_app in Hi as [Hi|Hi].
      * left. destruct (token_chain t); cbn in Hi; [|by apply elem_of_nil in Hi].
        apply list_elem_of_singleton in Hi. by subst.
      * right. apply list_elem_of_fmap in Hi as (c' & -> & Hc').
        apply list_elem_of_filter in Hc' as [Hnat (i' & Hi')%elem_of_find].
        rewrite (Hc _ _ Hi') in Hic. congruence.
    + apply list_elem_of_fmap in Hb as (n & -> & Hb).
      apply list_elem_of_omap in Hb as (i & Hi & Hin).
      apply (H2 i n Hin). apply elem_of_app in Hi as [Hi|Hi].
      * left. destruct (token_evmNetwork t); cbn in Hi; [|by apply elem_of_nil in Hi].
        apply list_elem_of_singleton in Hi. by subst.
      * right. apply list_elem_of_omap in Hi as (n' & Hn' & Hid).
        apply list_elem_of_filter in Hn' as [Hnat (i' & Hi')%elem_of_find].
        rewrite (Hn _ _ Hi') in Hid. injection Hid as <-. congruence.
Qed.

(** C5: after [updateTokensTestnetField] every token of the store is
    still there and the chains and networks are untouched; the token's
    testnet flag is true exactly when every chain that is its anchor or
    has it as native token, and every network that is its anchor or has
    it as native token, is a testnet. So a token that no chain and no
    network refers to is flagged a testnet, and a token referred to by a
    chain that is not a testnet is not. *)
Theorem token_testnet_is_and_of_referrers st k t :
  wf_store st →
  tokens st !! k = Some t →
  ∃ t', tokens (updateTokensTestnetField st) !! k = Some t'
    ∧ chains (updateTokensTestnetField st) = chains st
    ∧ evmNetworks (updateTokensTestnetField st) = evmNetworks st
    ∧ (token_isTestnet t' = true ↔
         (∀ i c, chains st !! i = Some c →
            token_chain t = Some i ∨ chain_nativeToken c = Some k →
            chain_isTestnet c = true)
         ∧ (∀ i n, evmNetworks st !! i = Some n →
              token_evmNetwork t = Some i ∨ evm_nativeToken n = Some k →
              evm_isTestnet n = true))
    ∧ ((∀ i c, chains st !! i = Some c →
          token_chain t ≠ Some i ∧ chain_nativeToken c ≠ Some k) →
       (∀ i n, evmNetworks st !! i = Some n →
          token_evmNetwork t ≠ Some i ∧ evm_nativeToken n ≠ Some k) →
       token_isTestnet t' = true)
    ∧ (∀ i c, chains st !! i = Some c →
         token_chain t = Some i ∨ chain_nativeToken c = Some k →
         chain_isTestnet c = false → token_isTestnet t' = false).
Proof.
  intros Hwf Ht. pose proof Hwf as (_ & _ & Hwt).
  pose proof (Hwt _ _ Ht) as Hid.
  exists (set_token_isTestnet (isTestnetToken st t) t).
  assert (token_isTestnet (set_token_isTestnet (isTestnetToken st t) t) = true ↔
    (∀ i c, chains st !! i = Some c →
       token_chain t = Some i ∨ chain_nativeToken c = Some k → chain_isTestnet c = true)
    ∧ (∀ i n, evmNetworks st !! i = Some n →
         token_evmNetwork t = Some i ∨ evm_nativeToken n = Some k → evm_isTestnet n = true))
    as Hiff.
  { cbn. rewrite isTestnetToken_spec by done. by rewrite Hid. }
  split; [|split; [|split; [|split; [done|split]]]].
  - rewrite updateTokensTestnetField_tokens by done. by rewrite lookup_fmap, Ht.
  - unfold updateTokensTestnetField. by rewrite saveTokens_eq.
  - unfold updateTokensTestnetField. by rewrite saveTokens_eq.
  - intros H1 H2. apply Hiff. split.
    + intros i c Hi Href. destruct (H1 i c Hi). tauto.
    + intros i n Hi Href. destruct (H2 i n Hi). tauto.
  - intros i c Hi Href Hfalse. apply not_true_is_false. intros Htrue.
    apply Hiff in Htrue as [H1 _]. rewrite (H1 i c Hi Href) in Hfalse. done.
Qed.

(** ** updateTokenRates *)


Lemma updateTokenRates_tokens up st :
  wf_tokens (tokens st) →
  tokens (updateTokenRates up st) = refreshRates (up_coingeckoPrices up) <$> tokens st.
Proof.
  intros Hwf. unfold updateTokenRates. rewrite saveTokens_eq. cbn [tokens set_tokens].
  apply (insertAll_find_fmap token_id); [done|].
  intros t. unfold refreshRates. cbn.
  repeat (case_match; try done).
Qed.


(** ** The probe of an EVM network *)

Lemma markDisagreeing_snoc networkId ids id rpcs :
  markDisagreeing networkId (ids ++ [id]) rpcs
  = if bool_decide (id = Some networkId) then markDisagreeing networkId ids rpcs
    else alter setUnhealthy (length ids) (markDisagreeing networkId ids rpcs).
Proof.
  unfold markDisagreeing. rewrite imap_app, foldl_app. cbn.
  by rewrite Nat.add_0_r.
Qed.

Lemma markDisagreeing_lookup networkId ids rpcs i :
  markDisagreeing networkId ids rpcs !! i
  = match ids !! i with
    | Some id => if bool_decide (id = Some networkId) then rpcs !! i
                 else setUnhealthy <$> rpcs !! i
    | None => rpcs !! i
    end.
Proof.
  induction ids as [|id ids IH] using rev_ind; [done|].
  rewrite markDisagreeing_snoc.
  destruct (decide (i = length ids)) as [->|Hne].
  - rewrite list_lookup_middle by done.
    rewrite (lookup_ge_None_2 ids (length ids)) in IH by lia.
    case_bool_decide; [done|].
    by rewrite list_lookup_alter_eq, IH.
  - assert ((ids ++ [id]) !! i = ids !! i) as ->.
    { destruct (decide (i < length ids)%nat).
      - by rewrite lookup_app_l.
      - rewrite !lookup_ge_None_2; [done|lia|rewrite length_app; cbn; lia]. }
    case_bool_decide; [done|].
    by rewrite list_lookup_alter_ne.
Qed.





(** ** The retry loop of updateChainData *)

Section retry.
Variable h : Helpers.

Lemma ormlLoop_thrown chainId tokenDecimals tokenStateKeys entries st deleted st' :
  ormlLoop h chainId tokenDecimals tokenStateKeys entries st deleted = Thrown st' →
  tokenDecimals = DecUndefined ∧ st' = st.
Proof.
  revert st deleted. induction entries as [|[index symbol] rest IH]; intros st deleted; cbn.
  - done.
  - destruct (tokenStateKeys !! symbol) as [stateKey|]; [|apply IH].
    destruct (decimalsAt tokenDecimals index) as [decimals|] eqn:Hd.
    + intros Hthrown. apply IH in Hthrown as [-> _]. done.
    + intros [= <-]. by destruct tokenDecimals.
Qed.

Lemma ormlLoop_throws_indep chainId tokenDecimals tokenStateKeys entries st1 d1 st2 d2 :
  throws (ormlLoop h chainId tokenDecimals tokenStateKeys entries st1 d1)
  = throws (ormlLoop h chainId tokenDecimals tokenStateKeys entries st2 d2).
Proof.
  revert st1 d1 st2 d2. induction entries as [|[index symbol] rest IH];
    intros st1 d1 st2 d2; cbn; [done|].
  destruct (tokenStateKeys !! symbol) as [stateKey|]; [|apply IH].
  destruct (decimalsAt tokenDecimals index); [apply IH|done].
Qed.

Lemma reconcileOrmlTokens_thrown chainId tokenSymbol tokenDecimals tokenStateKeys st st' :
  reconcileOrmlTokens h chainId tokenSymbol tokenDecimals tokenStateKeys st = Thrown st' →
  st' = st.
Proof.
  unfold reconcileOrmlTokens. cbn zeta.
  destruct (ormlLoop _ _ _ _ _ _ _) as [st1 deleted|st1] eqn:Hloop; cbn; [done|].
  intros [= <-]. by apply ormlLoop_thrown in Hloop as [_ ->].
Qed.

Lemma reconcileOrmlTokens_throws_indep chainId tokenSymbol tokenDecimals tokenStateKeys
    st1 st2 :
  throws (reconcileOrmlTokens h chainId tokenSymbol tokenDecimals tokenStateKeys st1)
  = throws (reconcileOrmlTokens h chainId tokenSymbol tokenDecimals tokenStateKeys st2).
Proof.
  unfold reconcileOrmlTokens. cbn zeta.
  match goal with
  | |- throws (outcome_bind ?o1 _) = throws (outcome_bind ?o2 _) =>
      assert (throws o1 = throws o2) as Hthrows by apply ormlLoop_throws_indep;
      destruct o1, o2; cbn in *; congruence
  end.
Qed.

Lemma applyRpcData_thrown chain data st st' :
  applyRpcData h chain data st = Thrown st' → st' = st.
Proof.
  unfold applyRpcData. destruct (tokenSymbolVariants data) as [variants|]; [|by intros [= <-]].
  destruct (reconcileOrmlTokens _ _ _ _ _ _) as [st1 []|st1] eqn:Hrec; cbn; [done|].
  intros [= <-]. by apply reconcileOrmlTokens_thrown in Hrec.
Qed.

Lemma applyRpcData_throws_indep chain data st1 st2 :
  throws (applyRpcData h chain data st1) = throws (applyRpcData h chain data st2).
Proof.
  unfold applyRpcData. destruct (tokenSymbolVariants data) as [variants|]; [|done].
  match goal with
  | |- throws (outcome_bind ?o1 _) = throws (outcome_bind ?o2 _) =>
      assert (throws o1 = throws o2) as Hthrows by apply reconcileOrmlTokens_throws_indep;
      destruct o1, o2; cbn in *; congruence
  end.
Qed.

Lemma attemptOnce_thrown up chain attempt url st st' :
  attemptOnce h up chain attempt url st = Thrown st' → st' = st.
Proof.
  unfold attemptOnce. destruct (up_chainRpc up _ _ _); [apply applyRpcData_thrown|].
  by intros [= <-].
Qed.

Lemma attemptOnce_throws_indep up chain attempt url st1 st2 :
  throws (attemptOnce h up chain attempt url st1)
  = throws (attemptOnce h up chain attempt url st2).
Proof.
  unfold attemptOnce. destruct (up_chainRpc up _ _ _); [apply applyRpcData_throws_indep|done].
Qed.

Lemma attemptOnce_throws_eq up chain attempt url st :
  throws (attemptOnce h up chain attempt url st) = true →
  attemptOnce h up chain attempt url st = Thrown st.
Proof.
  destruct (attemptOnce h up chain attempt url st) as [|st'] eqn:Ha; [done|].
  intros _. by rewrite (attemptOnce_thrown _ _ _ _ _ _ Ha).
Qed.

(** The log of a loop that starts at [attempt] and makes [m] attempts. *)
Lemma attemptLoop_spec up chain urls remaining attempt st log :
  let r := attemptLoop h up chain urls remaining attempt st log in
  ∃ m, (m ≤ remaining)%nat
    ∧ r.2 = log ++ map (λ a, (a, roundRobin urls a)) (seq attempt m)
    ∧ (∀ a, (attempt ≤ a < attempt + m - 1)%nat →
         throws (attemptOnce h up chain a (roundRobin urls a) st) = true)
    ∧ ((m = remaining
        ∧ (∀ a, (attempt ≤ a < attempt + m)%nat →
             throws (attemptOnce h up chain a (roundRobin urls a) st) = true)
        ∧ r.1 = saveChain (set_chain_isHealthy false chain) st)
       ∨ ((1 ≤ m)%nat
          ∧ throws (attemptOnce h up chain (attempt + m - 1)
                      (roundRobin urls (attempt + m - 1)) st) = false
          ∧ r.1 = outcome_store (attemptOnce h up chain (attempt + m - 1)
                                   (roundRobin urls (attempt + m - 1)) st))).
Proof.
  revert attempt log. induction remaining as [|remaining IH]; intros attempt log; cbn zeta.
  - exists 0%nat. cbn. rewrite app_nil_r. split; [done|]. split; [done|].
    split; [intros; lia|]. left. split; [done|]. split; [intros; lia|done].
  - cbn [attemptLoop]. fold (roundRobin urls attempt).
    destruct (attemptOnce h up chain attempt (roundRobin urls attempt) st) as [st' []|st'] eqn:Ha.
    + exists 1%nat. cbn. split; [lia|]. split; [done|]. split; [intros; lia|].
      right. split; [done|]. replace (attempt + 1 - 1)%nat with attempt by lia.
      by rewrite Ha.
    + pose proof (attemptOnce_thrown _ _ _ _ _ _ Ha) as ->.
      destruct (IH (S attempt) (log ++ [(attempt, roundRobin urls attempt)]))
        as (m & Hm & Hlog & Hpre & Hcases).
      exists (S m). split; [lia|]. split; [|split].
      * rewrite Hlog. cbn. by rewrite <- app_assoc.
      * intros a Ha'. destruct (decide (a = attempt)) as [->|]; [by rewrite Ha|].
        apply Hpre. lia.
      * destruct Hcases as [(-> & Hall & Hst)|(Hm1 & Hlast & Hst)].
        -- left. split; [done|]. split; [|done].
           intros a Ha'. destruct (decide (a = attempt)) as [->|]; [by rewrite Ha|].
           apply Hall. lia.
        -- right. split; [lia|].
           replace (attempt + S m - 1)%nat with (S attempt + m - 1)%nat by lia. done.
Qed.
End retry.

Lemma lookup_map_seq {A : Type} (f : nat → A) start len k :
  (k < len)%nat → map f (seq start len) !! k = Some (f (start + k)%nat).
Proof.
  intros Hk. change (map f (seq start len)) with (f <$> seq start len).
  rewrite list_lookup_fmap, lookup_seq_lt by done. done.
Qed.

(** C3: for a chain with n >= 1 healthy rpcs the retry loop opens at
    most 2n connections; the k-th connection, counted from 0, is attempt
    k+1 and goes to the healthy rpc at index k mod n; every attempt but
    the last of the log threw; an attempt that does not throw is the last
    one, and the task ends on its store; and when all 2n attempts throw,
    exactly 2n connections are opened and the chain is saved unhealthy. *)
Theorem retry_budget_round_robin h up chain st :
  let rpcs := probeSubstrateRpcs up chain in
  let urls := healthyUrls rpcs in
  let n := length urls in
  let probed := set_chain_rpcs_health rpcs (bool_decide (0 < n)%nat) chain in
  let st1 := saveChain probed st in
  let r := updateOneChain h up chain st in
  (1 ≤ n)%nat →
  (length r.2 ≤ 2 * n)%nat
  ∧ (∀ k, (k < length r.2)%nat →
       ∃ url, urls !! (k mod n)%nat = Some url ∧ r.2 !! k = Some (S k, url))
  ∧ (∀ k a url, r.2 !! k = Some (a, url) → (S k < length r.2)%nat →
       throws (attemptOnce h up probed a url st1) = true)
  ∧ (∀ k a url, r.2 !! k = Some (a, url) →
       throws (attemptOnce h up probed a url st1) = false →
       length r.2 = S k ∧ r.1 = outcome_store (attemptOnce h up probed a url st1))
  ∧ ((∀ a, (1 ≤ a ≤ 2 * n)%nat →
        throws (attemptOnce h up probed a (roundRobin urls a) st1) = true) →
     length r.2 = (2 * n)%nat
     ∧ ∃ c, chains r.1 !! chain_id chain = Some c ∧ chain_isHealthy c = false).
Proof.
  intros rpcs urls n probed st1 r Hn. subst r. unfold updateOneChain.
  fold rpcs. fold urls. fold n. fold probed. fold st1.
  destruct (attemptLoop_spec h up probed urls (n * 2) 1 st1 [])
    as (m & Hm & Hlog & Hpre & Hcases).
  cbn zeta in *. rewrite app_nil_l in Hlog.
  set (r := attemptLoop h up probed urls (n * 2) 1 st1 []) in *.
  assert (length r.2 = m) as Hlen by (by rewrite Hlog, length_map, length_seq).
  assert (∀ k, (k < m)%nat → r.2 !! k = Some (S k, roundRobin urls (S k))) as Hat.
  { intros k Hk. rewrite Hlog.
    exact (lookup_map_seq (λ a, (a, roundRobin urls a)) 1 m k Hk). }
  split; [lia|]. split; [|split; [|split]].
  - intros k Hk. rewrite Hlen in Hk. rewrite (Hat k Hk).
    unfold roundRobin. replace (S k - 1)%nat with k by lia. fold n.
    destruct (lookup_lt_is_Some_2 urls (k mod n)%nat) as [url Hurl].
    { apply Nat.mod_upper_bound. lia. }
    exists url. by rewrite Hurl.
  - intros k a url Hk Hlt. rewrite Hlen in Hlt. rewrite Hat in Hk by lia.
    injection Hk as <- <-. apply Hpre. lia.
  - intros k a url Hk Hok.
    assert (k < m)%nat as Hkm by (rewrite <- Hlen; by eapply lookup_lt_Some).
    rewrite Hat in Hk by done. injection Hk as <- <-.
    destruct (decide (S k = m)) as [Heq|Hne].
    + split; [lia|]. destruct Hcases as [(_ & Hall & _)|(_ & _ & Hst)].
      * rewrite Hall in Hok by lia. done.
      * replace (1 + m - 1)%nat with (S k) in Hst by lia. done.
    + rewrite Hpre in Hok by lia. done.
  - intros Hall. destruct Hcases as [(-> & _ & Hst)|(Hm1 & Hlast & _)].
    + split; [lia|]. rewrite Hst. cbn. rewrite lookup_insert_eq. eauto.
    + rewrite Hall in Hlast by lia. done.
Qed.


(** ** updateEvmNetworksFromGithub *)

Section evm.
Variable h : Helpers.

Lemma getOrCreateToken_id st kind id :
  wf_tokens (tokens st) → token_id (getOrCreateToken st kind id) = id.
Proof.
  intros Hwf. unfold getOrCreateToken.
  destruct (tokens st !! id) as [t|] eqn:Ht; [|done].
  case_decide; [|done]. by apply (Hwf _ _ Ht).
Qed.

Lemma saveToken_wf t st : wf_tokens (tokens st) → wf_tokens (tokens (saveToken t st)).
Proof. intros Hwf. cbn. by apply map_Forall_insert_2. Qed.

Lemma probeEvmNetwork_fields up e :
  evm_isTestnet (probeEvmNetwork up e) = evm_isTestnet e
  ∧ evm_name (probeEvmNetwork up e) = evm_name e
  ∧ evm_substrateChain (probeEvmNetwork up e) = evm_substrateChain e
  ∧ evm_explorerUrl (probeEvmNetwork up e) = evm_explorerUrl e
  ∧ evm_sortIndex (probeEvmNetwork up e) = evm_sortIndex e
  ∧ evm_nativeToken (probeEvmNetwork up e) = evm_nativeToken e.
Proof. unfold probeEvmNetwork. by destruct (head _). Qed.

Lemma evmLoopBody_spec up shared acc e :
  wf_tokens (tokens (el_store acc)) →
  let acc' := evmLoopBody h up shared acc e in
  wf_tokens (tokens (el_store acc'))
  ∧ chains (el_store acc') = chains (el_store acc)
  ∧ evmNetworks (el_store acc') = evmNetworks (el_store acc)
  ∧ el_updates acc' = el_updates acc ++ option_list (evmUpdateOf h up shared e)
  ∧ el_deletedStandalone acc'
    = el_deletedStandalone acc
      ∖ idsOf (filter (λ u, Is_true (isStandaloneEntity u))
                 (option_list (evmUpdateOf h up shared e)))
  ∧ el_deletedSubstrate acc'
    = el_deletedSubstrate acc
      ∖ idsOf (filter (λ u, Is_true (isSubstrateEntity u))
                 (option_list (evmUpdateOf h up shared e))).
Proof.
  intros Hwf. unfold evmLoopBody, evmUpdateOf. cbn zeta.
  generalize (probeEvmNetwork up e) as p. intros p.
  destruct (evm_id p) as [id|] eqn:Hid.
  - destruct (isStandaloneEntity p) eqn:Hst.
    + assert (isSubstrateEntity p = false) as Hsub.
      { unfold isStandaloneEntity, isSubstrateEntity in *.
        apply bool_decide_eq_true in Hst. rewrite Hst. apply bool_decide_eq_false_2.
        by intros [? ?]. }
      rewrite Hsub. unfold provisionNativeToken.
      cbn [el_store el_updates el_deletedStandalone el_deletedSubstrate fst snd
           token_id set_symbol_decimals].
      rewrite getOrCreateToken_id by done.
      assert (∀ t, isStandaloneEntity (set_evm_nativeToken t p) = true) as Hst'.
      { intros t. exact Hst. }
      assert (∀ t, isSubstrateEntity (set_evm_nativeToken t p) = false) as Hsub'.
      { intros t. exact Hsub. }
      unfold idsOf. cbn [option_list option_rect].
      rewrite !filter_cons, !filter_nil, Hst', Hsub'. cbn [Is_true].
      rewrite decide_True, decide_False by tauto.
      cbn [omap list_omap evm_id set_evm_nativeToken]. rewrite Hid.
      cbn [list_to_set foldr].
      split; [by apply saveToken_wf|].
      repeat split; try done; set_solver.
    + assert (isSubstrateEntity p = true) as Hsub.
      { unfold isStandaloneEntity, isSubstrateEntity in *.
        apply bool_decide_eq_false in Hst. apply bool_decide_eq_true.
        by destruct (evm_substrateChain _). }
      rewrite Hsub.
      cbn [el_store el_updates el_deletedStandalone el_deletedSubstrate fst snd].
      unfold idsOf. cbn [option_list option_rect].
      rewrite !filter_cons, !filter_nil, Hst, Hsub. cbn [Is_true].
      rewrite decide_False, decide_True by tauto.
      cbn [omap list_omap]. rewrite Hid. cbn [list_to_set foldr].
      repeat split; try done; set_solver.
  - cbn [option_list option_rect]. rewrite app_nil_r. unfold idsOf.
    rewrite !filter_nil. cbn [omap list_omap list_to_set foldr].
    repeat split; try done; set_solver.
Qed.

Lemma evmLoop_spec up shared l acc :
  wf_tokens (tokens (el_store acc)) →
  let acc' := foldl (evmLoopBody h up shared) acc l in
  wf_tokens (tokens (el_store acc'))
  ∧ chains (el_store acc') = chains (el_store acc)
  ∧ evmNetworks (el_store acc') = evmNetworks (el_store acc)
  ∧ el_updates acc' = el_updates acc ++ omap (evmUpdateOf h up shared) l
  ∧ el_deletedStandalone acc'
    = el_deletedStandalone acc
      ∖ idsOf (filter (λ u, Is_true (isStandaloneEntity u))
                 (omap (evmUpdateOf h up shared) l))
  ∧ el_deletedSubstrate acc'
    = el_deletedSubstrate acc
      ∖ idsOf (filter (λ u, Is_true (isSubstrateEntity u))
                 (omap (evmUpdateOf h up shared) l)).
Proof.
  revert acc. induction l as [|e l IH]; intros acc Hwf; cbn zeta.
  - cbn. rewrite app_nil_r. unfold idsOf. cbn. repeat split; try done; set_solver.
  - cbn [foldl].
    destruct (evmLoopBody_spec up shared acc e Hwf) as (H1 & H2 & H3 & H4 & H5 & H6).
    destruct (IH _ H1) as (I1 & I2 & I3 & I4 & I5 & I6).
    split; [done|]. split; [congruence|]. split; [congruence|].
    assert (omap (evmUpdateOf h up shared) (e :: l)
            = option_list (evmUpdateOf h up shared e) ++ omap (evmUpdateOf h up shared) l)
      as Homap.
    { cbn. by destruct (evmUpdateOf h up shared e). }
    rewrite Homap. split; [|split].
    + rewrite I4, H4. by rewrite <- app_assoc.
    + rewrite I5, H5. unfold idsOf. rewrite filter_app, omap_app, list_to_set_app_L.
      set_solver.
    + rewrite I6, H6. unfold idsOf. rewrite filter_app, omap_app, list_to_set_app_L.
      set_solver.
Qed.
End evm.

Lemma elem_of_idsOf l k : k ∈ idsOf l ↔ ∃ n, n ∈ l ∧ evm_id n = Some k.
Proof. unfold idsOf. rewrite elem_of_list_to_set, list_elem_of_omap. done. Qed.

Lemma saveEvmNetworks_eq updates st :
  Forall (λ u, is_Some (evm_id u)) updates →
  saveEvmNetworks updates st = set_evmNetworks (insertAll evmKey updates) st.
Proof.
  unfold saveEvmNetworks. intros Hall. revert st.
  induction Hall as [|u l [id Hid] _ IH]; intros st; cbn [foldl].
  - by destruct st.
  - rewrite IH. unfold saveEvmNetwork. rewrite Hid.
    unfold set_evmNetworks, insertAll. cbn [foldl chains evmNetworks tokens].
    by replace (evmKey u) with id by (unfold evmKey; by rewrite Hid).
Qed.

Lemma evmUpdateOf_Some h up shared e u :
  evmUpdateOf h up shared e = Some u →
  evm_id u = evm_id (probeEvmNetwork up e) ∧ is_Some (evm_id u)
  ∧ evm_isTestnet u = evm_isTestnet e ∧ evm_name u = evm_name e
  ∧ evm_substrateChain u = evm_substrateChain e
  ∧ evm_rpcs u = evm_rpcs (probeEvmNetwork up e)
  ∧ evm_isHealthy u = evm_isHealthy (probeEvmNetwork up e).
Proof.
  unfold evmUpdateOf. cbn zeta.
  destruct (probeEvmNetwork_fields up e) as (H1 & H2 & H3 & _).
  revert H1 H2 H3. generalize (probeEvmNetwork up e) as p. intros p H1 H2 H3.
  destruct (evm_id p) as [id|] eqn:Hid; [|done].
  intros [= <-].
  destruct (isStandaloneEntity p); cbn [evm_id evm_isTestnet evm_name evm_substrateChain
    evm_rpcs evm_isHealthy set_evm_nativeToken]; rewrite Hid; by eauto 10.
Qed.

Section evm_step.
Variable h : Helpers.
Variable up : Upstream.
Variable shared : SharedData.
Variable st : Store.
Hypothesis Hwf : wf_store st.

Lemma evmNetworkUpdates_eq :
  evmNetworkUpdates h up shared st = omap (evmUpdateOf h up shared) (incomingEvmNetworks shared st).
Proof.
  unfold evmNetworkUpdates, evmLoopFinal, incomingEvmNetworks. cbn zeta.
  destruct Hwf as (_ & _ & Hwt).
  match goal with
  | |- context [foldl _ ?acc ?l] =>
      destruct (evmLoop_spec h up shared l acc Hwt) as (_ & _ & _ & -> & _)
  end.
  done.
Qed.

Lemma evmNetworkUpdates_ids :
  Forall (λ u, is_Some (evm_id u)) (evmNetworkUpdates h up shared st).
Proof.
  rewrite evmNetworkUpdates_eq. apply Forall_forall. intros u Hu.
  apply list_elem_of_omap in Hu as (e & _ & He).
  by apply evmUpdateOf_Some in He as (_ & ? & _).
Qed.

Local Abbreviation evmDeleted := (evmDeleted h up shared st).

Lemma updateEvmNetworksFromGithub_eq :
  updateEvmNetworksFromGithub h up shared st
  = set_evmNetworks (λ m, deleteIds evmDeleted (insertAll evmKey (evmNetworkUpdates h up shared st) m))
      (el_store (evmLoopFinal h up shared st)).
Proof.
  unfold updateEvmNetworksFromGithub. cbn zeta. fold evmDeleted.
  rewrite saveEvmNetworks_eq by apply evmNetworkUpdates_ids.
  case_bool_decide as Hsz; [done|].
  assert (evmDeleted = ∅) as ->.
  { apply leibniz_equiv, size_empty_iff. lia. }
  unfold set_evmNetworks. cbn. by rewrite deleteIds_empty.
Qed.

Lemma evmLoopFinal_store :
  chains (el_store (evmLoopFinal h up shared st)) = chains st
  ∧ evmNetworks (el_store (evmLoopFinal h up shared st)) = evmNetworks st
  ∧ wf_tokens (tokens (el_store (evmLoopFinal h up shared st))).
Proof.
  unfold evmLoopFinal. cbn zeta. destruct Hwf as (_ & _ & Hwt).
  match goal with
  | |- context [foldl _ ?acc ?l] =>
      destruct (evmLoop_spec h up shared l acc Hwt) as (H1 & H2 & H3 & _)
  end.
  done.
Qed.

Lemma isSubstrateEntity_negb (e : EvmNetwork) :
  isSubstrateEntity e = negb (isStandaloneEntity e).
Proof.
  unfold isStandaloneEntity, isSubstrateEntity. by destruct (evm_substrateChain e).
Qed.

Lemma not_invalid_entity (e : EvmNetwork) : isInvalidEntity e = false.
Proof.
  unfold isInvalidEntity, isStandaloneEntity, isSubstrateEntity.
  by destruct (evm_substrateChain e).
Qed.

Lemma elem_of_evmDeleted k :
  k ∈ evmDeleted ↔
    ∃ old, evmNetworks st !! k = Some old
      ∧ ∀ u, u ∈ evmNetworkUpdates h up shared st → evm_id u = Some k →
          isStandaloneEntity u ≠ isStandaloneEntity old.
Proof.
  destruct Hwf as (_ & Hwn & Hwt).
  unfold evmDeleted. rewrite evmNetworkUpdates_eq.
  unfold evmLoopFinal. cbn zeta.
  match goal with
  | |- context [foldl _ ?acc ?l] =>
      destruct (evmLoop_spec h up shared l acc Hwt) as (_ & _ & _ & _ & -> & ->)
  end.
  cbn [el_deletedStandalone el_deletedSubstrate].
  fold (incomingEvmNetworks shared st).
  set (U := omap (evmUpdateOf h up shared) (incomingEvmNetworks shared st)).
  rewrite !elem_of_union, !elem_of_difference, !elem_of_idsOf.
  assert (∀ (P : EvmNetwork → bool) (l : list EvmNetwork), (∃ n, n ∈ filter (λ e, Is_true (P e)) l ∧ evm_id n = Some k)
            ↔ ∃ n, n ∈ l ∧ evm_id n = Some k ∧ P n = true) as Hfilter.
  { intros P l. split.
    - intros (n & [HP Hn]%list_elem_of_filter & Hid). exists n. by rewrite <- Is_true_true.
    - intros (n & Hn & Hid & HP). exists n. split; [|done].
      apply list_elem_of_filter. by rewrite Is_true_true. }
  rewrite !Hfilter.
  assert (∀ P : EvmNetwork → bool, (∃ n, n ∈ find (evmNetworks st) ∧ evm_id n = Some k ∧ P n = true)
            ↔ ∃ old, evmNetworks st !! k = Some old ∧ P old = true) as Hfind.
  { intros P. split.
    - intros (n & (k' & Hk')%elem_of_find & Hid & HP). exists n. split; [|done].
      pose proof (Hwn _ _ Hk') as Hid'. cbn in Hid'. congruence.
    - intros (old & Hold & HP). exists old. split; [apply elem_of_find; eauto|].
      split; [|done]. apply (Hwn _ _ Hold). }
  rewrite !Hfind. split.
  - intros [[(old & _ & Hinv)|[(old & Hold & Hs) Hno]]|[(old & Hold & Hs) Hno]].
    + by rewrite not_invalid_entity in Hinv.
    + exists old. split; [done|]. intros u Hu Hid Heq. apply Hno. exists u. split; [done|].
      split; [done|]. congruence.
    + exists old. split; [done|]. intros u Hu Hid Heq. apply Hno. exists u. split; [done|].
      split; [done|]. rewrite isSubstrateEntity_negb in *. congruence.
  - intros (old & Hold & Hno).
    destruct (isStandaloneEntity old) eqn:Hs.
    + left. right. split; [eauto|]. intros (u & Hu & Hid & Hus).
      apply (Hno u Hu Hid). congruence.
    + right. split.
      * exists old. split; [done|]. rewrite isSubstrateEntity_negb. by rewrite Hs.
      * intros (u & Hu & Hid & Hus). apply (Hno u Hu Hid).
        rewrite isSubstrateEntity_negb in Hus.
        by destruct (isStandaloneEntity u).
Qed.
End evm_step.

Section evm_reconcile.
Variable h : Helpers.
Variable up : Upstream.
Variable shared : SharedData.
Variable st : Store.
Hypothesis Hwf : wf_store st.

Lemma evmKey_id u k : evm_id u = Some k → evmKey u = k.
Proof. unfold evmKey. by intros ->. Qed.

Lemma evm_update_key u :
  u ∈ evmNetworkUpdates h up shared st → evm_id u = Some (evmKey u).
Proof.
  intros Hu. pose proof (evmNetworkUpdates_ids h up shared st Hwf) as Hall.
  rewrite Forall_forall in Hall. destruct (Hall u Hu) as [k Hk].
  by rewrite (evmKey_id u k Hk).
Qed.

Lemma evm_persisted_is_last_update k n :
  evmNetworks (updateEvmNetworksFromGithub h up shared st) !! k = Some n →
  ∃ pre post, evmNetworkUpdates h up shared st = pre ++ n :: post
    ∧ evm_id n = Some k ∧ ∀ u, u ∈ post → evm_id u ≠ Some k.
Proof.
  rewrite (updateEvmNetworksFromGithub_eq h up shared st Hwf).
  cbn [evmNetworks set_evmNetworks]. rewrite lookup_deleteIds.
  case_decide as Hdel; [done|]. intros Hn.
  set (U := evmNetworkUpdates h up shared st) in *.
  apply insertAll_lookup_Some_last in Hn as [(pre & post & HU & Hkey & Hpost)|[Hnone Hold]].
  - exists pre, post. split; [done|].
    assert (n ∈ U) as HnU by (rewrite HU; set_solver).
    split; [by rewrite (evm_update_key n HnU), Hkey|].
    intros u Hu Hid. apply Hpost. apply list_elem_of_fmap. exists u. split; [|done].
    symmetry. by apply evmKey_id.
  - exfalso. apply Hdel. apply (elem_of_evmDeleted h up shared st Hwf).
    destruct (evmLoopFinal_store h up shared st Hwf) as (_ & Hevm & _).
    rewrite Hevm in Hold. exists n. split; [done|].
    intros u Hu Hid. exfalso. apply Hnone. apply list_elem_of_fmap. exists u.
    split; [|done]. symmetry. by apply evmKey_id.
Qed.

Lemma evm_unaffirmed_is_deleted k :
  (∀ u, u ∈ evmNetworkUpdates h up shared st → evm_id u ≠ Some k) →
  evmNetworks (updateEvmNetworksFromGithub h up shared st) !! k = None.
Proof.
  intros Hno. destruct (evmNetworks _ !! k) as [n|] eqn:Hn; [|done].
  apply evm_persisted_is_last_update in Hn as (pre & post & HU & Hid & _).
  exfalso. apply (Hno n); [|done]. rewrite HU. set_solver.
Qed.

Lemma evm_last_update_is_persisted pre n post k :
  evmNetworkUpdates h up shared st = pre ++ n :: post →
  evm_id n = Some k →
  (∀ u, u ∈ post → evm_id u ≠ Some k) →
  (∀ old, evmNetworks st !! k = Some old →
     ∃ u, u ∈ evmNetworkUpdates h up shared st ∧ evm_id u = Some k
       ∧ isStandaloneEntity u = isStandaloneEntity old) →
  evmNetworks (updateEvmNetworksFromGithub h up shared st) !! k = Some n.
Proof.
  intros HU Hid Hpost Hkind.
  rewrite (updateEvmNetworksFromGithub_eq h up shared st Hwf).
  cbn [evmNetworks set_evmNetworks]. rewrite lookup_deleteIds.
  rewrite decide_False.
  - rewrite HU. rewrite <- (evmKey_id n k Hid). apply insertAll_lookup_last.
    intros (u & Hku & Hu)%list_elem_of_fmap. apply (Hpost u Hu).
    rewrite (evm_update_key u); [by rewrite <- Hku, (evmKey_id n k Hid)|].
    rewrite HU. set_solver.
  - rewrite (elem_of_evmDeleted h up shared st Hwf). intros (old & Hold & Hno).
    destruct (Hkind old Hold) as (u & Hu & Hidu & Heq). by apply (Hno u Hu Hidu).
Qed.

Lemma standaloneEntity_substrateChain r :
  evm_substrateChain (standaloneEntity st r) = None.
Proof. done. Qed.

Lemma substrateEntity_Some r e :
  substrateEntity st r = Some e →
  ∃ c, chains st !! default "" (gn_substrateChainId r) = Some c
    ∧ evm_substrateChain e = Some (chain_id c)
    ∧ evm_isTestnet e = chain_isTestnet c
    ∧ evm_name e = string_or (gn_name r) (chain_name c)
    ∧ evm_nativeToken e = chain_nativeToken c.
Proof.
  unfold substrateEntity. cbn zeta.
  destruct (chains st !! default "" (gn_substrateChainId r)) as [c|]; [|done].
  intros [= <-]. exists c. done.
Qed.

Lemma evm_update_origin u :
  u ∈ evmNetworkUpdates h up shared st →
  ∃ e, e ∈ incomingEvmNetworks shared st ∧ evmUpdateOf h up shared e = Some u.
Proof.
  rewrite (evmNetworkUpdates_eq h up shared st Hwf). by intros ?%list_elem_of_omap.
Qed.

Lemma evm_substrate_update_origin u :
  u ∈ evmNetworkUpdates h up shared st →
  is_Some (evm_substrateChain u) →
  ∃ r sid c, r ∈ githubEvmNetworks shared ∧ gn_substrateChainId r = Some sid
    ∧ chains st !! sid = Some c
    ∧ evm_substrateChain u = Some sid
    ∧ evm_isTestnet u = chain_isTestnet c
    ∧ evm_name u = string_or (gn_name r) (chain_name c).
Proof.
  intros (e & He & Hu)%evm_update_origin Hsub.
  apply evmUpdateOf_Some in Hu as (_ & _ & Ht & Hn & Hs & _).
  unfold incomingEvmNetworks in He. apply elem_of_app in He as [He|He].
  - unfold standaloneEvmNetworks in He. apply list_elem_of_fmap in He as (r & -> & _).
    rewrite Hs, standaloneEntity_substrateChain in Hsub. by destruct Hsub.
  - unfold substrateEvmNetworks in He. apply list_elem_of_omap in He as (r & Hr & He).
    apply list_elem_of_filter in Hr as [Hrec Hr].
    apply substrateEntity_Some in He as (c & Hc & Hsc & Htc & Hnc & _).
    unfold isSubstrateRecord in Hrec. apply Is_true_true, bool_decide_eq_true in Hrec.
    destruct Hrec as [sid Hsid]. rewrite Hsid in Hc. cbn in Hc.
    destruct Hwf as (Hwc & _). pose proof (Hwc _ _ Hc) as Hcid. cbn in Hcid.
    exists r, sid, c. rewrite Hs, Ht, Hn, Hsc, Htc, Hnc, Hcid. done.
Qed.
End evm_reconcile.

(** C8, amended: a persisted network that is linked to a chain comes
    from a record of the feed whose chain is in the store; its testnet
    flag is the flag of the chain, and its name is the name of the record
    when the record has a non-empty one, and the name of the chain
    otherwise. *)
Theorem linked_network_inherits_testnet_and_default_name h up shared st k n :
  wf_store st →
  evmNetworks (updateEvmNetworksFromGithub h up shared st) !! k = Some n →
  is_Some (evm_substrateChain n) →
  ∃ r sid c, r ∈ githubEvmNetworks shared ∧ gn_substrateChainId r = Some sid
    ∧ chains st !! sid = Some c
    ∧ evm_substrateChain n = Some sid
    ∧ evm_isTestnet n = chain_isTestnet c
    ∧ (∀ name, gn_name r = Some name → name ≠ "" → evm_name n = Some name)
    ∧ (gn_name r = None ∨ gn_name r = Some "" → evm_name n = chain_name c).
Proof.
  intros Hwf Hn Hsub.
  apply (evm_persisted_is_last_update h up shared st Hwf) in Hn as (pre & post & HU & _ & _).
  assert (n ∈ evmNetworkUpdates h up shared st) as HnU by (rewrite HU; set_solver).
  destruct (evm_substrate_update_origin h up shared st Hwf n HnU Hsub)
    as (r & sid & c & Hr & Hsid & Hc & Hs & Ht & Hname).
  exists r, sid, c. repeat split; try done.
  - intros name Hrn Hne. rewrite Hname, Hrn. unfold string_or. cbn.
    by rewrite bool_decide_eq_false_2.
  - intros [Hrn|Hrn]; rewrite Hname, Hrn; done.
Qed.


(** ** Loops that reconcile tokens *)

Section token_loop.
Context {S : Type} (idOf : S → option string) (upsert : Store → S → Token).
Local Abbreviation loop := (tokenLoop idOf upsert).

Lemma tokenLoop_snoc l s acc :
  loop (l ++ [s]) acc = tokenLoopBody idOf upsert (loop l acc) s.
Proof. unfold tokenLoop. by rewrite foldl_snoc. Qed.


Lemma tokenLoop_store_indep l st del del' :
  (loop l (st, del)).1 = (loop l (st, del')).1.
Proof.
  induction l as [|s l IH] using rev_ind; [done|].
  rewrite !tokenLoop_snoc. unfold tokenLoopBody. destruct (idOf s); [|done].
  cbn. by rewrite IH.
Qed.

Lemma tokenLoop_deleted l acc k :
  (loop l acc).2 !! k = if decide (Some k ∈ idOf <$> l) then None else acc.2 !! k.
Proof.
  induction l as [|s l IH] using rev_ind.
  - cbn. by rewrite decide_False by apply not_elem_of_nil.
  - rewrite tokenLoop_snoc, fmap_app. cbn. unfold tokenLoopBody.
    destruct (idOf s) as [k'|] eqn:Hs.
    + cbn. destruct (decide (k' = k)) as [->|Hne].
      * rewrite lookup_delete_eq. by rewrite decide_True by set_solver.
      * rewrite lookup_delete_ne by done. rewrite IH.
        destruct (decide (Some k ∈ idOf <$> l)).
        -- by rewrite decide_True by set_solver.
        -- rewrite decide_False; [done|]. set_solver.
    + rewrite IH. destruct (decide (Some k ∈ idOf <$> l)).
      * by rewrite decide_True by set_solver.
      * rewrite decide_False; [done|]. set_solver.
Qed.

Hypothesis upsert_id :
  ∀ st s k, wf_tokens (tokens st) → idOf s = Some k → token_id (upsert st s) = k.

Lemma tokenLoop_frame l acc :
  wf_tokens (tokens acc.1) →
  chains (loop l acc).1 = chains acc.1
  ∧ evmNetworks (loop l acc).1 = evmNetworks acc.1
  ∧ wf_tokens (tokens (loop l acc).1).
Proof.
  intros Hwf. induction l as [|s l IH] using rev_ind; [done|].
  rewrite tokenLoop_snoc. destruct IH as (H1 & H2 & H3).
  unfold tokenLoopBody. destruct (idOf s) as [k|] eqn:Hs; [|by auto].
  cbn. split; [done|]. split; [done|].
  by apply map_Forall_insert_2.
Qed.



End token_loop.

Lemma removeTokens_tokens deleted st k :
  wf_tokens deleted →
  tokens (removeTokens deleted st) !! k
  = if decide (k ∈ dom deleted) then None else tokens st !! k.
Proof.
  intros Hwf. unfold removeTokens.
  assert (∀ (l : list Token) st,
            tokens (foldl (λ st t, removeToken t st) st l) !! k
            = if decide (k ∈ token_id <$> l) then None else tokens st !! k) as Hfold.
  { intros l. induction l as [|t l IH] using rev_ind; intros st'.
    - cbn. by rewrite decide_False by apply not_elem_of_nil.
    - rewrite foldl_snoc, fmap_app. cbn. destruct (decide (token_id t = k)) as [->|Hne].
      + rewrite lookup_delete_eq. by rewrite decide_True by set_solver.
      + rewrite lookup_delete_ne by done. rewrite IH.
        destruct (decide (k ∈ token_id <$> l)).
        * by rewrite decide_True by set_solver.
        * rewrite decide_False; [done|]. set_solver. }
  rewrite Hfold. rewrite (find_keys token_id deleted) by apply Hwf.
  destruct (decide (k ∈ dom deleted)).
  - by rewrite decide_True by by apply elem_of_elements.
  - rewrite decide_False; [done|]. by rewrite elem_of_elements.
Qed.

Lemma removeTokens_frame deleted st :
  chains (removeTokens deleted st) = chains st
  ∧ evmNetworks (removeTokens deleted st) = evmNetworks st.
Proof.
  unfold removeTokens. generalize (find deleted) as l. intros l. revert st.
  induction l as [|t l IH]; intros st; [done|]. cbn [foldl]. by destruct (IH (removeToken t st)).
Qed.

(** ** The erc20 tokens *)

Section erc20.
Variable h : Helpers.


Lemma erc20LoopBody_tokenLoopBody acc erc20 :
  wf_tokens (tokens acc.1) →
  erc20LoopBody h acc erc20
  = tokenLoopBody (erc20IdOf h (evmNetworks acc.1)) (erc20Upsert h (evmNetworks acc.1)) acc erc20.
Proof.
  intros Hwf. destruct acc as [st del]. unfold erc20LoopBody, tokenLoopBody, erc20IdOf, erc20Upsert.
  cbn [fst snd].
  destruct (evmNetworks st !! default "" (gt_evmNetworkId erc20)) as [net|]; [|done].
  cbn. by rewrite getOrCreateToken_id by done.
Qed.

Lemma erc20_foldl_tokenLoop l st del :
  wf_tokens (tokens st) →
  foldl (erc20LoopBody h) (st, del) l
  = tokenLoop (erc20IdOf h (evmNetworks st)) (erc20Upsert h (evmNetworks st)) l (st, del).
Proof.
  intros Hwf. induction l as [|erc20 l IH] using rev_ind; [done|].
  rewrite foldl_snoc, tokenLoop_snoc, IH.
  destruct (tokenLoop_frame (erc20IdOf h (evmNetworks st)) (erc20Upsert h (evmNetworks st))
              l (st, del) Hwf) as (_ & Hnets & Hwf').
  rewrite erc20LoopBody_tokenLoopBody by done. by rewrite Hnets.
Qed.

Lemma erc20Deleted0_eq st :
  wf_tokens (tokens st) →
  erc20Deleted0 st = filter (λ kv, token_isTypeOf kv.2 = Erc20Token) (tokens st).
Proof.
  intros Hwf. unfold erc20Deleted0, existingErc20Tokens.
  exact (fromEntries_find_filter token_id (λ t, token_isTypeOf t = Erc20Token) (tokens st) Hwf).
Qed.


Lemma wf_tokens_tokenLoop_deleted {S : Type} (idOf : S → option string) upsert l acc :
  wf_tokens acc.2 → wf_tokens (tokenLoop idOf upsert l acc).2.
Proof.
  intros Hwf k t Hk. rewrite tokenLoop_deleted in Hk. case_decide; [done|]. by apply Hwf.
Qed.

Lemma reconcileErc20Tokens_eq shared st :
  reconcileErc20Tokens h shared st
  = removeTokens (erc20Loop h (erc20Records shared) st).2
      (erc20Loop h (erc20Records shared) st).1.
Proof.
  unfold reconcileErc20Tokens, erc20Loop, erc20Deleted0, erc20Records.
  by destruct (foldl _ _ _).
Qed.



End erc20.

(** ** The orml tokens of a chain *)

Section orml.
Variable h : Helpers.
Variable chainId : string.
Variable tokenDecimals : JsDecimals.
Variable tokenStateKeys : gmap string string.

Local Abbreviation idOf := (ormlIdOf h chainId tokenStateKeys).
Local Abbreviation upsert := (ormlUpsert h chainId tokenDecimals tokenStateKeys).
Local Abbreviation loop := (ormlLoop h chainId tokenDecimals tokenStateKeys).



Lemma ormlLoop_Done entries st deleted st' deleted' :
  wf_tokens (tokens st) →
  loop entries st deleted = Done st' deleted' →
  (st', deleted') = tokenLoop idOf upsert entries (st, deleted)
  ∧ ∀ entry, entry ∈ entries → is_Some (tokenStateKeys !! entry.2) →
      is_Some (decimalsAt tokenDecimals entry.1).
Proof.
  revert st deleted. induction entries as [|[index symbol] rest IH]; intros st deleted Hwf.
  - cbn. intros [= <- <-]. split; [done|]. intros entry Hin. by apply elem_of_nil in Hin.
  - cbn [ormlLoop]. unfold tokenLoop. cbn [foldl]. unfold tokenLoopBody at 2, ormlIdOf at 2.
    cbn [fst snd].
    destruct (tokenStateKeys !! symbol) as [stateKey|] eqn:Hkey; cbn [fmap option_fmap option_map].
    + destruct (decimalsAt tokenDecimals index) as [decimals|] eqn:Hdec; [|done].
      rewrite getOrCreateToken_id by done.
      intros Hloop. apply IH in Hloop as [Heq Hall]; [|by apply saveToken_wf].
      split.
      * rewrite Heq. unfold tokenLoop. do 3 f_equal.
        unfold ormlUpsert. cbn [fst snd]. by rewrite Hkey, Hdec.
      * intros entry [->|Hin]%elem_of_cons Hsome; [cbn; eauto|by apply Hall].
    + intros Hloop. apply IH in Hloop as [Heq Hall]; [|done].
      split; [done|].
      intros entry [->|Hin]%elem_of_cons Hsome; [|by apply Hall].
      cbn in Hsome. rewrite Hkey in Hsome. by destruct Hsome.
Qed.

Lemma ormlDeleted0_eq st :
  wf_tokens (tokens st) →
  ormlDeleted0 st chainId
  = filter (λ kv, token_isTypeOf kv.2 = OrmlToken ∧ token_chain kv.2 = Some chainId)
      (tokens st).
Proof.
  intros Hwf. unfold ormlDeleted0, existingOrmlTokens. rewrite list_filter_filter.
  exact (fromEntries_find_filter token_id
           (λ t, token_isTypeOf t = OrmlToken ∧ token_chain t = Some chainId) (tokens st) Hwf).
Qed.


End orml.

(** ** Reconciliation, family by family *)



Lemma head_omap_ethereumIds_None up (rpcs : list EthereumRpc) :
  head (omap (λ id, id) (ethereumIds up rpcs)) = None →
  ∀ rpc, rpc ∈ rpcs → ethereumIdOf (up_ethChainId up (erpc_url rpc)) = None.
Proof.
  induction rpcs as [|rpc rpcs IH]; intros Hhead rpc' Hin; [by apply elem_of_nil in Hin|].
  cbn in Hhead. destruct (ethereumIdOf (up_ethChainId up (erpc_url rpc))) eqn:Hid; [done|].
  apply elem_of_cons in Hin as [->|Hin]; [done|]. by apply IH.
Qed.

Lemma probedRpcs_unhealthy up (rpcs : list EthereumRpc) :
  (∀ rpc, rpc ∈ rpcs → ethereumIdOf (up_ethChainId up (erpc_url rpc)) = None) →
  probedRpcs up rpcs = map setUnhealthy rpcs.
Proof.
  induction rpcs as [|rpc rpcs IH]; intros Hall; [done|].
  cbn. rewrite (Hall rpc) by by left. f_equal. apply IH. intros rpc' Hin. apply Hall. by right.
Qed.

Lemma healthyEthUrls_unhealthy (rpcs : list EthereumRpc) :
  healthyEthUrls (map setUnhealthy rpcs) = [].
Proof. unfold healthyEthUrls. induction rpcs as [|rpc rpcs IH]; [done|]. cbn. apply IH. Qed.






(** ** The chain task in closed form *)

Lemma store_eta st : mkStore (chains st) (evmNetworks st) (tokens st) = st.
Proof. by destruct st. Qed.

Section chain_task.
Variable h : Helpers.

(** The token operations read and write the token table only. *)
Lemma getOrCreateToken_tokens st st' kind id :
  tokens st = tokens st' → getOrCreateToken st kind id = getOrCreateToken st' kind id.
Proof. unfold getOrCreateToken. by intros ->. Qed.

Lemma ormlLoop_frame chainId tokenDecimals tokenStateKeys entries st deleted :
  ormlLoop h chainId tokenDecimals tokenStateKeys entries st deleted
  = match ormlLoop h chainId tokenDecimals tokenStateKeys entries
            (mkStore ∅ ∅ (tokens st)) deleted with
    | Done s d => Done (mkStore (chains st) (evmNetworks st) (tokens s)) d
    | Thrown s => Thrown (mkStore (chains st) (evmNetworks st) (tokens s))
    end.
Proof.
  revert st deleted. induction entries as [|[index symbol] rest IH]; intros st deleted.
  - cbn. by rewrite store_eta.
  - cbn [ormlLoop]. destruct (tokenStateKeys !! symbol) as [stateKey|]; [|apply IH].
    destruct (decimalsAt tokenDecimals index) as [decimals|].
    + rewrite IH. rewrite (IH (saveToken _ (mkStore ∅ ∅ (tokens st)))).
      rewrite (getOrCreateToken_tokens st (mkStore ∅ ∅ (tokens st))) by done. cbn.
      by destruct (ormlLoop _ _ _ _ _ _ _).
    + cbn. by rewrite store_eta.
Qed.

Lemma removeTokens_frame_eq deleted st :
  removeTokens deleted st
  = mkStore (chains st) (evmNetworks st)
      (tokens (removeTokens deleted (mkStore ∅ ∅ (tokens st)))).
Proof.
  unfold removeTokens. generalize (find deleted) as l. intros l. revert st.
  induction l as [|t l IH]; intros st; cbn [foldl]; [by destruct st|].
  rewrite IH. by rewrite (IH (removeToken t (mkStore ∅ ∅ (tokens st)))).
Qed.

Lemma reconcileOrmlTokens_frame chainId tokenSymbol tokenDecimals tokenStateKeys st :
  reconcileOrmlTokens h chainId tokenSymbol tokenDecimals tokenStateKeys st
  = match reconcileOrmlTokens h chainId tokenSymbol tokenDecimals tokenStateKeys
            (mkStore ∅ ∅ (tokens st)) with
    | Done s u => Done (mkStore (chains st) (evmNetworks st) (tokens s)) u
    | Thrown s => Thrown (mkStore (chains st) (evmNetworks st) (tokens s))
    end.
Proof.
  unfold reconcileOrmlTokens. cbn zeta. unfold existingOrmlTokens. cbn [tokens].
  rewrite ormlLoop_frame.
  destruct (ormlLoop _ _ _ _ _ (mkStore ∅ ∅ (tokens st)) _) as [s d|s]; cbn; [|done].
  rewrite removeTokens_frame_eq. cbn. by rewrite (removeTokens_frame_eq d s).
Qed.

Lemma removeTokens_wf deleted st :
  wf_tokens (tokens st) → wf_tokens (tokens (removeTokens deleted st)).
Proof.
  unfold removeTokens. generalize (find deleted) as l. intros l. revert st.
  induction l as [|x l IH]; intros st Hwf; cbn [foldl]; [done|].
  apply IH. cbn. by apply map_Forall_delete.
Qed.

Lemma reconcileOrmlTokens_frame_chains chainId tokenSymbol tokenDecimals tokenStateKeys
    st st' u :
  reconcileOrmlTokens h chainId tokenSymbol tokenDecimals tokenStateKeys st = Done st' u →
  chains st' = chains st.
Proof.
  rewrite reconcileOrmlTokens_frame. destruct (reconcileOrmlTokens _ _ _ _ _ _); [|done].
  by intros [= <- <-].
Qed.

Lemma reconcileOrmlTokens_wf chainId tokenSymbol tokenDecimals tokenStateKeys st st' u :
  wf_tokens (tokens st) →
  reconcileOrmlTokens h chainId tokenSymbol tokenDecimals tokenStateKeys st = Done st' u →
  wf_tokens (tokens st').
Proof.
  intros Hwf. unfold reconcileOrmlTokens. cbn zeta.
  destruct (ormlLoop _ _ _ _ _ _ _) as [s d|s] eqn:Hloop; cbn; [|done].
  intros [= <- <-]. apply ormlLoop_Done in Hloop as [Heq _]; [|done].
  apply removeTokens_wf.
  apply (f_equal fst) in Heq. cbn [fst] in Heq. rewrite Heq.
  exact (proj2 (proj2 (tokenLoop_frame (ormlIdOf h chainId tokenStateKeys)
            (ormlUpsert h chainId tokenDecimals tokenStateKeys) _ (st, _) Hwf))).
Qed.

Lemma getOrCreateChain_id st id :
  wf_chains (chains st) → chain_id (getOrCreateChain st id) = id.
Proof.
  intros Hwf. unfold getOrCreateChain. destruct (chains st !! id) as [c|] eqn:Hc; [|done].
  by apply (Hwf _ _ Hc).
Qed.

Lemma getOrCreateChain_chains st st' id :
  chains st = chains st' → getOrCreateChain st id = getOrCreateChain st' id.
Proof. unfold getOrCreateChain. by intros ->. Qed.

(** An attempt that goes through leaves the chain with the answers and
    the tokens as [dTokens] has them. *)
Lemma applyRpcData_Done chain data st st' :
  wf_chains (chains st) → wf_tokens (tokens st) →
  applyRpcData h chain data st = Done st' tt →
  chains st'
  = <[chain_id chain :=
        set_chain_data data
          (hp_nativeTokenId h (chain_id chain)
             (nativeSymbol (chosenSymbols h (chain_id chain) data)))
          (getOrCreateChain st (chain_id chain))]> (chains st)
  ∧ evmNetworks st' = evmNetworks st
  ∧ tokens st' = dTokens h (chain_id chain) data (tokens st)
  ∧ wf_tokens (tokens st').
Proof.
  intros Hwc Hwf. unfold dTokens, applyRpcData. cbn [chain_id newChain].
  destruct (tokenSymbolVariants data) as [variants|]; [|done].
  rewrite reconcileOrmlTokens_frame.
  destruct (reconcileOrmlTokens h (chain_id chain) _ _ _ (mkStore ∅ ∅ (tokens st)))
    as [s []|s] eqn:Hrec; [|done].
  cbn [outcome_bind outcome_store].
  assert (wf_tokens (tokens s)) as Hws.
  { by eapply (reconcileOrmlTokens_wf _ _ _ _ (mkStore ∅ ∅ (tokens st)) s tt). }
  intros [= <-]. cbn [chains evmNetworks tokens saveChain saveToken set_chains set_tokens].
  rewrite (getOrCreateToken_tokens (mkStore (chains st) (evmNetworks st) (tokens s)) s) by done.
  rewrite (getOrCreateChain_chains (mkStore (chains st) (evmNetworks st) (tokens s)) st) by done.
  assert (getOrCreateChain s (chain_id chain) = newChain (chain_id chain)) as Hnew.
  { unfold getOrCreateChain. apply reconcileOrmlTokens_frame_chains in Hrec.
    by rewrite Hrec. }
  rewrite Hnew.
  cbn [token_id set_native_fields chain_id set_chain_data newChain].
  rewrite getOrCreateChain_id by done.
  rewrite getOrCreateToken_id by done.
  split; [reflexivity|]. split; [reflexivity|]. split; [reflexivity|].
  apply map_Forall_insert_2; [|done]. cbn. by apply getOrCreateToken_id.
Qed.
Lemma attemptOnce_attemptData up chain attempt url st :
  attemptOnce h up chain attempt url st
  = match attemptData h up chain attempt url with
    | Some data => applyRpcData h chain data st
    | None => Thrown st
    end
  ∧ (∀ data, attemptData h up chain attempt url = Some data →
       throws (applyRpcData h chain data st) = false).
Proof.
  unfold attemptOnce, attemptData.
  destruct (up_chainRpc up (chain_id chain) attempt url) as [data|]; [|done].
  rewrite (applyRpcData_throws_indep h chain data emptyStore st).
  destruct (applyRpcData h chain data st) as [st' u|st'] eqn:Happly; cbn.
  - split; [done|]. intros ? [= <-]. by rewrite Happly.
  - split; [|done]. by rewrite (applyRpcData_thrown h chain data st st' Happly).
Qed.

Lemma attemptLoop_closed up chain urls remaining attempt st log :
  wf_chains (chains st) → wf_tokens (tokens st) →
  chains st !! chain_id chain = Some chain →
  let r := attemptLoop h up chain urls remaining attempt st log in
  chains r.1
  = <[chain_id chain :=
        match firstSuccess h up chain urls remaining attempt with
        | Some data =>
            set_chain_data data
              (hp_nativeTokenId h (chain_id chain)
                 (nativeSymbol (chosenSymbols h (chain_id chain) data)))
              chain
        | None => set_chain_isHealthy false chain
        end]> (chains st)
  ∧ evmNetworks r.1 = evmNetworks st
  ∧ tokens r.1
    = match firstSuccess h up chain urls remaining attempt with
      | Some data => dTokens h (chain_id chain) data (tokens st)
      | None => tokens st
      end
  ∧ wf_tokens (tokens r.1).
Proof.
  intros Hwc Hwt Hrow. revert attempt log.
  induction remaining as [|remaining IH]; intros attempt log; cbn zeta.
  - cbn. done.
  - cbn [attemptLoop firstSuccess].
    destruct (attemptOnce_attemptData up chain attempt (roundRobin urls attempt) st)
      as [-> Hok].
    destruct (attemptData h up chain attempt (roundRobin urls attempt)) as [data|].
    + specialize (Hok data eq_refl).
      destruct (applyRpcData h chain data st) as [st' []|st'] eqn:Happly; [|done].
      cbn [fst]. apply applyRpcData_Done in Happly as (H1 & H2 & H3 & H4); [|done|done].
      unfold getOrCreateChain in H1. by rewrite Hrow in H1.
    + apply IH.
Qed.

Lemma probedChain_id up chain : chain_id (probedChain up chain) = chain_id chain.
Proof. done. Qed.

Lemma updateOneChain_closed up chain st :
  wf_chains (chains st) → wf_tokens (tokens st) →
  chains (updateOneChain h up chain st).1 = <[chain_id chain := dChain h up chain]> (chains st)
  ∧ evmNetworks (updateOneChain h up chain st).1 = evmNetworks st
  ∧ tokens (updateOneChain h up chain st).1 = dTokensOf h up (tokens st) chain
  ∧ wf_tokens (tokens (updateOneChain h up chain st).1).
Proof.
  intros Hwc Hwt. unfold updateOneChain. cbn zeta. fold (probedChain up chain).
  set (st1 := saveChain (probedChain up chain) st).
  destruct (attemptLoop_closed up (probedChain up chain)
              (healthyUrls (probeSubstrateRpcs up chain))
              (length (healthyUrls (probeSubstrateRpcs up chain)) * 2) 1 st1 [])
    as (H1 & H2 & H3 & H4).
  - subst st1. cbn. by apply map_Forall_insert_2.
  - done.
  - subst st1. cbn. by rewrite lookup_insert_eq.
  - split; [|split; [|split]].
    + rewrite H1. unfold dChain, extractedData. cbn zeta.
      rewrite probedChain_id. subst st1. cbn [chains saveChain set_chains].
      rewrite probedChain_id, insert_insert_eq.
      by destruct (firstSuccess _ _ _ _ _ _).
    + by rewrite H2.
    + rewrite H3. unfold dTokensOf, extractedData. cbn zeta. rewrite probedChain_id.
      by destruct (firstSuccess _ _ _ _ _ _).
    + done.
Qed.

Lemma dChain_id up chain : chain_id (dChain h up chain) = chain_id chain.
Proof. unfold dChain. by destruct (extractedData h up chain). Qed.

Lemma updateChainData_fold up (l : list Chain) st :
  wf_chains (chains st) → wf_tokens (tokens st) →
  let st' := foldl (λ st chain, (updateOneChain h up chain st).1) st l in
  chains st' = insertAll chain_id (map (dChain h up) l) (chains st)
  ∧ evmNetworks st' = evmNetworks st
  ∧ tokens st' = foldl (dTokensOf h up) (tokens st) l
  ∧ wf_tokens (tokens st').
Proof.
  revert st. induction l as [|chain l IH]; intros st Hwc Hwt; cbn zeta; [done|].
  cbn [foldl map]. destruct (updateOneChain_closed up chain st Hwc Hwt) as (H1 & H2 & H3 & H4).
  destruct (IH (updateOneChain h up chain st).1) as (I1 & I2 & I3 & I4).
  - rewrite H1. apply map_Forall_insert_2; [apply dChain_id|done].
  - done.
  - split; [|split; [|split]]; [| |by rewrite I3, H3|done].
    + rewrite I1, H1. unfold insertAll. cbn [foldl]. by rewrite dChain_id.
    + by rewrite I2, H2.
Qed.

Lemma updateChainData_closed up st :
  wf_chains (chains st) → wf_tokens (tokens st) →
  chains (updateChainData h up st) = dChain h up <$> chains st
  ∧ evmNetworks (updateChainData h up st) = evmNetworks st
  ∧ tokens (updateChainData h up st) = foldl (dTokensOf h up) (tokens st) (find (chains st))
  ∧ wf_tokens (tokens (updateChainData h up st)).
Proof.
  intros Hwc Hwt. unfold updateChainData.
  destruct (updateChainData_fold up (find (chains st)) st Hwc Hwt) as (H1 & H2 & H3 & H4).
  split; [|done]. rewrite H1. apply (insertAll_find_fmap chain_id); [done|apply dChain_id].
Qed.
End chain_task.

(** ** The chain rows after the first step *)

Lemma find_fmap {E : Type} (f : E → E) (m : gmap string E) :
  find (f <$> m) = f <$> find m.
Proof.
  unfold find. rewrite dom_fmap_L.
  induction (elements (dom m)) as [|k l IH]; [done|].
  cbn. rewrite lookup_fmap. destruct (m !! k); cbn; by rewrite IH.
Qed.

Lemma upsertChain_fields st g :
  wf_chains (chains st) →
  upsertChain st g
  = upsertFields g (relayResolved (dom (chains st)) g) (getOrCreateChain st (gc_id g)).
Proof.
  intros Hwf. unfold upsertChain, upsertFields, relayResolved. cbn zeta.
  destruct (truthy_string (gc_relay g)) eqn:Htruthy; cbn [andb]; [|done].
  destruct (gc_relay g) as [r|] eqn:Hr; [|done]. cbn [default from_option id].
  destruct (chains st !! r) as [c|] eqn:Hc.
  - rewrite (bool_decide_eq_true_2 (r ∈ _)) by (apply elem_of_dom; eauto).
    rewrite !(bool_decide_eq_true_2 (is_Some _)) by eauto.
    cbn [fmap option_fmap option_map]. by rewrite (Hwf _ _ Hc).
  - rewrite (bool_decide_eq_false_2 (r ∈ _)) by by apply not_elem_of_dom.
    rewrite !(bool_decide_eq_false_2 (is_Some _)) by (intros [? ?]; done). done.
Qed.

Lemma upsertFields_absorb g g' relay relay' base :
  upsertFields g relay (upsertFields g' relay' base) = upsertFields g relay base.
Proof. done. Qed.

Lemma upsertFields_no_paraId g relay relay' base :
  truthy_number (gc_paraId g) = false →
  upsertFields g relay base = upsertFields g relay' base.
Proof. intros Hp. unfold upsertFields. cbn zeta. by rewrite Hp, !andb_false_r. Qed.

Lemma chainsLoop_dom gcs st :
  wf_chains (chains st) →
  dom (chains (chainsLoop gcs st).1) = dom (chains st) ∪ feedChainIds gcs.
Proof. intros Hwf. apply (chainsLoop_spec gcs st (dom (chains st)) Hwf). Qed.

(** Whatever the prefix of the loop did to the row of [k], the next
    record writes over the same carried fields. *)
Lemma chainsLoop_carried pre st k g relay :
  wf_chains (chains st) →
  upsertFields g relay (getOrCreateChain (chainsLoop pre st).1 k)
  = upsertFields g relay (getOrCreateChain st k).
Proof.
  intros Hwf. induction pre as [|g' pre IH] using rev_ind; [done|].
  rewrite chainsLoop_snoc.
  pose proof (chainsLoop_wf pre st Hwf) as Hwf'.
  destruct (chainsLoop pre st) as [st' del] eqn:Hl. cbn [fst snd] in *.
  unfold chainsLoopBody. cbn [fst].
  unfold getOrCreateChain at 1. cbn [chains saveChain set_chains].
  rewrite upsertChain_id by done.
  destruct (decide (gc_id g' = k)) as [<-|Hne].
  - rewrite lookup_insert_eq. cbn [default].
    rewrite upsertChain_fields by done. cbn [id]. rewrite upsertFields_absorb. apply IH.
  - rewrite lookup_insert_ne by done. apply IH.
Qed.

Lemma relaysStable_split known all feed pre g post :
  relaysStable known all feed = true →
  feed = pre ++ g :: post →
  truthy_number (gc_paraId g) = true →
  relayResolved (known ∪ feedChainIds pre) g = relayResolved all g.
Proof.
  revert known feed. induction pre as [|g' pre IH]; intros known feed Hstable ->.
  - cbn in Hstable. apply andb_true_iff in Hstable as [Hg _]. intros Hp.
    rewrite Hp in Hg. cbn in Hg. apply bool_decide_eq_true in Hg.
    replace (known ∪ feedChainIds []) with known; [done|].
    unfold feedChainIds. cbn. set_solver.
  - cbn in Hstable. apply andb_true_iff in Hstable as [_ Hrest]. intros Hp.
    replace (known ∪ feedChainIds (g' :: pre))
      with ((known ∪ {[gc_id g']}) ∪ feedChainIds pre).
    + by apply (IH _ (pre ++ g :: post)).
    + unfold feedChainIds. cbn. set_solver.
Qed.

Lemma filter_none {A : Type} (P : A → Prop) `{∀ x, Decision (P x)} (l : list A) :
  (∀ x, x ∈ l → ¬ P x) → filter P l = [].
Proof.
  induction l as [|y l IH]; intros Hl; [done|].
  rewrite filter_cons_False by (apply Hl; set_solver). apply IH. set_solver.
Qed.

Lemma lastRecord_split pre g post :
  gc_id g ∉ feedChainIds post → lastRecord (pre ++ g :: post) (gc_id g) = Some g.
Proof.
  intros Hpost. unfold lastRecord. rewrite filter_app, filter_cons_True by done.
  replace (filter (λ g0, gc_id g0 = gc_id g) post) with (@nil GithubChain).
  - by rewrite last_snoc.
  - symmetry. apply filter_none. intros g' Hg' Heq. apply Hpost.
    unfold feedChainIds. rewrite elem_of_list_to_set, <- Heq.
    by apply list_elem_of_fmap_2.
Qed.

Lemma lastRecord_None feed k : k ∉ feedChainIds feed → lastRecord feed k = None.
Proof.
  intros Hk. unfold lastRecord.
  replace (filter (λ g, gc_id g = k) feed) with (@nil GithubChain); [done|].
  symmetry. apply filter_none. intros g' Hg' Heq. apply Hk.
  unfold feedChainIds. rewrite elem_of_list_to_set, <- Heq. by apply list_elem_of_fmap_2.
Qed.

Lemma lastRecord_id feed k g : lastRecord feed k = Some g → gc_id g = k.
Proof.
  unfold lastRecord. intros Hl. apply last_Some_elem_of in Hl.
  by apply list_elem_of_filter in Hl as [? _].
Qed.

(** The row the first step leaves for a chain id: the fields of the last
    record of that id, over the row the store had. *)
Lemma updateChainsFromGithub_rows shared st k :
  wf_chains (chains st) →
  (∀ pre g post, githubChains shared = pre ++ g :: post →
     truthy_number (gc_paraId g) = true →
     relayResolved (dom (chains st) ∪ feedChainIds pre) g
     = relayResolved (feedChainIds (githubChains shared)) g) →
  chains (updateChainsFromGithub shared st) !! k
  = (λ g, cRow (githubChains shared) g (getOrCreateChain st k))
      <$> lastRecord (githubChains shared) k.
Proof.
  intros Hwf Hrel.
  destruct (decide (k ∈ feedChainIds (githubChains shared))) as [Hk|Hk].
  - rewrite updateChainsFromGithub_lookup by done.
    unfold feedChainIds in Hk. rewrite elem_of_list_to_set in Hk.
    apply last_occurrence in Hk as (pre & g & post & Hsplit & <- & Hpost).
    assert (gc_id g ∉ feedChainIds post) as Hpost'.
    { unfold feedChainIds. by rewrite elem_of_list_to_set. }
    assert (lastRecord (githubChains shared) (gc_id g) = Some g) as ->.
    { rewrite Hsplit. by apply lastRecord_split. }
    assert (chains (chainsLoop (githubChains shared) st).1 !! gc_id g
            = Some (upsertChain (chainsLoop pre st).1 g)) as ->.
    { rewrite Hsplit. by apply chainsLoop_lookup_last. }
    cbn. f_equal. unfold cRow.
    rewrite upsertChain_fields by by apply chainsLoop_wf.
    rewrite chainsLoop_dom by done. rewrite chainsLoop_carried by done.
    destruct (truthy_number (gc_paraId g)) eqn:Hp.
    + by rewrite (Hrel pre g post Hsplit Hp).
    + by apply upsertFields_no_paraId.
  - rewrite lastRecord_None by done. cbn.
    apply not_elem_of_dom. by rewrite updateChainsFromGithub_dom.
Qed.

(** ** A chain's task on a row the task has already written *)

Section chain_roundtrip.
Variable h : Helpers.
Variable up : Upstream.

Lemma applyRpcData_chain_ext c c' data st :
  chain_id c = chain_id c' → applyRpcData h c data st = applyRpcData h c' data st.
Proof. intros Hid. unfold applyRpcData. by rewrite Hid. Qed.

Lemma firstSuccess_ext c c' urls remaining attempt :
  chain_id c = chain_id c' →
  firstSuccess h up c urls remaining attempt = firstSuccess h up c' urls remaining attempt.
Proof.
  intros Hid. revert attempt. induction remaining as [|n IH]; intros attempt; [done|].
  cbn [firstSuccess]. unfold attemptData. rewrite Hid, IH.
  destruct (up_chainRpc up (chain_id c') attempt (roundRobin urls attempt)); [|done].
  by rewrite (applyRpcData_chain_ext c c').
Qed.

Lemma extractedData_ext c c' :
  chain_id c = chain_id c' → chain_rpcs c = chain_rpcs c' →
  extractedData h up c = extractedData h up c'.
Proof.
  intros Hid Hrpcs. unfold extractedData, probeSubstrateRpcs. cbn zeta.
  rewrite Hid, Hrpcs. by apply firstSuccess_ext.
Qed.

Lemma dChain_roundtrip g relay base sortIndex :
  dChain h up (upsertFields g relay
                 (set_chain_sortIndex sortIndex (dChain h up (upsertFields g relay base))))
  = set_chain_sortIndex sortIndex (dChain h up (upsertFields g relay base)).
Proof.
  set (x := upsertFields g relay base).
  set (y := upsertFields g relay (set_chain_sortIndex sortIndex (dChain h up x))).
  assert (chain_id y = chain_id x) as Hid.
  { unfold y. cbn. by rewrite dChain_id. }
  assert (chain_rpcs y = chain_rpcs x) as Hrpcs by done.
  unfold dChain at 1. rewrite (extractedData_ext y x Hid Hrpcs).
  unfold probedChain, probeSubstrateRpcs. rewrite Hid, Hrpcs.
  clear Hid Hrpcs. subst y. unfold dChain, probedChain, probeSubstrateRpcs.
  destruct (extractedData h up x) as [data|]; reflexivity.
Qed.

End chain_roundtrip.

(** ** The ordering step *)


Lemma lefts_app {A B : Type} (l1 l2 : list (A + B)) : lefts (l1 ++ l2) = lefts l1 ++ lefts l2.
Proof. apply omap_app. Qed.
Lemma rights_app {A B : Type} (l1 l2 : list (A + B)) :
  rights (l1 ++ l2) = rights l1 ++ rights l2.
Proof. apply omap_app. Qed.
Lemma lefts_inl {A B C : Type} (f : C → A) (l : list C) :
  lefts (B:=B) (map (λ c, inl (f c)) l) = map f l.
Proof. induction l as [|x l IH]; cbn; [done|]. unfold lefts in IH. by rewrite IH. Qed.
Lemma lefts_inr {A B C : Type} (f : C → B) (l : list C) :
  lefts (A:=A) (map (λ c, inr (f c)) l) = [].
Proof. induction l as [|x l IH]; cbn; [done|]. apply IH. Qed.
Lemma rights_inr {A B C : Type} (f : C → B) (l : list C) :
  rights (A:=A) (map (λ c, inr (f c)) l) = map f l.
Proof. induction l as [|x l IH]; cbn; [done|]. unfold rights in IH. by rewrite IH. Qed.
Lemma rights_inl {A B C : Type} (f : C → A) (l : list C) :
  rights (B:=B) (map (λ c, inl (f c)) l) = [].
Proof. induction l as [|x l IH]; cbn; [done|]. apply IH. Qed.

Lemma lefts_Permutation {A B : Type} (l l' : list (A + B)) : l ≡ₚ l' → lefts l ≡ₚ lefts l'.
Proof. intros Hp. unfold lefts. by rewrite Hp. Qed.
Lemma rights_Permutation {A B : Type} (l l' : list (A + B)) :
  l ≡ₚ l' → rights l ≡ₚ rights l'.
Proof. intros Hp. unfold rights. by rewrite Hp. Qed.

Lemma insertAll_Permutation {E : Type} (key : E → string) (l l' : list E) m :
  l ≡ₚ l' → NoDup (key <$> l) → insertAll key l m = insertAll key l' m.
Proof.
  intros Hp Hnd. apply map_eq. intros k.
  assert (NoDup (key <$> l')) as Hnd' by by rewrite <- Hp.
  destruct (decide (k ∈ key <$> l)) as [Hk|Hk].
  - apply list_elem_of_fmap in Hk as (x & -> & Hx).
    rewrite (insertAll_lookup_NoDup key l m (key x) x) by done.
    symmetry. apply insertAll_lookup_NoDup; [done| |done]. by rewrite <- Hp.
  - rewrite !insertAll_lookup_notin; [done| |done]. by rewrite <- Hp.
Qed.

Lemma saveSorted_fold l st :
  Forall (λ n, is_Some (evm_id n)) (rights l) →
  chains (foldl saveSorted st l) = insertAll chain_id (lefts l) (chains st)
  ∧ evmNetworks (foldl saveSorted st l) = insertAll evmKey (rights l) (evmNetworks st)
  ∧ tokens (foldl saveSorted st l) = tokens st.
Proof.
  induction l as [|e l IH] using rev_ind; intros Hids; [done|].
  rewrite foldl_snoc, lefts_app, rights_app.
  rewrite rights_app in Hids. apply Forall_app in Hids as [Hl He].
  destruct (IH Hl) as (I1 & I2 & I3).
  destruct e as [c|n]; cbn [saveSorted].
  - change (lefts [inl c]) with [c]. change (rights [inl c]) with (@nil EvmNetwork).
    rewrite app_nil_r, insertAll_snoc. cbn. by rewrite I1, I2, I3.
  - change (lefts [inr n]) with (@nil Chain). change (rights [inr n]) with [n].
    rewrite app_nil_r, insertAll_snoc.
    change (rights [inr n]) with [n] in He.
    apply Forall_singleton in He as [i Hi].
    unfold saveEvmNetwork, evmKey. rewrite Hi. cbn. by rewrite I1, I2, I3.
Qed.

Section ordering.
Variable h : Helpers.
Variables rankC rankN : list Chain → list EvmNetwork → string → option Z.
Hypothesis ranks : ∀ chains evmNetworks,
  hp_sortChainsAndNetworks h chains evmNetworks
  ≡ₚ map (λ c, inl (set_chain_sortIndex
                      (rankC (set_chain_sortIndex None <$> chains)
                         (set_evm_sortIndex None <$> evmNetworks) (chain_id c)) c))
       chains
     ++ map (λ n, inr (set_evm_sortIndex
                         (rankN (set_chain_sortIndex None <$> chains)
                            (set_evm_sortIndex None <$> evmNetworks) (evmKey n)) n))
          evmNetworks.

Local Abbreviation rankedChain := (rankedChain rankC).
Local Abbreviation rankedEvmNetwork := (rankedEvmNetwork rankN).

Lemma updateSortIndexes_closed st :
  wf_chains (chains st) → wf_evmNetworks (evmNetworks st) →
  chains (updateSortIndexes h st) = rankedChain st <$> chains st
  ∧ evmNetworks (updateSortIndexes h st) = rankedEvmNetwork st <$> evmNetworks st
  ∧ tokens (updateSortIndexes h st) = tokens st.
Proof.
  intros Hc Hn. unfold updateSortIndexes.
  pose proof (ranks (find (chains st)) (find (evmNetworks st))) as Hp.
  pose proof (lefts_Permutation _ _ Hp) as HL.
  pose proof (rights_Permutation _ _ Hp) as HR.
  rewrite lefts_app, lefts_inl, lefts_inr, app_nil_r in HL.
  rewrite rights_app, rights_inl, rights_inr in HR. cbn [app] in HR.
  change (map _ (find (chains st))) with (map (rankedChain st) (find (chains st))) in HL.
  change (map _ (find (evmNetworks st)))
    with (map (rankedEvmNetwork st) (find (evmNetworks st))) in HR.
  assert (wf_evm_key : map_Forall (λ k n, evmKey n = k) (evmNetworks st)).
  { intros k n Hk. unfold evmKey. by rewrite (Hn _ _ Hk). }
  assert (Forall (λ n, is_Some (evm_id n))
            (rights (hp_sortChainsAndNetworks h (find (chains st)) (find (evmNetworks st)))))
    as Hids.
  { rewrite HR. apply Forall_forall. intros n' Hn'.
    apply list_elem_of_fmap in Hn' as (n & -> & Hin).
    apply elem_of_find in Hin as (k & Hk). cbn. rewrite (Hn _ _ Hk). eauto. }
  destruct (saveSorted_fold _ st Hids) as (E1 & E2 & E3).
  split; [|split]; [| |done].
  - rewrite E1.
    rewrite (insertAll_Permutation chain_id _ _ _ HL).
    + by apply insertAll_find_fmap.
    + rewrite HL, (fmap_key_preserved chain_id) by done. by apply NoDup_find_keys.
  - rewrite E2.
    rewrite (insertAll_Permutation evmKey _ _ _ HR).
    + by apply insertAll_find_fmap.
    + rewrite HR, (fmap_key_preserved evmKey) by done. by apply NoDup_find_keys.
Qed.

End ordering.

(** ** The chain table after the first two steps *)

Section chain_tables.
Variable h : Helpers.
Variable up : Upstream.
Variable shared : SharedData.

Local Abbreviation feed := (githubChains shared).

Lemma updateChainsFromGithub_frame st :
  wf_chains (chains st) →
  wf_chains (chains (updateChainsFromGithub shared st))
  ∧ evmNetworks (updateChainsFromGithub shared st) = evmNetworks st
  ∧ tokens (updateChainsFromGithub shared st) = tokens st.
Proof.
  intros Hwf. rewrite updateChainsFromGithub_eq.
  destruct (chainsLoop_spec feed st (dom (chains st)) Hwf) as (Hwf' & _ & _ & He & Ht).
  fold (chainsLoop feed st) in Hwf', He, Ht.
  split; [|by split].
  cbn. intros k c Hk. rewrite lookup_deleteIds in Hk.
  case_decide; [done|]. by apply Hwf'.
Qed.

Lemma chains_after_tasks st k :
  wf_chains (chains st) → wf_tokens (tokens st) → relaysKnown feed st →
  chains (updateChainData h up (updateChainsFromGithub shared st)) !! k
  = (λ g, dChain h up (cRow feed g (getOrCreateChain st k))) <$> lastRecord feed k.
Proof.
  intros Hwc Hwt Hrel.
  destruct (updateChainsFromGithub_frame st Hwc) as (Hwc' & _ & Ht).
  destruct (updateChainData_closed h up (updateChainsFromGithub shared st))
    as (-> & _); [done|by rewrite Ht|].
  rewrite lookup_fmap, updateChainsFromGithub_rows by done.
  by destruct (lastRecord feed k).
Qed.

Lemma tasks_frame st :
  wf_chains (chains st) → wf_tokens (tokens st) →
  evmNetworks (updateChainData h up (updateChainsFromGithub shared st)) = evmNetworks st
  ∧ wf_tokens (tokens (updateChainData h up (updateChainsFromGithub shared st))).
Proof.
  intros Hwc Hwt.
  destruct (updateChainsFromGithub_frame st Hwc) as (Hwc' & He & Ht).
  destruct (updateChainData_closed h up (updateChainsFromGithub shared st))
    as (_ & -> & _ & Hwt'); [done|by rewrite Ht|].
  done.
Qed.

(** A store whose chain rows are those of a run, with other sort indices,
    keeps its chain rows through the first two steps. *)
Lemma chains_settled st st' (rank : string → option Z) :
  wf_chains (chains st) → wf_tokens (tokens st') →
  (∀ k, chains st' !! k
        = (λ g, set_chain_sortIndex (rank k)
                  (dChain h up (cRow feed g (getOrCreateChain st k))))
            <$> lastRecord feed k) →
  chains (updateChainData h up (updateChainsFromGithub shared st')) = chains st'.
Proof.
  intros Hwc Hwt' Hrows.
  assert (wf_chains (chains st')) as Hwc'.
  { intros k c Hk. rewrite Hrows in Hk.
    destruct (lastRecord feed k) as [g|]; [|done]. cbn in Hk. injection Hk as <-.
    cbn. rewrite dChain_id. cbn. unfold getOrCreateChain.
    destruct (chains st !! k) as [c|] eqn:Hc; [|done]. apply (Hwc _ _ Hc). }
  assert (dom (chains st') = feedChainIds feed) as Hdom.
  { apply set_eq. intros k. rewrite elem_of_dom, Hrows.
    destruct (decide (k ∈ feedChainIds feed)) as [Hk|Hk].
    - split; [done|]. intros _. unfold feedChainIds in Hk.
      rewrite elem_of_list_to_set in Hk.
      apply last_occurrence in Hk as (pre & g & post & -> & <- & Hpost).
      rewrite lastRecord_split; [by eauto|].
      unfold feedChainIds. by rewrite elem_of_list_to_set.
    - rewrite lastRecord_None by done. split; [|done]. by intros [? ?]. }
  apply map_eq. intros k. rewrite chains_after_tasks; [|done|done|].
  - rewrite Hrows. destruct (lastRecord feed k) as [g|] eqn:Hg; [|done]. cbn. f_equal.
    unfold getOrCreateChain at 1. rewrite Hrows, Hg. cbn.
    unfold cRow. apply dChain_roundtrip.
  - intros pre g post Hsplit _. rewrite Hdom. f_equal.
    rewrite Hsplit. unfold feedChainIds. rewrite fmap_app, list_to_set_app_L. set_solver.
Qed.

End chain_tables.

(** ** The network step on the networks it has already saved *)

Lemma findOneBy_unique {E : Type} (p : E → bool) (m : gmap string E) x :
  x ∈ find m → p x = true → (∀ y, y ∈ find m → p y = true → y = x) →
  findOneBy p m = Some x.
Proof.
  intros Hx Hp Huniq. unfold findOneBy.
  assert (x ∈ filter (λ e, Is_true (p e)) (find m)) as Hin.
  { apply list_elem_of_filter. by rewrite Hp. }
  destruct (filter (λ e, Is_true (p e)) (find m)) as [|y l] eqn:Hf.
  - by apply elem_of_nil in Hin.
  - cbn. f_equal. assert (y ∈ filter (λ e, Is_true (p e)) (find m)) as Hy.
    { rewrite Hf. set_solver. }
    apply list_elem_of_filter in Hy as [Hpy Hy]. apply Huniq; [done|].
    by apply Is_true_true.
Qed.

Lemma findOneBy_None {E : Type} (p : E → bool) (m : gmap string E) :
  (∀ y, y ∈ find m → p y = false) → findOneBy p m = None.
Proof.
  intros Hnone. unfold findOneBy. rewrite filter_none; [done|].
  intros y Hy Hp. apply Is_true_true in Hp. by rewrite (Hnone y Hy) in Hp.
Qed.

Lemma standaloneEntity_over st r :
  standaloneEntity st r
  = standaloneOver r
      (default newEvmNetwork
         (findOneBy (λ e, bool_decide (evm_name e = gn_name r)) (evmNetworks st))).
Proof. done. Qed.

Lemma substrateEntity_over st r :
  substrateEntity st r
  = (λ c, substrateOver r c
            (default newEvmNetwork
               (findOneBy (λ e, bool_decide (evm_substrateChain e = gn_substrateChainId r))
                  (evmNetworks st))))
      <$> chains st !! default "" (gn_substrateChainId r).
Proof.
  unfold substrateEntity. cbn zeta.
  by destruct (chains st !! default "" (gn_substrateChainId r)).
Qed.

Section evm_rerun.
Variable h : Helpers.
Variable up : Upstream.
Variable shared : SharedData.

Ltac probe_cases r :=
  unfold evmUpdateOf, probeEvmNetwork, standaloneOver, substrateOver;
  cbn [evm_id evm_isTestnet evm_sortIndex evm_name evm_explorerUrl evm_rpcs evm_isHealthy
       evm_substrateChain evm_nativeToken set_evm_sortIndex set_evm_nativeToken
       newEvmNetwork];
  generalize (probedRpcs up (feedRpcs r)); generalize (ethereumIds up (feedRpcs r));
  intros ids rpcs; destruct (head (omap (λ id, id) ids)) as [first|];
  cbn [evm_id evm_isTestnet evm_sortIndex evm_name evm_explorerUrl evm_rpcs evm_isHealthy
       evm_substrateChain evm_nativeToken set_evm_sortIndex set_evm_nativeToken
       isStandaloneEntity].

Lemma standalone_rerun r entity u sortIndex :
  evmUpdateOf h up shared (standaloneOver r entity) = Some u →
  evmUpdateOf h up shared (standaloneOver r (set_evm_sortIndex sortIndex u))
  = Some (set_evm_sortIndex sortIndex u).
Proof.
  probe_cases r.
  - intros [= <-]. reflexivity.
  - destruct (evm_id entity) as [id|]; [|done]. intros [= <-]. reflexivity.
Qed.

Lemma standalone_skip r entity :
  evmUpdateOf h up shared (standaloneOver r entity) = None →
  evmUpdateOf h up shared (standaloneOver r newEvmNetwork) = None.
Proof. probe_cases r; done. Qed.

Lemma substrate_rerun r c c' entity u sortIndex :
  chain_isTestnet c' = chain_isTestnet c → chain_name c' = chain_name c →
  chain_id c' = chain_id c → chain_nativeToken c' = chain_nativeToken c →
  evmUpdateOf h up shared (substrateOver r c entity) = Some u →
  evmUpdateOf h up shared (substrateOver r c' (set_evm_sortIndex sortIndex u))
  = Some (set_evm_sortIndex sortIndex u).
Proof.
  intros Ht Hn Hi Hnt. probe_cases r; rewrite Ht, Hn, Hi, Hnt.
  - intros [= <-]. reflexivity.
  - destruct (evm_id entity) as [id|]; [|done]. intros [= <-]. reflexivity.
Qed.

Lemma substrate_skip r c c' entity :
  evmUpdateOf h up shared (substrateOver r c entity) = None →
  evmUpdateOf h up shared (substrateOver r c' newEvmNetwork) = None.
Proof. probe_cases r; done. Qed.

End evm_rerun.

Lemma NoDup_fmap_inj {A B : Type} (f : A → B) (l : list A) x y :
  NoDup (f <$> l) → x ∈ l → y ∈ l → f x = f y → x = y.
Proof.
  induction l as [|z l IH]; [by intros _ ?%elem_of_nil|].
  rewrite fmap_cons, NoDup_cons. intros [Hz Hnd] Hx Hy Heq.
  apply elem_of_cons in Hx as [->|Hx], Hy as [->|Hy]; [done| | |by apply IH].
  - exfalso. apply Hz. rewrite Heq. by apply list_elem_of_fmap_2.
  - exfalso. apply Hz. rewrite <- Heq. by apply list_elem_of_fmap_2.
Qed.

Lemma omap_ext_in {A B : Type} (f g : A → option B) (l : list A) :
  (∀ x, x ∈ l → f x = g x) → omap f l = omap g l.
Proof.
  induction l as [|x l IH]; intros Hfg; [done|].
  cbn. rewrite (Hfg x) by set_solver. rewrite IH; [done|]. intros y Hy. apply Hfg. set_solver.
Qed.

Lemma omap_map {A B C : Type} (f : B → option C) (g : A → B) (l : list A) :
  omap f (map g l) = omap (λ x, f (g x)) l.
Proof. induction l as [|x l IH]; [done|]. cbn. by rewrite IH. Qed.

Lemma omap_omap {A B C : Type} (f : B → option C) (g : A → option B) (l : list A) :
  omap f (omap g l) = omap (λ x, g x ≫= f) l.
Proof.
  induction l as [|x l IH]; [done|]. cbn. destruct (g x) as [y|]; cbn; by rewrite IH.
Qed.

Lemma fmap_omap {A B C : Type} (f : B → C) (g : A → option B) (l : list A) :
  f <$> omap g l = omap (λ x, f <$> g x) l.
Proof.
  induction l as [|x l IH]; [done|]. cbn. destruct (g x) as [y|]; cbn; by rewrite IH.
Qed.

Section evm_settled.
Variable h : Helpers.
Variable up : Upstream.
Variable shared : SharedData.
Variables st st' : Store.
Variables rankC rankN : string → option Z.

Local Abbreviation rkC := (λ c, set_chain_sortIndex (rankC (chain_id c)) c).
Local Abbreviation rkN := (λ n, set_evm_sortIndex (rankN (evmKey n)) n).
Local Abbreviation U1 := (evmNetworkUpdates h up shared st).
Local Abbreviation N1 := (evmNetworks (updateEvmNetworksFromGithub h up shared st)).

Hypothesis Hwf : wf_store st.
Hypothesis Hdistinct : evmFeedDistinct shared.
Hypothesis Hsettled : evmUpdatesSettled h up shared st.
Hypothesis Hwt' : wf_tokens (tokens st').
Hypothesis Hchains' : chains st' = rkC <$> chains st.
Hypothesis Hevm' : evmNetworks st' = rkN <$> N1.

Lemma settled_table k n : N1 !! k = Some n ↔ n ∈ U1 ∧ evm_id n = Some k.
Proof.
  destruct Hsettled as [Hnd Hall]. split.
  - intros Hn. apply (evm_persisted_is_last_update h up shared st Hwf) in Hn
      as (pre & post & HU & Hid & _).
    split; [|done]. rewrite HU. set_solver.
  - intros [Hn Hid]. pose proof Hn as Hsplit.
    apply list_elem_of_split in Hsplit as (pre & post & HU).
    apply (evm_last_update_is_persisted h up shared st Hwf pre n post k HU Hid).
    + intros u Hu Hidu. rewrite HU, fmap_app, fmap_cons in Hnd.
      apply NoDup_app in Hnd as (_ & _ & Hnd). apply NoDup_cons in Hnd as [Hnin _].
      apply Hnin. rewrite (evmKey_id n k Hid), <- (evmKey_id u k Hidu).
      by apply list_elem_of_fmap_2.
    + intros old Hold. exists n. split; [done|]. split; [done|].
      rewrite Forall_forall in Hall. destruct (Hall n Hn) as [_ Hkind].
      by rewrite (evmKey_id n k Hid), Hold in Hkind.
Qed.

Lemma settled_rows y : y ∈ find (evmNetworks st') ↔ ∃ u, u ∈ U1 ∧ y = rkN u.
Proof.
  rewrite Hevm', elem_of_find. split.
  - intros (k & Hk). rewrite lookup_fmap in Hk.
    destruct (N1 !! k) as [n|] eqn:Hn; [|done]. injection Hk as <-.
    apply settled_table in Hn as [Hn _]. eauto.
  - intros (u & Hu & ->).
    pose proof (evm_update_key h up shared st Hwf u Hu) as Hid.
    exists (evmKey u). rewrite lookup_fmap.
    assert (N1 !! evmKey u = Some u) as -> by by apply settled_table.
    done.
Qed.

Lemma wf_settled_store : wf_store st'.
Proof.
  destruct Hwf as (Hwc & Hwn & Hwt). split; [|split]; [| |done].
  - rewrite Hchains'. intros k c Hk. rewrite lookup_fmap in Hk.
    destruct (chains st !! k) as [c0|] eqn:Hc; [|done]. injection Hk as <-.
    apply (Hwc _ _ Hc).
  - rewrite Hevm'. intros k n Hk. rewrite lookup_fmap in Hk.
    destruct (N1 !! k) as [n0|] eqn:Hn; [|done]. injection Hk as <-.
    by apply settled_table in Hn as [_ Hid].
Qed.

Lemma standalone_update_in r u :
  r ∈ standaloneRecords shared →
  evmUpdateOf h up shared (standaloneEntity st r) = Some u → u ∈ U1.
Proof.
  intros Hr Hu. rewrite (evmNetworkUpdates_eq h up shared st Hwf).
  apply list_elem_of_omap. exists (standaloneEntity st r). split; [|done].
  unfold incomingEvmNetworks. apply elem_of_app. left.
  by apply list_elem_of_fmap_2.
Qed.

Lemma substrate_update_in r e u :
  r ∈ substrateRecords shared → substrateEntity st r = Some e →
  evmUpdateOf h up shared e = Some u → u ∈ U1.
Proof.
  intros Hr He Hu. rewrite (evmNetworkUpdates_eq h up shared st Hwf).
  apply list_elem_of_omap. exists e. split; [|done].
  unfold incomingEvmNetworks. apply elem_of_app. right.
  apply list_elem_of_omap. eauto.
Qed.

(** Where an update of the first run comes from. *)
Lemma update_origin u :
  u ∈ U1 →
  (∃ r, r ∈ standaloneRecords shared
     ∧ evmUpdateOf h up shared (standaloneEntity st r) = Some u)
  ∨ (∃ r e, r ∈ substrateRecords shared ∧ substrateEntity st r = Some e
       ∧ evmUpdateOf h up shared e = Some u).
Proof.
  rewrite (evmNetworkUpdates_eq h up shared st Hwf).
  intros (e & He & Hu)%list_elem_of_omap.
  unfold incomingEvmNetworks in He. apply elem_of_app in He as [He|He].
  - left. apply list_elem_of_fmap in He as (r & -> & Hr). eauto.
  - right. apply list_elem_of_omap in He as (r & Hr & He). eauto.
Qed.

Lemma standalone_name_unique r u :
  r ∈ standaloneRecords shared → u ∈ U1 → evm_name u = gn_name r →
  evmUpdateOf h up shared (standaloneEntity st r) = Some u.
Proof.
  intros Hr Hu Hname. destruct Hdistinct as [Hnames _].
  destruct Hsettled as [_ Hall]. rewrite Forall_forall in Hall.
  destruct (update_origin u Hu) as [(r' & Hr' & Hu')|(r' & e & Hr' & He & Hu')].
  - pose proof Hu' as Hf. apply evmUpdateOf_Some in Hf as (_ & _ & _ & Hn & _).
    cbn in Hn. rewrite Hname in Hn.
    by rewrite (NoDup_fmap_inj gn_name _ r r' Hnames Hr Hr' Hn).
  - exfalso. destruct (Hall u Hu) as [Hsub _]. apply Hsub.
    + apply evmUpdateOf_Some in Hu' as (_ & _ & _ & _ & Hs & _).
      apply substrateEntity_Some in He as (c & _ & Hc & _).
      unfold isSubstrateEntity. rewrite Hs, Hc. by apply Is_true_true, bool_decide_eq_true.
    + rewrite Hname. by apply list_elem_of_fmap_2.
Qed.

Lemma substrate_chain_unique r u :
  r ∈ substrateRecords shared → u ∈ U1 →
  evm_substrateChain u = gn_substrateChainId r →
  ∃ e, substrateEntity st r = Some e ∧ evmUpdateOf h up shared e = Some u.
Proof.
  intros Hr Hu Hchain. destruct Hdistinct as [_ Hchains].
  pose proof Hr as Hrec. apply list_elem_of_filter in Hrec as [Hrec _].
  apply Is_true_true, bool_decide_eq_true in Hrec. destruct Hrec as [sid Hsid].
  destruct (update_origin u Hu) as [(r' & Hr' & Hu')|(r' & e & Hr' & He & Hu')].
  - apply evmUpdateOf_Some in Hu' as (_ & _ & _ & _ & Hs & _).
    cbn in Hs. rewrite Hs, Hsid in Hchain. done.
  - exists e. split; [|done].
    pose proof Hu' as Hf. apply evmUpdateOf_Some in Hf as (_ & _ & _ & _ & Hs & _).
    pose proof He as Hf. apply substrateEntity_Some in Hf as (c & Hc & Hsc & _).
    pose proof Hr' as Hrec'. apply list_elem_of_filter in Hrec' as [Hrec' _].
    apply Is_true_true, bool_decide_eq_true in Hrec'. destruct Hrec' as [sid' Hsid'].
    destruct Hwf as (Hwc & _). pose proof (Hwc _ _ Hc) as Hcid. cbn in Hcid.
    rewrite Hsid' in Hcid. cbn in Hcid.
    assert (gn_substrateChainId r = gn_substrateChainId r') as Heq.
    { rewrite <- Hchain, Hs, Hsc, Hcid. done. }
    by rewrite (NoDup_fmap_inj gn_substrateChainId _ r r' Hchains Hr Hr' Heq).
Qed.

Lemma standalone_settled r :
  r ∈ standaloneRecords shared →
  evmUpdateOf h up shared (standaloneEntity st' r)
  = rkN <$> evmUpdateOf h up shared (standaloneEntity st r).
Proof.
  intros Hr. rewrite (standaloneEntity_over st' r).
  destruct (evmUpdateOf h up shared (standaloneEntity st r)) as [u|] eqn:Hu.
  - assert (u ∈ U1) as Hin by by apply (standalone_update_in r).
    assert (evm_name u = gn_name r) as Hname.
    { by apply evmUpdateOf_Some in Hu as (_ & _ & _ & Hn & _). }
    rewrite (findOneBy_unique _ _ (rkN u)).
    + cbn [default from_option id fmap option_fmap option_map].
      rewrite standaloneEntity_over in Hu. exact (standalone_rerun h up shared r _ u _ Hu).
    + apply settled_rows. eauto.
    + by apply bool_decide_eq_true.
    + intros y (u' & Hu' & ->)%settled_rows Hp. apply bool_decide_eq_true in Hp.
      cbn in Hp. pose proof (standalone_name_unique r u' Hr Hu' Hp) as Hu2.
      rewrite Hu in Hu2. by injection Hu2 as <-.
  - rewrite findOneBy_None.
    + rewrite standaloneEntity_over in Hu. cbn [default from_option id].
      exact (standalone_skip h up shared r _ Hu).
    + intros y (u' & Hu' & ->)%settled_rows. apply bool_decide_eq_false. intros Hp.
      cbn in Hp. pose proof (standalone_name_unique r u' Hr Hu' Hp) as Hu2.
      by rewrite Hu in Hu2.
Qed.

Lemma substrate_settled r :
  r ∈ substrateRecords shared →
  substrateEntity st' r ≫= evmUpdateOf h up shared
  = rkN <$> (substrateEntity st r ≫= evmUpdateOf h up shared).
Proof.
  intros Hr. rewrite (substrateEntity_over st' r), Hchains', lookup_fmap.
  pose proof Hr as Hrec. apply list_elem_of_filter in Hrec as [Hrec _].
  apply Is_true_true, bool_decide_eq_true in Hrec. destruct Hrec as [sid Hsid].
  destruct (substrateEntity st r) as [e|] eqn:He.
  - pose proof He as Hf. rewrite substrateEntity_over in Hf.
    destruct (chains st !! default "" (gn_substrateChainId r)) as [c|] eqn:Hc; [|done].
    cbn in Hf. injection Hf as Hf. cbn [fmap option_fmap option_map mbind option_bind].
    assert (chain_id c = sid) as Hcid.
    { destruct Hwf as (Hwc & _). pose proof (Hwc _ _ Hc) as Hcid.
      by rewrite Hsid in Hcid. }
    destruct (evmUpdateOf h up shared e) as [u|] eqn:Hu.
    + assert (u ∈ U1) as Hin by by apply (substrate_update_in r e).
      assert (evm_substrateChain u = gn_substrateChainId r) as Hsub.
      { apply evmUpdateOf_Some in Hu as (_ & _ & _ & _ & Hs & _).
        rewrite Hs, <- Hf, Hsid. cbn. by rewrite Hcid. }
      rewrite (findOneBy_unique _ _ (rkN u)).
      * cbn [default from_option id]. rewrite <- Hf in Hu.
        by apply (substrate_rerun h up shared r c _ _ u _ eq_refl eq_refl eq_refl eq_refl Hu).
      * apply settled_rows. eauto.
      * by apply bool_decide_eq_true.
      * intros y (u' & Hu' & ->)%settled_rows Hp. apply bool_decide_eq_true in Hp.
        cbn in Hp. destruct (substrate_chain_unique r u' Hr Hu' Hp) as (e' & He' & Hu2).
        rewrite He in He'. injection He' as <-. rewrite Hu in Hu2. by injection Hu2 as <-.
    + rewrite findOneBy_None.
      * cbn [default from_option id]. rewrite <- Hf in Hu.
        exact (substrate_skip h up shared r c _ _ Hu).
      * intros y (u' & Hu' & ->)%settled_rows. apply bool_decide_eq_false. intros Hp.
        cbn in Hp. destruct (substrate_chain_unique r u' Hr Hu' Hp) as (e' & He' & Hu2).
        rewrite He in He'. injection He' as <-. by rewrite Hu in Hu2.
  - rewrite substrateEntity_over in He.
    by destruct (chains st !! default "" (gn_substrateChainId r)).
Qed.

Lemma updates_settled : evmNetworkUpdates h up shared st' = rkN <$> U1.
Proof.
  rewrite (evmNetworkUpdates_eq h up shared st' wf_settled_store).
  rewrite (evmNetworkUpdates_eq h up shared st Hwf).
  unfold incomingEvmNetworks, standaloneEvmNetworks, substrateEvmNetworks.
  fold (standaloneRecords shared). fold (substrateRecords shared).
  rewrite !omap_app, fmap_app, !omap_map, !omap_omap, !fmap_omap. f_equal.
  - apply omap_ext_in. intros r Hr. by apply standalone_settled.
  - apply omap_ext_in. intros r Hr. by apply substrate_settled.
Qed.

(** The step leaves the networks of the store as they are. *)
Lemma evmNetworks_settled :
  evmNetworks (updateEvmNetworksFromGithub h up shared st') = evmNetworks st'.
Proof.
  pose proof wf_settled_store as Hwf'.
  rewrite (updateEvmNetworksFromGithub_eq h up shared st' Hwf').
  cbn [evmNetworks set_evmNetworks].
  destruct (evmLoopFinal_store h up shared st' Hwf') as (_ & -> & _).
  destruct Hsettled as [Hnd Hall].
  apply map_eq. intros k. rewrite lookup_deleteIds.
  assert (insertAll evmKey (evmNetworkUpdates h up shared st') (evmNetworks st') !! k
          = evmNetworks st' !! k) as Hins.
  { rewrite updates_settled.
    destruct (decide (k ∈ evmKey <$> U1)) as [Hk|Hk].
    - apply list_elem_of_fmap in Hk as (u & -> & Hu).
      rewrite (insertAll_lookup_NoDup evmKey _ _ (evmKey u) (rkN u)).
      + rewrite Hevm', lookup_fmap.
        assert (N1 !! evmKey u = Some u) as ->; [|done].
        apply settled_table. split; [done|]. by apply (evm_update_key h up shared st Hwf).
      + by rewrite <- list_fmap_compose.
      + by apply (list_elem_of_fmap_2 rkN).
      + done.
    - rewrite insertAll_lookup_notin; [done|]. by rewrite <- list_fmap_compose. }
  case_decide as Hdel; [|done].
  apply (elem_of_evmDeleted h up shared st' Hwf') in Hdel as (old & Hold & Hno).
  exfalso. rewrite Hevm', lookup_fmap in Hold.
  destruct (N1 !! k) as [n|] eqn:Hn; [|done]. injection Hold as <-.
  apply settled_table in Hn as [Hn Hid].
  apply (Hno (rkN n)); [|done|done].
  rewrite updates_settled. by apply (list_elem_of_fmap_2 rkN).
Qed.

End evm_settled.

(** ** Patches *)

Lemma token_eta t :
  mkToken (token_id t) (token_isTypeOf t) (token_isTestnet t) (token_symbol t)
    (token_decimals t) (token_coingeckoId t) (token_rates t) (token_existentialDeposit t)
    (token_stateKey t) (token_contractAddress t) (token_chain t) (token_evmNetwork t)
  = t.
Proof. by destruct t. Qed.

Lemma applyPatch_empty t : applyPatch emptyPatch t = t.
Proof. apply token_eta. Qed.

Lemma default_over {A : Type} (a : A) (q p : option A) :
  default (default a p) q = default a (from_option Some p q).
Proof. by destruct q. Qed.

Lemma applyPatch_over q p t : applyPatch q (applyPatch p t) = applyPatch (overPatch q p) t.
Proof. unfold applyPatch, overPatch. cbn. by rewrite !default_over. Qed.

Lemma default_twice {A : Type} (a : A) (p : option A) : default (default a p) p = default a p.
Proof. by destruct p. Qed.

Lemma applyPatch_twice p t : applyPatch p (applyPatch p t) = applyPatch p t.
Proof. unfold applyPatch. cbn. by rewrite !default_twice. Qed.

Lemma default_absorb {A : Type} (a : A) (q p : option A) :
  default (default (default a q) p) q = default (default a p) q.
Proof. by destruct q. Qed.

(** A patch applied around another is absorbed by a second application. *)
Lemma applyPatch_absorb q p t :
  applyPatch q (applyPatch p (applyPatch q t)) = applyPatch q (applyPatch p t).
Proof. unfold applyPatch. cbn. by rewrite !default_absorb. Qed.

Lemma sim_refl t : sim t t.
Proof. by repeat split. Qed.

Lemma sim_sym t t' : sim t t' → sim t' t.
Proof. intros (?&?&?&?&?&?&?&?&?&?). by repeat split. Qed.

Lemma sim_trans t t' t'' : sim t t' → sim t' t'' → sim t t''.
Proof.
  intros (?&?&?&?&?&?&?&?&?&?) (?&?&?&?&?&?&?&?&?&?). repeat split; congruence.
Qed.

Lemma sim_applyPatch p t t' : sim t t' → sim (applyPatch p t) (applyPatch p t').
Proof.
  intros (H1&H2&H3&H4&H5&H6&H7&H8&H9&H10). unfold applyPatch, sim. cbn.
  by rewrite H1, H2, H3, H4, H5, H6, H7, H8, H9, H10.
Qed.

Lemma sim_cls t t' : sim t t' → cls t = cls t'.
Proof. intros (_&H2&_&_&_&_&_&_&H9&_). unfold cls. by rewrite H2, H9. Qed.

Lemma applyPatch_kind p t : token_isTypeOf (applyPatch p t) = token_isTypeOf t.
Proof. done. Qed.

Lemma renameOnly_cls p t : renameOnly p → cls (applyPatch p t) = cls t.
Proof. intros (_&_&_&_&Hc&_). unfold cls, applyPatch. cbn. by rewrite Hc. Qed.

Lemma renameOnly_over q p : renameOnly q → renameOnly p → renameOnly (overPatch q p).
Proof.
  intros (H1&H2&H3&H4&H5&H6) (I1&I2&I3&I4&I5&I6). unfold renameOnly, overPatch. cbn.
  by rewrite H1, H2, H3, H4, H5, H6, I1, I2, I3, I4, I5, I6.
Qed.

Lemma renameOnly_empty : renameOnly emptyPatch.
Proof. by repeat split. Qed.

Lemma renameOnly_renamePatch r : renameOnly (renamePatch r).
Proof. by repeat split. Qed.

Lemma applyRename_patch r t : applyRename r t = applyPatch (renamePatch r) t.
Proof.
  unfold applyRename, applyPatch, renamePatch. cbn.
  by destruct (truthy_string (gt_symbol r)), (truthy_string (gt_coingeckoId r)).
Qed.

Lemma set_orml_fields_patch symbol decimals stateKey chainId t :
  set_orml_fields symbol decimals stateKey chainId t
  = applyPatch (ormlPatch symbol decimals stateKey chainId) t.
Proof. done. Qed.

Lemma set_native_fields_patch symbol decimals existentialDeposit t :
  set_native_fields symbol decimals existentialDeposit t
  = applyPatch (nativePatch symbol decimals existentialDeposit) t.
Proof. done. Qed.

Lemma set_symbol_decimals_patch symbol decimals t :
  set_symbol_decimals symbol decimals t = applyPatch (evmNativePatch symbol decimals) t.
Proof. done. Qed.

Lemma set_erc20_fields_patch erc20 evmNetwork t :
  set_erc20_fields erc20 evmNetwork t = applyPatch (erc20Patch erc20 evmNetwork) t.
Proof. done. Qed.

(** ** Rows *)

Lemma gocRow_kind kind id x : token_isTypeOf (gocRow kind id x) = kind.
Proof. unfold gocRow. destruct x as [t|]; [|done]. by case_decide. Qed.

Lemma gocRow_same kind id t : token_isTypeOf t = kind → gocRow kind id (Some t) = t.
Proof. intros Hk. unfold gocRow. by rewrite decide_True. Qed.

Lemma gocRow_other kind id t :
  token_isTypeOf t ≠ kind → gocRow kind id (Some t) = newToken kind id.
Proof. intros Hk. unfold gocRow. by rewrite decide_False. Qed.

Lemma makeRow_makeRow kind q p id x :
  makeRow kind q id (makeRow kind p id x) = makeRow kind (overPatch q p) id x.
Proof.
  unfold makeRow. rewrite gocRow_same by (cbn; apply gocRow_kind).
  by rewrite applyPatch_over.
Qed.

Lemma getOrCreateToken_gocRow st kind id :
  getOrCreateToken st kind id = gocRow kind id (tokens st !! id).
Proof. done. Qed.

(** ** Sequences of saves and removals on a row *)

Lemma settling_twice f (g : Token → Token) :
  settling f → (∀ t, sim (g t) t) → (∀ t t', sim t t' → g t = g t') →
  ∀ x, g <$> f (g <$> f x) = g <$> f x.
Proof.
  intros (acc & p & dflt & Hs & Hacc & Hd) Hg1 Hg2 x.
  assert (∀ d0, dflt = Some d0 → g <$> f (Some (g d0)) = Some (g d0)) as Hdflt.
  { intros d0 ->. rewrite (Hs (Some (g d0))).
    destruct (acc (g d0)) eqn:Ha; [|done]. cbn. f_equal. apply Hg2.
    apply (sim_trans _ (applyPatch p d0)); [|by apply Hd].
    by apply sim_applyPatch. }
  assert (g <$> f None = g <$> dflt) as Hnone by by rewrite (Hs None).
  assert (g <$> f (g <$> dflt) = g <$> dflt) as Hdflt'.
  { destruct dflt as [d0|]; [by apply Hdflt|done]. }
  destruct x as [t|]; [|by rewrite Hnone].
  rewrite (Hs (Some t)). destruct (acc t) eqn:Ha; [|done].
  cbn. rewrite (Hs (Some (g (applyPatch p t)))).
  rewrite (Hacc t (g (applyPatch p t)) Ha (Hg1 _)). cbn. f_equal. apply Hg2.
  rewrite <- (applyPatch_twice p t) at 2. by apply sim_applyPatch.
Qed.

Lemma rowInv_settling strict K f : rowInv strict K f → settling f.
Proof.
  intros (acc & p & dflt & Hs & I2 & I3 & I4 & _). exists acc, p, dflt.
  split; [done|]. split.
  - intros t t' Ha Hsim. rewrite (I2 t' (applyPatch p t)) by by apply sim_cls.
    by apply I3.
  - intros d0 ->. by destruct I4 as (? & _).
Qed.

Lemma rowInv_start : rowInv true [] (λ x, x).
Proof.
  exists (λ _, true), emptyPatch, None. split; [|split; [|split; [|split]]].
  - intros [t|]; [|done]. by rewrite applyPatch_empty.
  - done.
  - done.
  - split; [apply renameOnly_empty|done].
  - right. done.
Qed.

Lemma rowInv_ext strict K f f' : (∀ x, f' x = f x) → rowInv strict K f → rowInv strict K f'.
Proof.
  intros Hext (acc & p & dflt & Hs & HI). exists acc, p, dflt. split; [|done].
  intros x. by rewrite Hext.
Qed.

Lemma rowInv_mono strict K K' f :
  (∀ c, c ∈ K → c ∈ K') → rowInv strict K f → rowInv strict K' f.
Proof.
  intros HK (acc & p & dflt & Hs & I2 & I3 & I4 & I5). exists acc, p, dflt.
  split; [done|]. split; [done|]. split; [done|]. split.
  - destruct dflt as [d0|]; [|done]. destruct I4 as (H1 & H2 & H3 & H4).
    split; [done|]. split; [done|]. split; [|done].
    intros Hk. destruct (H3 Hk) as (c & Hc & Hch). eauto.
  - destruct I5 as [I5|I5]; [by left|right].
    intros t Ha. destruct (I5 t Ha) as [(Hk & c & Hc & Hch)|Hd]; [|by right].
    left. split; [done|]. eauto.
Qed.

Lemma isOrmlOf_cls c t t' : cls t = cls t' → isOrmlOf c t = isOrmlOf c t'.
Proof.
  unfold cls, isOrmlOf. intros [= Hk Hc]. rewrite Hk in *.
  destruct (token_isTypeOf t'); [done| |done]. by rewrite Hc.
Qed.

Lemma isOrmlOf_true c t :
  isOrmlOf c t = true ↔ token_isTypeOf t = OrmlToken ∧ token_chain t = Some c.
Proof.
  unfold isOrmlOf. by rewrite andb_true_iff, !bool_decide_eq_true.
Qed.

(** The removal of the orml tokens a chain no longer has. *)
Lemma rowInv_kill strict K f c :
  c ∉ K → rowInv strict K f → rowInv strict (c :: K) (λ x, killRow (isOrmlOf c) (f x)).
Proof.
  intros Hc (acc & p & dflt & Hs & I2 & I3 & I4 & I5).
  destruct dflt as [d0|].
  - destruct I4 as (H1 & H2 & H3 & H4).
    assert (isOrmlOf c d0 = false) as Hd0.
    { destruct (isOrmlOf c d0) eqn:HP; [|done]. apply isOrmlOf_true in HP as [Hk Hch].
      destruct (H3 Hk) as (c' & Hc' & Hch'). congruence. }
    apply (rowInv_mono strict K); [set_solver|].
    exists acc, p, (Some d0). split; [|by repeat (split; [done|])].
    intros x. rewrite (Hs x). destruct x as [t|]; cbn; [|by rewrite Hd0].
    destruct (acc t) eqn:Ha; cbn; [|by rewrite Hd0].
    by rewrite (isOrmlOf_cls c _ d0 (H2 t Ha)), Hd0.
  - destruct I4 as [Hr Hstrict].
    exists (λ t, acc t && negb (isOrmlOf c t)), p, None.
    split; [|split; [|split; [|split]]].
    + intros x. rewrite (Hs x). destruct x as [t|]; [|done].
      destruct (acc t); [|done]. cbn.
      rewrite (isOrmlOf_cls c _ t (renameOnly_cls p t Hr)). by destruct (isOrmlOf c t).
    + intros t t' Hcls. by rewrite (I2 t t' Hcls), (isOrmlOf_cls c t t' Hcls).
    + intros t [Ha HP]%andb_true_iff. apply andb_true_iff. split; [by apply I3|].
      by rewrite (isOrmlOf_cls c _ t (renameOnly_cls p t Hr)).
    + done.
    + destruct I5 as [I5|I5]; [left; intros t; by rewrite I5|right].
      intros t [Ha|HP]%andb_false_iff.
      * destruct (I5 t Ha) as [(Hk & c' & Hc' & Hch)|(d0 & Hd & _)]; [|done].
        left. split; [done|]. exists c'. split; [set_solver|done].
      * apply negb_false_iff, isOrmlOf_true in HP as [Hk Hch].
        left. split; [done|]. exists c. split; [set_solver|done].
Qed.

Lemma cls_applyPatch_made kind q c t t' :
  (kind = OrmlToken → p_chain q = Some (Some c)) →
  token_isTypeOf t = kind → token_isTypeOf t' = kind →
  cls (applyPatch q t) = cls (applyPatch q t').
Proof.
  intros Hq Hk Hk'. unfold cls. cbn. rewrite Hk, Hk'.
  destruct kind; [done| |done]. by rewrite Hq.
Qed.

(** A save after [getOrCreateToken], of a native token or of an orml
    token of a chain that had no turn yet. *)
Lemma rowInv_make K K' f kind q c id :
  rowInv true K f →
  (∀ c', c' ∈ K → c' ∈ K') →
  (kind = OrmlToken → c ∈ K' ∧ c ∉ K ∧ p_chain q = Some (Some c)) →
  kind ≠ Erc20Token →
  rowInv true K' (λ x, makeRow kind q id (f x)).
Proof.
  intros (acc & p & dflt & Hs & I2 & I3 & I4 & I5) HK Hq Hkind.
  assert (∀ t, token_isTypeOf t = kind → acc t = true → acc (applyPatch q t) = true)
    as Hfresh.
  { intros t Hk Ha. destruct (acc (applyPatch q t)) eqn:Ha'; [done|exfalso].
    destruct I5 as [I5|I5]; [by rewrite I5 in Ha|].
    destruct (I5 _ Ha') as [(Hk' & c' & Hc' & Hch)|(d0 & -> & Hd)].
    - cbn in Hk'. rewrite Hk in Hk'. destruct (Hq Hk') as (_ & Hc & Hqc).
      cbn in Hch. rewrite Hqc in Hch. cbn in Hch. congruence.
    - cbn in Hd. destruct I4 as (_ & H2 & _).
      destruct (acc t) eqn:Hat; [|done].
      apply Hd. rewrite Hk.
      (* the accepted rows are of the kind of [d0] *)
      pose proof (H2 t Hat) as Hcls. unfold cls in Hcls. cbn in Hcls.
      injection Hcls as Hcls _. congruence. }
  assert (∀ t t', token_isTypeOf t = kind → token_isTypeOf t' = kind →
            cls (applyPatch q t) = cls (applyPatch q t')) as Hcls.
  { intros t t'. apply (cls_applyPatch_made kind q c). intros Hk. by destruct (Hq Hk) as (_&_&?). }
  assert (token_isTypeOf (applyPatch q (newToken kind id)) = OrmlToken →
          ∃ c0, c0 ∈ K' ∧ token_chain (applyPatch q (newToken kind id)) = Some c0) as Horml.
  { cbn. intros Hk. destruct (Hq Hk) as (Hc & _ & Hqc). exists c. by rewrite Hqc. }
  destruct dflt as [d0|].
  - destruct I4 as (H1 & H2 & H3 & H4).
    destruct (decide (token_isTypeOf d0 = kind)) as [Hd0|Hd0].
    + exists acc, (overPatch q p), (Some (applyPatch q d0)).
      split; [|split; [|split; [|split]]].
      * intros x. rewrite (Hs x). unfold makeRow. destruct x as [t|].
        -- destruct (acc t) eqn:Ha.
           ++ rewrite gocRow_same, applyPatch_over; [done|].
              pose proof (H2 t Ha) as Hc. unfold cls in Hc. injection Hc as Hc _.
              cbn in Hc. cbn. congruence.
           ++ by rewrite gocRow_same.
        -- by rewrite gocRow_same.
      * done.
      * intros t Ha. rewrite <- applyPatch_over. apply Hfresh; [|by apply I3].
        pose proof (H2 t Ha) as Hc. unfold cls in Hc. injection Hc as Hc _.
        cbn in Hc. cbn. congruence.
      * split; [|split; [|split]].
        -- rewrite <- applyPatch_over, applyPatch_absorb. by apply sim_applyPatch.
        -- intros t Ha. rewrite <- applyPatch_over. apply Hcls; [|done].
           pose proof (H2 t Ha) as Hc. unfold cls in Hc. injection Hc as Hc _.
           cbn in Hc. cbn. congruence.
        -- cbn. intros Hk. rewrite Hd0 in Hk. destruct (Hq Hk) as (Hc & _ & Hqc).
           exists c. by rewrite Hqc.
        -- cbn. congruence.
      * destruct I5 as [I5|I5]; [by left|right].
        intros t Ha. destruct (I5 t Ha) as [(Hk & c' & Hc' & Hch)|(d0' & [= <-] & Hd)].
        -- left. split; [done|]. eauto.
        -- right. exists (applyPatch q d0). by split.
    + exists (λ _, false), emptyPatch, (Some (applyPatch q (newToken kind id))).
      split; [|split; [|split; [|split]]].
      * intros x. rewrite (Hs x). unfold makeRow.
        assert (∀ t, token_isTypeOf t = token_isTypeOf d0 →
                  gocRow kind id (Some t) = newToken kind id) as Hnew.
        { intros t Ht. apply gocRow_other. congruence. }
        destruct x as [t|].
        -- destruct (acc t) eqn:Ha; [|by rewrite Hnew].
           rewrite Hnew; [done|].
           pose proof (H2 t Ha) as Hc. unfold cls in Hc. injection Hc as Hc _.
           cbn in Hc. by cbn.
        -- by rewrite Hnew.
      * done.
      * done.
      * split; [|split; [|split]].
        -- rewrite applyPatch_empty. apply sim_refl.
        -- done.
        -- done.
        -- cbn. done.
      * by left.
  - destruct I4 as [Hr Hstrict]. rewrite (Hstrict eq_refl) in *.
    exists (λ t, acc t && bool_decide (token_isTypeOf t = kind)), q,
      (Some (applyPatch q (newToken kind id))).
    split; [|split; [|split; [|split]]].
    + intros x. rewrite (Hs x). unfold makeRow. destruct x as [t|]; [|done].
      destruct (acc t); [|done]. rewrite applyPatch_empty. cbn [andb].
      case_bool_decide as Hk.
      * by rewrite gocRow_same.
      * by rewrite gocRow_other.
    + intros t t' Hc. rewrite (I2 t t' Hc). unfold cls in Hc. injection Hc as Hc _.
      by rewrite Hc.
    + intros t [Ha Hk]%andb_true_iff. apply bool_decide_eq_true in Hk.
      apply andb_true_iff. split; [by apply Hfresh|]. by apply bool_decide_eq_true.
    + split; [|split; [|split]].
      * rewrite applyPatch_twice. apply sim_refl.
      * intros t [Ha Hk]%andb_true_iff. apply bool_decide_eq_true in Hk. by apply Hcls.
      * done.
      * cbn. done.
    + destruct I5 as [I5|I5]; [left; intros t; by rewrite I5|right].
      intros t [Ha|Hk]%andb_false_iff.
      * destruct (I5 t Ha) as [(Hk & c' & Hc' & Hch)|(d0 & Hd & _)]; [|done].
        left. split; [done|]. eauto.
      * apply bool_decide_eq_false in Hk. right. exists (applyPatch q (newToken kind id)).
        split; [done|]. cbn. done.
Qed.

(** A change of the symbol or the coingecko id of a row. *)
Lemma rowInv_keep strict K f q :
  renameOnly q → rowInv strict K f → rowInv false K (λ x, applyPatch q <$> f x).
Proof.
  intros Hq (acc & p & dflt & Hs & I2 & I3 & I4 & I5).
  exists acc, (overPatch q p), (applyPatch q <$> dflt).
  split; [|split; [|split; [|split]]].
  - intros x. rewrite (Hs x). destruct x as [t|]; [|done].
    destruct (acc t); [|done]. cbn. by rewrite applyPatch_over.
  - done.
  - intros t Ha. rewrite <- applyPatch_over.
    rewrite (I2 _ (applyPatch p t)) by by apply renameOnly_cls. by apply I3.
  - destruct dflt as [d0|]; cbn.
    + destruct I4 as (H1 & H2 & H3 & H4). split; [|split; [|split]].
      * rewrite <- applyPatch_over, applyPatch_absorb. by apply sim_applyPatch.
      * intros t Ha.
        rewrite <- applyPatch_over, (renameOnly_cls q _ Hq), (renameOnly_cls q d0 Hq).
        by apply H2.
      * intros Hk. destruct (H3 Hk) as (c & Hc & Hch). exists c. split; [done|].
        destruct Hq as (_&_&_&_&Hqc&_). by rewrite Hqc.
      * done.
    + destruct I4 as [Hr _]. split; [by apply renameOnly_over|done].
  - destruct I5 as [I5|I5]; [by left|right].
    intros t Ha. destruct (I5 t Ha) as [?|(d0 & -> & Hd)]; [by left|].
    right. exists (applyPatch q d0). by split.
Qed.

Lemma applyPatch_cover q p t :
  renameOnly p → is_Some (p_symbol q) → is_Some (p_coingeckoId q) →
  applyPatch q (applyPatch p t) = applyPatch q t.
Proof.
  intros (H1&H2&H3&H4&H5&H6) [s Hs] [c Hc]. unfold applyPatch. cbn.
  by rewrite H1, H2, H3, H4, H5, H6, Hs, Hc.
Qed.

(** The save of an erc20 token, the last thing done to a row. *)
Lemma settling_make_erc20 strict K f q id :
  rowInv strict K f → is_Some (p_symbol q) → is_Some (p_coingeckoId q) →
  settling (λ x, makeRow Erc20Token q id (f x)).
Proof.
  intros (acc & p & dflt & Hs & I2 & I3 & I4 & I5) Hqs Hqc.
  destruct dflt as [d0|].
  - destruct I4 as (H1 & H2 & H3 & H4).
    exists (λ _, false), emptyPatch, (Some (applyPatch q (newToken Erc20Token id))).
    split; [|split]; [|done|].
    + intros x. rewrite (Hs x). unfold makeRow.
      assert (∀ t, token_isTypeOf t = token_isTypeOf d0 →
                gocRow Erc20Token id (Some t) = newToken Erc20Token id) as Hnew.
      { intros t Ht. apply gocRow_other. congruence. }
      destruct x as [t|]; [|by rewrite Hnew].
      destruct (acc t) eqn:Ha; [|by rewrite Hnew].
      rewrite Hnew; [done|].
      pose proof (H2 t Ha) as Hc. unfold cls in Hc. injection Hc as Hc _. by cbn.
    + intros ? [= <-]. rewrite applyPatch_empty. apply sim_refl.
  - destruct I4 as [Hr _].
    exists (λ t, acc t && bool_decide (token_isTypeOf t = Erc20Token)), (overPatch q p),
      (Some (applyPatch q (newToken Erc20Token id))).
    split; [|split].
    + intros x. rewrite (Hs x). unfold makeRow. destruct x as [t|]; [|done].
      destruct (acc t); [|done]. cbn [andb]. case_bool_decide as Hk.
      * by rewrite gocRow_same, applyPatch_over.
      * by rewrite gocRow_other.
    + intros t t' [Ha Hk]%andb_true_iff Hsim. apply bool_decide_eq_true in Hk.
      assert (token_isTypeOf t' = Erc20Token) as Hk'.
      { destruct Hsim as (_ & Hk' & _). by rewrite Hk'. }
      apply andb_true_iff. split; [|by apply bool_decide_eq_true].
      destruct (acc t') eqn:Ha'; [done|exfalso].
      destruct I5 as [I5|I5]; [by rewrite I5 in Ha|].
      destruct (I5 _ Ha') as [(Hko & _)|(d0 & Hd & _)]; [congruence|done].
    + intros ? [= <-]. rewrite <- applyPatch_over, applyPatch_absorb.
      rewrite (applyPatch_cover q p) by done. apply sim_refl.
Qed.

(** The removal of an erc20 token the feed no longer has, the last thing
    done to a row. *)
Lemma settling_kill_erc20 strict K f :
  rowInv strict K f → settling (λ x, killRow isErc20Row (f x)).
Proof.
  intros HI. pose proof HI as (acc & p & dflt & Hs & I2 & I3 & I4 & I5).
  destruct dflt as [d0|].
  - destruct I4 as (H1 & H2 & H3 & H4).
    destruct (rowInv_settling _ _ _ HI) as (acc' & p' & dflt' & Hs' & HG).
    exists acc', p', dflt'. split; [|done].
    intros x. rewrite <- (Hs' x), (Hs x).
    assert (∀ t, token_isTypeOf t = token_isTypeOf d0 → isErc20Row t = false) as Hno.
    { intros t Ht. unfold isErc20Row. apply bool_decide_eq_false. congruence. }
    destruct x as [t|]; cbn; [|by rewrite Hno].
    destruct (acc t) eqn:Ha; cbn; [|by rewrite Hno].
    rewrite Hno; [done|].
    pose proof (H2 t Ha) as Hc. unfold cls in Hc. injection Hc as Hc _. by cbn.
  - destruct I4 as [Hr _].
    exists (λ t, acc t && negb (isErc20Row t)), p, None.
    split; [|split]; [| |done].
    + intros x. rewrite (Hs x). destruct x as [t|]; [|done].
      destruct (acc t); [|done]. cbn. unfold isErc20Row. rewrite applyPatch_kind. by case_bool_decide.
    + intros t t' [Ha Hk]%andb_true_iff Hsim. apply andb_true_iff. split.
      * rewrite (I2 t' (applyPatch p t)) by by apply sim_cls. by apply I3.
      * unfold isErc20Row in *. destruct Hsim as (_ & Hk' & _). cbn in Hk'. by rewrite Hk'.
Qed.

(** ** The token steps, row by row *)

Section loop_rows.
Context {S : Type} (idOf : S → option string) (upsert : Store → S → Token).
Variable kind : TokenKind.
Variable patch : S → Patch.
Hypothesis upsert_patch : ∀ st s k,
  idOf s = Some k → upsert st s = applyPatch (patch s) (getOrCreateToken st kind k).

Lemma loopRow_snoc k l s x :
  loopRow idOf kind patch k (l ++ [s]) x
  = let x' := loopRow idOf kind patch k l x in
    if decide (idOf s = Some k) then makeRow kind (patch s) k x' else x'.
Proof. unfold loopRow. by rewrite foldl_snoc. Qed.

Lemma loopRow_notin k l x : Some k ∉ idOf <$> l → loopRow idOf kind patch k l x = x.
Proof.
  clear upsert_patch. induction l as [|s l IH] using rev_ind; intros Hk; [done|].
  rewrite loopRow_snoc. cbn zeta. rewrite fmap_app in Hk. cbn in Hk.
  rewrite decide_False by set_solver. apply IH. set_solver.
Qed.

Lemma upsert_patch_id st s k :
  wf_tokens (tokens st) → idOf s = Some k → token_id (upsert st s) = k.
Proof.
  intros Hwf Hs. rewrite (upsert_patch st s k Hs). cbn. by apply getOrCreateToken_id.
Qed.

Lemma tokenLoop_row l acc k :
  wf_tokens (tokens acc.1) →
  tokens (tokenLoop idOf upsert l acc).1 !! k
  = loopRow idOf kind patch k l (tokens acc.1 !! k).
Proof.
  intros Hwf. induction l as [|s l IH] using rev_ind; [done|].
  rewrite tokenLoop_snoc, loopRow_snoc. cbn zeta.
  destruct (tokenLoop_frame idOf upsert l acc Hwf) as (_ & _ & Hwf').
  unfold tokenLoopBody. destruct (idOf s) as [k'|] eqn:Hs.
  - cbn [fst snd tokens saveToken set_tokens].
    rewrite (upsert_patch_id _ s k') by done.
    destruct (decide (k' = k)) as [->|Hne].
    + rewrite lookup_insert_eq, decide_True by done.
      rewrite (upsert_patch _ s k Hs). unfold makeRow.
      by rewrite getOrCreateToken_gocRow, IH.
    + rewrite lookup_insert_ne by done. rewrite decide_False by congruence. apply IH.
  - rewrite decide_False by done. apply IH.
Qed.

Lemma reconcile_row (P : Token → bool) l st del0 k :
  (∀ k t, del0 !! k = Some t ↔ tokens st !! k = Some t ∧ P t = true) →
  wf_tokens (tokens st) →
  tokens (removeTokens (tokenLoop idOf upsert l (st, del0)).2
            (tokenLoop idOf upsert l (st, del0)).1) !! k
  = reconcileRow idOf kind patch P k l (tokens st !! k).
Proof.
  intros Hdel Hwf.
  assert (wf_tokens del0) as Hwd.
  { intros k' t Ht. apply Hdel in Ht as [Ht _]. by apply (Hwf _ _ Ht). }
  rewrite removeTokens_tokens by by apply wf_tokens_tokenLoop_deleted.
  rewrite (tokenLoop_row l (st, del0) k Hwf). cbn [fst].
  unfold reconcileRow.
  destruct (decide (k ∈ dom (tokenLoop idOf upsert l (st, del0)).2)) as [Hd|Hd];
    rewrite elem_of_dom, tokenLoop_deleted in Hd; cbn [snd] in Hd.
  - destruct (decide (Some k ∈ idOf <$> l)) as [Hin|Hnin]; [by destruct Hd|].
    destruct Hd as [t Ht]. apply Hdel in Ht as [Ht HP].
    rewrite Ht. cbn. by rewrite HP.
  - destruct (decide (Some k ∈ idOf <$> l)) as [Hin|Hnin]; [done|].
    rewrite loopRow_notin by done.
    destruct (tokens st !! k) as [t|] eqn:Ht; [|done]. cbn.
    destruct (P t) eqn:HPt; [|done]. exfalso. apply Hd. exists t. by apply Hdel.
Qed.

End loop_rows.

Section step_rows.
Variable h : Helpers.

Lemma erc20Upsert_patch nets st erc20 k :
  erc20IdOf h nets erc20 = Some k →
  erc20Upsert h nets st erc20
  = applyPatch (erc20RecordPatch nets erc20) (getOrCreateToken st Erc20Token k).
Proof.
  unfold erc20IdOf, erc20Upsert, erc20RecordPatch.
  destruct (nets !! default "" (gt_evmNetworkId erc20)) as [net|]; [|done].
  cbn. by intros [= <-].
Qed.

Lemma reconcileErc20Tokens_row shared st k :
  wf_tokens (tokens st) →
  tokens (reconcileErc20Tokens h shared st) !! k
  = reconcileRow (erc20IdOf h (evmNetworks st)) Erc20Token
      (erc20RecordPatch (evmNetworks st)) isErc20Row k (erc20Records shared)
      (tokens st !! k).
Proof.
  intros Hwf. rewrite reconcileErc20Tokens_eq. unfold erc20Loop.
  rewrite erc20_foldl_tokenLoop, erc20Deleted0_eq by done.
  apply (reconcile_row _ _ Erc20Token _ (erc20Upsert_patch (evmNetworks st))); [|done].
  intros k' t. rewrite map_lookup_filter_Some. unfold isErc20Row.
  by rewrite bool_decide_eq_true.
Qed.

Lemma renameTokens_row shared st k :
  wf_tokens (tokens st) →
  tokens (renameTokens shared st) !! k
  = foldl (renameRow k) (tokens st !! k)
      (filter (λ t, Is_true (isRenameOrCoingeckoId t)) (githubTokens shared)).
Proof.
  intros Hwf. unfold renameTokens.
  induction (filter _ (githubTokens shared)) as [|r l IH] using rev_ind; [done|].
  rewrite !foldl_snoc, <- IH.
  assert (wf_tokens (tokens (foldl renameLoopBody st l))) as Hwf'.
  { clear IH. induction l as [|r' l IH] using rev_ind; [done|].
    rewrite foldl_snoc. unfold renameLoopBody.
    destruct (tokens _ !! default "" (gt_id r')) as [t|] eqn:Ht; [|done].
    cbn. by apply map_Forall_insert_2. }
  revert Hwf'. generalize (foldl renameLoopBody st l) as st'. intros st' Hwf'.
  unfold renameLoopBody, renameRow.
  destruct (tokens st' !! default "" (gt_id r)) as [t|] eqn:Ht.
  - cbn [tokens saveToken set_tokens applyRename token_id].
    rewrite (Hwf' _ _ Ht).
    destruct (decide (default "" (gt_id r) = k)) as [<-|Hne].
    + rewrite lookup_insert_eq, Ht. cbn. by rewrite applyRename_patch.
    + by rewrite lookup_insert_ne.
  - destruct (decide (default "" (gt_id r) = k)) as [<-|Hne]; [|done]. by rewrite Ht.
Qed.

Lemma ormlUpsert_patch chainId tokenDecimals tokenStateKeys st entry k :
  ormlIdOf h chainId tokenStateKeys entry = Some k →
  ormlUpsert h chainId tokenDecimals tokenStateKeys st entry
  = applyPatch (ormlEntryPatch chainId tokenDecimals tokenStateKeys entry)
      (getOrCreateToken st OrmlToken k).
Proof.
  unfold ormlIdOf, ormlUpsert, ormlEntryPatch.
  destruct (tokenStateKeys !! entry.2); [|done]. cbn. by intros [= <-].
Qed.

Lemma reconcileOrmlTokens_row chainId tokenSymbol tokenDecimals tokenStateKeys st st' k :
  wf_tokens (tokens st) →
  reconcileOrmlTokens h chainId tokenSymbol tokenDecimals tokenStateKeys st = Done st' tt →
  tokens st' !! k
  = reconcileRow (ormlIdOf h chainId tokenStateKeys) OrmlToken
      (ormlEntryPatch chainId tokenDecimals tokenStateKeys) (isOrmlOf chainId) k
      (symbolEntries tokenSymbol) (tokens st !! k).
Proof.
  intros Hwf. unfold reconcileOrmlTokens. cbn zeta. fold (ormlDeleted0 st chainId).
  destruct (ormlLoop h chainId tokenDecimals tokenStateKeys (symbolEntries tokenSymbol) st
              (ormlDeleted0 st chainId)) as [st1 deleted1|] eqn:Hloop; [|done].
  cbn. intros [= <-].
  apply ormlLoop_Done in Hloop as [Heq _]; [|done].
  rewrite ormlDeleted0_eq in Heq by done.
  replace st1 with (st1, deleted1).1 by done.
  replace deleted1 with (st1, deleted1).2 at 1 by done.
  rewrite Heq.
  apply (reconcile_row _ _ OrmlToken _
           (ormlUpsert_patch chainId tokenDecimals tokenStateKeys)); [|done].
  intros k' t. rewrite map_lookup_filter_Some. by rewrite isOrmlOf_true.
Qed.

Lemma dTokens_row chainId data m k :
  wf_tokens m →
  throws (applyRpcData h (newChain chainId) data emptyStore) = false →
  dTokens h chainId data m !! k = dRow h chainId data k (m !! k)
  ∧ wf_tokens (dTokens h chainId data m).
Proof.
  intros Hwf Hthrows.
  rewrite (applyRpcData_throws_indep h _ _ _ (mkStore ∅ ∅ m)) in Hthrows.
  unfold dTokens, dRow. unfold applyRpcData in *. cbn [chain_id newChain] in *.
  destruct (tokenSymbolVariants data) as [variants|]; [|done].
  destruct (reconcileOrmlTokens h chainId _ _ _ (mkStore ∅ ∅ m)) as [s []|s] eqn:Hrec;
    [|done].
  cbn [outcome_bind outcome_store] in *.
  assert (wf_tokens (tokens s)) as Hws.
  { by eapply (reconcileOrmlTokens_wf h _ _ _ _ (mkStore ∅ ∅ m) s tt). }
  pose proof (reconcileOrmlTokens_row _ _ _ _ (mkStore ∅ ∅ m) s k Hwf Hrec) as Hrow.
  cbn [tokens] in Hrow. cbn zeta. rewrite <- Hrow.
  assert (getOrCreateChain s chainId = newChain chainId) as Hnew.
  { unfold getOrCreateChain. apply reconcileOrmlTokens_frame_chains in Hrec.
    by rewrite Hrec. }
  rewrite Hnew. cbn [chain_id newChain].
  cbn [tokens saveChain saveToken set_chains set_tokens token_id set_native_fields].
  rewrite getOrCreateToken_id by done.
  split.
  - destruct (decide (hp_nativeTokenId h chainId
                        (nativeSymbol (chosenSymbols h chainId data)) = k)) as [<-|Hne].
    + rewrite lookup_insert_eq. unfold makeRow. by rewrite getOrCreateToken_gocRow.
    + by rewrite lookup_insert_ne.
  - apply map_Forall_insert_2; [|done]. cbn. by apply getOrCreateToken_id.
Qed.

Lemma firstSuccess_Some up chain urls remaining attempt data :
  firstSuccess h up chain urls remaining attempt = Some data →
  throws (applyRpcData h chain data emptyStore) = false.
Proof.
  revert attempt. induction remaining as [|n IH]; intros attempt; [done|].
  cbn [firstSuccess].
  destruct (attemptData h up chain attempt (roundRobin urls attempt)) as [d|] eqn:Hd;
    [|apply IH].
  intros [= <-]. unfold attemptData in Hd.
  destruct (up_chainRpc up (chain_id chain) attempt (roundRobin urls attempt)); [|done].
  destruct (throws (applyRpcData h chain r emptyStore)) eqn:Ht; [done|].
  by injection Hd as <-.
Qed.

Lemma extractedData_Some up chain data :
  extractedData h up chain = Some data →
  throws (applyRpcData h (newChain (chain_id chain)) data emptyStore) = false.
Proof.
  unfold extractedData. cbn zeta. intros Hd%firstSuccess_Some.
  by rewrite (applyRpcData_chain_ext h (newChain (chain_id chain)) (probedChain up chain)).
Qed.

Lemma dTokensOf_row up m chain k :
  wf_tokens m →
  dTokensOf h up m chain !! k = dRowOf h up k (m !! k) chain
  ∧ wf_tokens (dTokensOf h up m chain).
Proof.
  intros Hwf. unfold dTokensOf, dRowOf.
  destruct (extractedData h up chain) as [data|] eqn:Hd; [|done].
  apply dTokens_row; [done|]. by apply (extractedData_Some up).
Qed.

Lemma dTokensOf_fold_wf up m (l : list Chain) :
  wf_tokens m → wf_tokens (foldl (dTokensOf h up) m l).
Proof.
  revert m. induction l as [|c l IH]; intros m Hwt; [done|].
  cbn [foldl]. apply IH. by destruct (dTokensOf_row up m c "" Hwt).
Qed.

Lemma updateChainData_row up st k :
  wf_chains (chains st) → wf_tokens (tokens st) →
  tokens (updateChainData h up st) !! k
  = foldl (dRowOf h up k) (tokens st !! k) (find (chains st)).
Proof.
  intros Hwc Hwt.
  destruct (updateChainData_closed h up st Hwc Hwt) as (_ & _ & -> & _).
  revert Hwt. generalize (tokens st) as m.
  induction (find (chains st)) as [|c l IH] using rev_ind; intros m Hwt; [done|].
  rewrite !foldl_snoc, <- IH by done.
  apply dTokensOf_row. by apply dTokensOf_fold_wf.
Qed.

(** The network step. *)
Lemma evmLoopBody_row up shared acc e k :
  wf_tokens (tokens (el_store acc)) →
  tokens (el_store (evmLoopBody h up shared acc e)) !! k
  = foldl (uRow shared k) (tokens (el_store acc) !! k)
      (option_list (evmUpdateOf h up shared e)).
Proof.
  intros Hwf. unfold evmLoopBody, evmUpdateOf. cbn zeta.
  destruct (probeEvmNetwork_fields up e) as (_ & _ & _ & _ & _ & _).
  generalize (probeEvmNetwork up e) as p. intros p.
  destruct (evm_id p) as [id|] eqn:Hid; [|done].
  cbn [option_list option_rect foldl]. unfold uRow.
  destruct (isStandaloneEntity p) eqn:Hst.
  - unfold provisionNativeToken.
    cbn [el_store fst snd tokens saveToken set_tokens token_id set_symbol_decimals
         evm_nativeToken set_evm_nativeToken].
    rewrite getOrCreateToken_id by done.
    change (isStandaloneEntity (set_evm_nativeToken _ p)) with (isStandaloneEntity p).
    rewrite Hst. cbn [andb].
    change (githubNetworkOf shared (set_evm_nativeToken _ p))
      with (githubNetworkOf shared p).
    case_bool_decide as Hk.
    + injection Hk as <-. rewrite lookup_insert_eq. unfold makeRow.
      by rewrite getOrCreateToken_gocRow.
    + rewrite lookup_insert_ne; [done|]. congruence.
  - by rewrite Hst.
Qed.

Lemma evmLoop_row up shared l acc k :
  wf_tokens (tokens (el_store acc)) →
  tokens (el_store (foldl (evmLoopBody h up shared) acc l)) !! k
  = foldl (uRow shared k) (tokens (el_store acc) !! k) (omap (evmUpdateOf h up shared) l).
Proof.
  revert acc. induction l as [|e l IH]; intros acc Hwf; [done|].
  cbn [foldl]. rewrite IH by by apply evmLoopBody_spec.
  rewrite evmLoopBody_row by done. cbn [omap list_omap].
  by destruct (evmUpdateOf h up shared e).
Qed.

Lemma updateEvmNetworksFromGithub_row up shared st k :
  wf_store st →
  tokens (updateEvmNetworksFromGithub h up shared st) !! k
  = foldl (uRow shared k) (tokens st !! k) (evmNetworkUpdates h up shared st).
Proof.
  intros Hwf. rewrite (updateEvmNetworksFromGithub_eq h up shared st Hwf).
  cbn [tokens set_evmNetworks]. rewrite (evmNetworkUpdates_eq h up shared st Hwf).
  unfold evmLoopFinal. cbn zeta. rewrite evmLoop_row by apply Hwf. done.
Qed.

End step_rows.

(** ** The steps of a run on a row *)

Lemma rowInv_relax strict K f : rowInv strict K f → rowInv false K f.
Proof.
  intros (acc & p & dflt & Hs & I2 & I3 & I4 & I5). exists acc, p, dflt.
  split; [done|]. split; [done|]. split; [done|]. split; [|done].
  destruct dflt; [done|]. by destruct I4.
Qed.

Section loop_make.
Context {S : Type} (idOf : S → option string).
Variable kind : TokenKind.
Variable patch : S → Patch.
Variable good : Patch → Prop.
Hypothesis good_over : ∀ q p, good q → good (overPatch q p).

Lemma loopRow_make k l :
  (∀ s, s ∈ l → idOf s = Some k → good (patch s)) →
  Some k ∈ idOf <$> l →
  ∃ q, good q ∧ ∀ x, loopRow idOf kind patch k l x = makeRow kind q k x.
Proof.
  induction l as [|s l IH] using rev_ind; [by intros _ ?%elem_of_nil|].
  intros Hgood Hin.
  destruct (decide (idOf s = Some k)) as [Hs|Hs].
  - destruct (decide (Some k ∈ idOf <$> l)) as [Hl|Hl].
    + destruct IH as (q & Hq & Hrow); [intros s' Hs'; apply Hgood; set_solver|done|].
      exists (overPatch (patch s) q). split; [apply good_over, Hgood; [set_solver|done]|].
      intros x. rewrite loopRow_snoc. cbn zeta. rewrite decide_True by done.
      by rewrite Hrow, makeRow_makeRow.
    + exists (patch s). split; [apply Hgood; [set_solver|done]|].
      intros x. rewrite loopRow_snoc. cbn zeta. rewrite decide_True by done.
      by rewrite loopRow_notin.
  - destruct IH as (q & Hq & Hrow); [intros s' Hs'; apply Hgood; set_solver| |].
    + rewrite fmap_app in Hin. cbn in Hin. set_solver.
    + exists q. split; [done|]. intros x. rewrite loopRow_snoc. cbn zeta.
      by rewrite decide_False.
Qed.

End loop_make.

Section pipeline_rows.
Variable h : Helpers.
Variable up : Upstream.
Variable k : string.

Lemma rowInv_dRow K f chainId data :
  rowInv true K f → chainId ∉ K →
  rowInv true (chainId :: K) (λ x, dRow h chainId data k (f x)).
Proof.
  intros HI Hc. unfold dRow.
  destruct (tokenSymbolVariants data) as [variants|];
    [|apply (rowInv_mono true K); [set_solver|done]].
  cbn zeta.
  set (keys := chosenStateKeys h chainId data variants).
  set (decs := chosenDecimals h chainId data).
  set (entries := symbolEntries (chosenSymbols h chainId data)).
  assert (rowInv true (chainId :: K)
            (λ x, reconcileRow (ormlIdOf h chainId keys) OrmlToken
                    (ormlEntryPatch chainId decs keys) (isOrmlOf chainId) k entries (f x)))
    as HI'.
  { unfold reconcileRow.
    destruct (decide (Some k ∈ ormlIdOf h chainId keys <$> entries)) as [Hin|Hnin].
    - destruct (loopRow_make (ormlIdOf h chainId keys) OrmlToken
                  (ormlEntryPatch chainId decs keys)
                  (λ q, p_chain q = Some (Some chainId))) with (k := k) (l := entries)
        as (q & Hq & Hrow);
        [intros q p Hq; unfold overPatch; cbn; by rewrite Hq|done|done|].
      apply (rowInv_ext _ _ (λ x, makeRow OrmlToken q k (f x))); [intros x; apply Hrow|].
      apply (rowInv_make K _ f OrmlToken q chainId k); [done|set_solver| |done].
      intros _. split; [set_solver|]. by split.
    - by apply rowInv_kill. }
  destruct (decide (hp_nativeTokenId h chainId
                      (nativeSymbol (chosenSymbols h chainId data)) = k)); [|done].
  apply (rowInv_make (chainId :: K) _ _ NativeToken _ "" k HI'); done.
Qed.

Lemma rowInv_chains (l : list Chain) :
  NoDup (chain_id <$> l) →
  rowInv true (chain_id <$> l) (λ x, foldl (dRowOf h up k) x l).
Proof.
  induction l as [|c l IH] using rev_ind; intros Hnd; [apply rowInv_start|].
  rewrite fmap_app in Hnd. apply NoDup_app in Hnd as (Hnd & Hnin & _).
  specialize (IH Hnd).
  apply (rowInv_ext _ _ (λ x, dRowOf h up k (foldl (dRowOf h up k) x l) c));
    [intros x; by rewrite foldl_snoc|].
  apply (rowInv_mono true (chain_id c :: (chain_id <$> l)));
    [intros c'; rewrite fmap_app; set_solver|].
  unfold dRowOf. destruct (extractedData h up c) as [data|].
  - apply rowInv_dRow; [done|]. intros Hin. apply (Hnin _ Hin). set_solver.
  - apply (rowInv_mono true (chain_id <$> l)); [set_solver|done].
Qed.

Lemma rowInv_updates shared K f (l : list EvmNetwork) :
  rowInv true K f → rowInv true K (λ x, foldl (uRow shared k) (f x) l).
Proof.
  intros HI. induction l as [|u l IH] using rev_ind; [done|].
  apply (rowInv_ext _ _ (λ x, uRow shared k (foldl (uRow shared k) (f x) l) u));
    [intros x; by rewrite foldl_snoc|].
  unfold uRow. destruct (isStandaloneEntity u && bool_decide (evm_nativeToken u = Some k));
    [|done].
  apply (rowInv_make K _ _ NativeToken _ "" k IH); done.
Qed.

Lemma rowInv_renames strict K f (l : list GithubToken) :
  rowInv strict K f → rowInv false K (λ x, foldl (renameRow k) (f x) l).
Proof.
  intros HI. induction l as [|r l IH] using rev_ind; [by apply (rowInv_relax strict)|].
  apply (rowInv_ext _ _ (λ x, renameRow k (foldl (renameRow k) (f x) l) r));
    [intros x; by rewrite foldl_snoc|].
  unfold renameRow. destruct (decide (default "" (gt_id r) = k)); [|done].
  apply (rowInv_keep false); [apply renameOnly_renamePatch|done].
Qed.

Lemma settling_erc20 strict K f nets (l : list GithubToken) :
  rowInv strict K f →
  settling (λ x, reconcileRow (erc20IdOf h nets) Erc20Token (erc20RecordPatch nets)
                   isErc20Row k l (f x)).
Proof.
  intros HI. unfold reconcileRow.
  destruct (decide (Some k ∈ erc20IdOf h nets <$> l)) as [Hin|Hnin].
  - destruct (loopRow_make (erc20IdOf h nets) Erc20Token (erc20RecordPatch nets)
                (λ q, is_Some (p_symbol q) ∧ is_Some (p_coingeckoId q)))
      with (k := k) (l := l) as (q & [Hq1 Hq2] & Hrow).
    + intros q p [[s Hs] [c Hc]]. unfold overPatch. cbn. rewrite Hs, Hc. by eauto.
    + intros s _ Hs. unfold erc20IdOf, erc20RecordPatch in *.
      destruct (nets !! default "" (gt_evmNetworkId s)); [|done]. cbn. by eauto.
    + done.
    + destruct (settling_make_erc20 strict K f q k HI Hq1 Hq2)
        as (acc & p & dflt & Hs & HG).
      exists acc, p, dflt. split; [|done]. intros x. by rewrite Hrow, <- (Hs x).
  - by apply (settling_kill_erc20 strict K).
Qed.

(** The rows the steps up to [updateTokensFromGithub] leave are kept by
    the same steps. *)
Lemma settling_pipelineRow (chains : list Chain) updates nets :
  NoDup (chain_id <$> chains) →
  settling (pipelineRow h up chains updates nets k).
Proof.
  intros Hnd. unfold pipelineRow. cbn zeta.
  apply (settling_erc20 false (chain_id <$> chains)).
  apply (rowInv_renames true). apply rowInv_updates. by apply rowInv_chains.
Qed.

End pipeline_rows.

(** ** The steps that only write tokens *)

Section token_steps.
Variable h : Helpers.

Lemma renameTokens_frame shared st :
  wf_tokens (tokens st) →
  chains (renameTokens shared st) = chains st
  ∧ evmNetworks (renameTokens shared st) = evmNetworks st
  ∧ wf_tokens (tokens (renameTokens shared st)).
Proof.
  intros Hwf. unfold renameTokens.
  induction (filter _ (githubTokens shared)) as [|r l IH] using rev_ind; [done|].
  rewrite foldl_snoc. destruct IH as (H1 & H2 & H3). unfold renameLoopBody.
  destruct (tokens _ !! default "" (gt_id r)) as [t|] eqn:Ht; [|done].
  cbn. split; [done|]. split; [done|].
  apply map_Forall_insert_2; [done|]. done.
Qed.

Lemma reconcileErc20Tokens_frame shared st :
  wf_tokens (tokens st) →
  chains (reconcileErc20Tokens h shared st) = chains st
  ∧ evmNetworks (reconcileErc20Tokens h shared st) = evmNetworks st
  ∧ wf_tokens (tokens (reconcileErc20Tokens h shared st)).
Proof.
  intros Hwf. rewrite reconcileErc20Tokens_eq. unfold erc20Loop.
  rewrite erc20_foldl_tokenLoop by done.
  destruct (tokenLoop_frame (erc20IdOf h (evmNetworks st)) (erc20Upsert h (evmNetworks st))
              (erc20Records shared)
              (st, erc20Deleted0 st) Hwf) as (H1 & H2 & H3).
  destruct (removeTokens_frame
              (tokenLoop (erc20IdOf h (evmNetworks st)) (erc20Upsert h (evmNetworks st))
                 (erc20Records shared) (st, erc20Deleted0 st)).2
              (tokenLoop (erc20IdOf h (evmNetworks st)) (erc20Upsert h (evmNetworks st))
                 (erc20Records shared) (st, erc20Deleted0 st)).1) as [-> ->].
  split; [done|]. split; [done|]. by apply removeTokens_wf.
Qed.

Lemma updateTokensFromGithub_frame shared st :
  wf_tokens (tokens st) →
  chains (updateTokensFromGithub h shared st) = chains st
  ∧ evmNetworks (updateTokensFromGithub h shared st) = evmNetworks st
  ∧ wf_tokens (tokens (updateTokensFromGithub h shared st)).
Proof.
  intros Hwf. unfold updateTokensFromGithub.
  destruct (renameTokens_frame shared st Hwf) as (H1 & H2 & H3).
  destruct (reconcileErc20Tokens_frame shared _ H3) as (-> & -> & H6). done.
Qed.

Lemma updateTokensTestnetField_frame st :
  wf_tokens (tokens st) →
  chains (updateTokensTestnetField st) = chains st
  ∧ evmNetworks (updateTokensTestnetField st) = evmNetworks st
  ∧ wf_tokens (tokens (updateTokensTestnetField st)).
Proof.
  intros Hwf. split; [|split].
  - unfold updateTokensTestnetField. by rewrite saveTokens_eq.
  - unfold updateTokensTestnetField. by rewrite saveTokens_eq.
  - rewrite updateTokensTestnetField_tokens by done.
    intros k t Hk. rewrite lookup_fmap in Hk.
    destruct (tokens st !! k) as [t0|] eqn:Ht; [|done]. injection Hk as <-.
    apply (Hwf _ _ Ht).
Qed.

Lemma updateTokenRates_frame up st :
  wf_tokens (tokens st) →
  chains (updateTokenRates up st) = chains st
  ∧ evmNetworks (updateTokenRates up st) = evmNetworks st
  ∧ wf_tokens (tokens (updateTokenRates up st)).
Proof.
  intros Hwf. split; [|split].
  - unfold updateTokenRates. by rewrite saveTokens_eq.
  - unfold updateTokenRates. by rewrite saveTokens_eq.
  - rewrite updateTokenRates_tokens by done.
    intros k t Hk. rewrite lookup_fmap in Hk.
    destruct (tokens st !! k) as [t0|] eqn:Ht; [|done]. injection Hk as <-.
    unfold refreshRates. cbn. repeat case_match; apply (Hwf _ _ Ht).
Qed.

End token_steps.

(** ** The chains and networks after a second run *)

Section tables_settled.
Variable h : Helpers.
Variable up : Upstream.
Variables rankC rankN : list Chain → list EvmNetwork → string → option Z.
Hypothesis ranks : ∀ chains evmNetworks,
  hp_sortChainsAndNetworks h chains evmNetworks
  ≡ₚ map (λ c, inl (set_chain_sortIndex
                      (rankC (set_chain_sortIndex None <$> chains)
                         (set_evm_sortIndex None <$> evmNetworks) (chain_id c)) c))
       chains
     ++ map (λ n, inr (set_evm_sortIndex
                         (rankN (set_chain_sortIndex None <$> chains)
                            (set_evm_sortIndex None <$> evmNetworks) (evmKey n)) n))
          evmNetworks.

Local Abbreviation shared := (fetchDataFromGithub up).
Local Abbreviation feed := (githubChains (fetchDataFromGithub up)).
Local Abbreviation run := (processorSteps h up).

Lemma processorSteps_afterSort st :
  run st
  = updateTokenRates up
      (updateTokensTestnetField (updateTokensFromGithub h shared (afterSort h up st))).
Proof. done. Qed.

Lemma afterTasks_wf st :
  wf_store st →
  wf_store (afterTasks h up st) ∧ evmNetworks (afterTasks h up st) = evmNetworks st.
Proof.
  intros (Hwc & Hwn & Hwt). unfold afterTasks.
  destruct (updateChainsFromGithub_frame shared st Hwc) as (Hwc' & He & Ht).
  destruct (updateChainData_closed h up (updateChainsFromGithub shared st))
    as (Hc & He' & _ & Hwt'); [done|by rewrite Ht|].
  split; [|by rewrite He'].
  split; [|split]; [| |done].
  - rewrite Hc. intros k c Hk. rewrite lookup_fmap in Hk.
    destruct (chains (updateChainsFromGithub shared st) !! k) as [c0|] eqn:Hc0; [|done].
    injection Hk as <-. cbn. rewrite dChain_id. apply (Hwc' _ _ Hc0).
  - by rewrite He', He.
Qed.

Lemma afterNetworks_wf st :
  wf_store st →
  wf_store (afterNetworks h up st)
  ∧ chains (afterNetworks h up st) = chains (afterTasks h up st).
Proof.
  intros Hwf. destruct (afterTasks_wf st Hwf) as [Hwf2 _].
  assert (chains (afterNetworks h up st) = chains (afterTasks h up st)) as Hc.
  { unfold afterNetworks. rewrite (updateEvmNetworksFromGithub_eq h up shared _ Hwf2).
    cbn [chains set_evmNetworks].
    by destruct (evmLoopFinal_store h up shared _ Hwf2) as (-> & _). }
  split; [|done]. split; [|split].
  - rewrite Hc. apply Hwf2.
  - intros k n Hk. unfold afterNetworks in Hk.
    by apply (evm_persisted_is_last_update h up shared _ Hwf2) in Hk as (_ & _ & _ & ? & _).
  - unfold afterNetworks. rewrite (updateEvmNetworksFromGithub_eq h up shared _ Hwf2).
    cbn [tokens set_evmNetworks].
    by destruct (evmLoopFinal_store h up shared _ Hwf2) as (_ & _ & ?).
Qed.

Lemma afterSort_tables st :
  wf_store st →
  chains (afterSort h up st)
  = rankedChain rankC (afterNetworks h up st) <$> chains (afterTasks h up st)
  ∧ evmNetworks (afterSort h up st)
    = rankedEvmNetwork rankN (afterNetworks h up st) <$> evmNetworks (afterNetworks h up st)
  ∧ tokens (afterSort h up st) = tokens (afterNetworks h up st).
Proof.
  intros Hwf. destruct (afterNetworks_wf st Hwf) as [(Hwc & Hwn & Hwt) Hc].
  unfold afterSort.
  destruct (updateSortIndexes_closed h rankC rankN ranks _ Hwc Hwn) as (-> & -> & ->).
  by rewrite Hc.
Qed.

Lemma processorSteps_tables st :
  wf_store st →
  chains (run st) = chains (afterSort h up st)
  ∧ evmNetworks (run st) = evmNetworks (afterSort h up st)
  ∧ wf_tokens (tokens (run st)).
Proof.
  intros Hwf. rewrite processorSteps_afterSort.
  destruct (afterNetworks_wf st Hwf) as [(_ & _ & Hwt) _].
  destruct (afterSort_tables st Hwf) as (_ & _ & Ht). rewrite <- Ht in Hwt.
  destruct (updateTokensFromGithub_frame h shared _ Hwt) as (H1 & H2 & H3).
  destruct (updateTokensTestnetField_frame _ H3) as (H4 & H5 & H6).
  destruct (updateTokenRates_frame up _ H6) as (-> & -> & H9).
  by rewrite H4, H5, H1, H2.
Qed.

Lemma rankedChain_ext st st' c :
  set_chain_sortIndex None <$> find (chains st')
  = set_chain_sortIndex None <$> find (chains st) →
  set_evm_sortIndex None <$> find (evmNetworks st')
  = set_evm_sortIndex None <$> find (evmNetworks st) →
  rankedChain rankC st' c = rankedChain rankC st c.
Proof. intros H1 H2. unfold rankedChain. by rewrite H1, H2. Qed.

Lemma rankedEvmNetwork_ext st st' n :
  set_chain_sortIndex None <$> find (chains st')
  = set_chain_sortIndex None <$> find (chains st) →
  set_evm_sortIndex None <$> find (evmNetworks st')
  = set_evm_sortIndex None <$> find (evmNetworks st) →
  rankedEvmNetwork rankN st' n = rankedEvmNetwork rankN st n.
Proof. intros H1 H2. unfold rankedEvmNetwork. by rewrite H1, H2. Qed.

Section second_run.
Variable s0 : Store.
Hypothesis Hwf : wf_store s0.
Hypothesis Hrelays : relaysKnown feed s0.
Hypothesis Hdistinct : evmFeedDistinct shared.
Hypothesis Hsettled : evmUpdatesSettled h up shared (afterTasks h up s0).

Local Abbreviation rkC := (rankedChain rankC (afterNetworks h up s0)).
Local Abbreviation rkN := (rankedEvmNetwork rankN (afterNetworks h up s0)).

Lemma run_chains : chains (run s0) = rkC <$> chains (afterTasks h up s0).
Proof.
  destruct (processorSteps_tables s0 Hwf) as (-> & _).
  by destruct (afterSort_tables s0 Hwf) as (-> & _).
Qed.

Lemma run_evmNetworks : evmNetworks (run s0) = rkN <$> evmNetworks (afterNetworks h up s0).
Proof.
  destruct (processorSteps_tables s0 Hwf) as (_ & -> & _).
  by destruct (afterSort_tables s0 Hwf) as (_ & -> & _).
Qed.

Lemma run_wf : wf_store (run s0).
Proof.
  destruct (processorSteps_tables s0 Hwf) as (_ & _ & Hwt).
  destruct (afterNetworks_wf s0 Hwf) as [(Hwc & Hwn & _) Hc].
  split; [|split]; [| |done].
  - rewrite run_chains. intros k c Hk. rewrite lookup_fmap in Hk.
    destruct (chains (afterTasks h up s0) !! k) as [c0|] eqn:Hc0; [|done].
    injection Hk as <-. rewrite <- Hc in Hc0. apply (Hwc _ _ Hc0).
  - rewrite run_evmNetworks. intros k n Hk. rewrite lookup_fmap in Hk.
    destruct (evmNetworks (afterNetworks h up s0) !! k) as [n0|] eqn:Hn0; [|done].
    injection Hk as <-. apply (Hwn _ _ Hn0).
Qed.

Lemma rerun_afterTasks :
  chains (afterTasks h up (run s0)) = chains (run s0)
  ∧ evmNetworks (afterTasks h up (run s0)) = evmNetworks (run s0).
Proof.
  destruct run_wf as (Hwc & Hwn & Hwt). destruct Hwf as (Hwc0 & Hwn0 & Hwt0).
  split.
  - unfold afterTasks.
    apply (chains_settled h up shared s0 (run s0)
             (rankC (set_chain_sortIndex None <$> find (chains (afterNetworks h up s0)))
                (set_evm_sortIndex None <$> find (evmNetworks (afterNetworks h up s0)))));
      [done|done|].
    intros k. rewrite run_chains, lookup_fmap. unfold afterTasks.
    rewrite chains_after_tasks by done.
    destruct (lastRecord feed k) as [g|] eqn:Hg; [|done]. cbn. f_equal.
    unfold rankedChain. f_equal. f_equal. rewrite dChain_id. cbn.
    unfold getOrCreateChain. destruct (chains s0 !! k) as [c|] eqn:Hc; [|done].
    apply (Hwc0 _ _ Hc).
  - by destruct (afterTasks_wf (run s0) run_wf) as [_ ->].
Qed.

Lemma rerun_afterNetworks :
  chains (afterNetworks h up (run s0)) = chains (run s0)
  ∧ evmNetworks (afterNetworks h up (run s0)) = evmNetworks (run s0).
Proof.
  destruct rerun_afterTasks as [Hc He].
  destruct (afterTasks_wf s0 Hwf) as [Hwf2 _].
  destruct (afterTasks_wf (run s0) run_wf) as [(_ & _ & Hwt2') _].
  destruct (afterNetworks_wf (run s0) run_wf) as [_ Hc3].
  split; [by rewrite Hc3|].
  unfold afterNetworks at 1.
  rewrite (evmNetworks_settled h up shared (afterTasks h up s0) (afterTasks h up (run s0))
             (rankC (set_chain_sortIndex None <$> find (chains (afterNetworks h up s0)))
                (set_evm_sortIndex None <$> find (evmNetworks (afterNetworks h up s0))))
             (rankN (set_chain_sortIndex None <$> find (chains (afterNetworks h up s0)))
                (set_evm_sortIndex None <$> find (evmNetworks (afterNetworks h up s0))))
             Hwf2 Hdistinct Hsettled Hwt2').
  - done.
  - by rewrite Hc, run_chains.
  - by rewrite He, run_evmNetworks.
Qed.

Lemma rerun_ranks :
  set_chain_sortIndex None <$> find (chains (afterNetworks h up (run s0)))
  = set_chain_sortIndex None <$> find (chains (afterNetworks h up s0))
  ∧ set_evm_sortIndex None <$> find (evmNetworks (afterNetworks h up (run s0)))
    = set_evm_sortIndex None <$> find (evmNetworks (afterNetworks h up s0)).
Proof.
  destruct rerun_afterNetworks as [-> ->].
  destruct (afterNetworks_wf s0 Hwf) as [_ Hc].
  rewrite run_chains, run_evmNetworks, <- Hc, !find_fmap, <- !list_fmap_compose. done.
Qed.

(** A second run leaves the chains and the networks as the first run
    left them. *)
Lemma rerun_tables :
  chains (run (run s0)) = chains (run s0)
  ∧ evmNetworks (run (run s0)) = evmNetworks (run s0).
Proof.
  destruct (processorSteps_tables (run s0) run_wf) as (-> & -> & _).
  destruct (afterSort_tables (run s0) run_wf) as (-> & -> & _).
  destruct rerun_afterTasks as [-> _]. destruct rerun_afterNetworks as [_ ->].
  destruct rerun_ranks as [H1 H2].
  rewrite run_chains, run_evmNetworks, <- !map_fmap_compose. split.
  - apply map_fmap_ext. intros k c _. cbn.
    rewrite (rankedChain_ext (afterNetworks h up s0) (afterNetworks h up (run s0))) by done.
    done.
  - apply map_fmap_ext. intros k n _. cbn.
    rewrite (rankedEvmNetwork_ext (afterNetworks h up s0) (afterNetworks h up (run s0)))
      by done.
    done.
Qed.

End second_run.

(** *** The tokens *)

Lemma sim_settleToken st t : sim (settleToken up st t) t.
Proof.
  unfold settleToken, refreshRates. cbn zeta.
  repeat case_match; by repeat split.
Qed.

Lemma isTestnetToken_ext st st' t t' :
  chains st = chains st' → evmNetworks st = evmNetworks st' → sim t t' →
  isTestnetToken st t = isTestnetToken st' t'.
Proof.
  intros Hc He (Hid & _ & _ & _ & _ & _ & _ & _ & Hch & Hev).
  unfold isTestnetToken, testnetFlags, loadRelationIds, chainsMap, evmNetworksMap.
  cbn. by rewrite Hc, He, Hid, Hch, Hev.
Qed.

Lemma settleToken_sim st t t' : sim t t' → settleToken up st t = settleToken up st t'.
Proof.
  intros Hsim. unfold settleToken.
  rewrite (isTestnetToken_ext st st t t') by done.
  destruct Hsim as (H1 & H2 & H3 & H4 & H5 & H6 & H7 & H8 & H9 & H10).
  unfold refreshRates, set_token_isTestnet, set_token_rates. cbn.
  by rewrite H1, H2, H3, H4, H5, H6, H7, H8, H9, H10.
Qed.

Lemma settleToken_ext st st' t :
  chains st = chains st' → evmNetworks st = evmNetworks st' →
  settleToken up st t = settleToken up st' t.
Proof.
  intros Hc He. unfold settleToken.
  by rewrite (isTestnetToken_ext st st' t t Hc He (sim_refl t)).
Qed.

(** The row of a token after a run. *)
Lemma run_row st k :
  wf_store st →
  tokens (run st) !! k
  = settleToken up (afterSort h up st)
      <$> pipelineRow h up (find (chains (updateChainsFromGithub shared st)))
            (evmNetworkUpdates h up shared (afterTasks h up st))
            (evmNetworks (afterSort h up st)) k (tokens st !! k).
Proof.
  intros Hwf. pose proof Hwf as (Hwc & Hwn & Hwt).
  destruct (updateChainsFromGithub_frame shared st Hwc) as (Hwc1 & He1 & Ht1).
  destruct (afterTasks_wf st Hwf) as [Hwf2 _].
  destruct (afterNetworks_wf st Hwf) as [(_ & _ & Hwt3) _].
  destruct (afterSort_tables st Hwf) as (_ & _ & Ht4).
  assert (wf_tokens (tokens (afterSort h up st))) as Hwt4 by by rewrite Ht4.
  destruct (renameTokens_frame shared _ Hwt4) as (_ & He5 & Hwt5).
  destruct (updateTokensFromGithub_frame h shared _ Hwt4) as (Hc6 & He6 & Hwt6).
  destruct (updateTokensTestnetField_frame _ Hwt6) as (_ & _ & Hwt7).
  rewrite processorSteps_afterSort.
  rewrite updateTokenRates_tokens, lookup_fmap by done.
  rewrite updateTokensTestnetField_tokens, lookup_fmap by done.
  rewrite <- option_fmap_compose.
  unfold updateTokensFromGithub at 2.
  rewrite (reconcileErc20Tokens_row h shared _ k Hwt5), He5.
  rewrite (renameTokens_row shared _ k Hwt4), Ht4.
  unfold afterNetworks at 1.
  rewrite (updateEvmNetworksFromGithub_row h up shared _ k Hwf2).
  unfold afterTasks at 1.
  rewrite (updateChainData_row h up _ k Hwc1) by by rewrite Ht1.
  rewrite Ht1. unfold pipelineRow. cbn zeta. fold (renameRecords shared).
  apply option_fmap_ext. intros t. unfold settleToken. cbn.
  by rewrite (isTestnetToken_ext _ (afterSort h up st) t t Hc6 He6 (sim_refl t)).
Qed.

Lemma find_fold_ext {E A : Type} (F : A → E → A) (m m' : gmap string E) :
  dom m = dom m' →
  (∀ key c c' x, m !! key = Some c → m' !! key = Some c' → F x c = F x c') →
  ∀ x, foldl F x (find m) = foldl F x (find m').
Proof.
  intros Hdom HF. unfold find. rewrite <- Hdom.
  induction (elements (dom m)) as [|key l IH]; intros x; [done|].
  cbn [omap list_omap].
  destruct (m !! key) as [c|] eqn:Hc, (m' !! key) as [c'|] eqn:Hc'.
  - cbn [foldl]. rewrite (HF key c c' x Hc Hc'). apply IH.
  - apply mk_is_Some, elem_of_dom in Hc. rewrite Hdom in Hc.
    apply elem_of_dom in Hc as [? Hc]. congruence.
  - apply mk_is_Some, elem_of_dom in Hc'. rewrite <- Hdom in Hc'.
    apply elem_of_dom in Hc' as [? Hc']. congruence.
  - apply IH.
Qed.

Lemma dRowOf_ext k x c c' :
  chain_id c = chain_id c' → chain_rpcs c = chain_rpcs c' →
  dRowOf h up k x c = dRowOf h up k x c'.
Proof.
  intros Hid Hrpcs. unfold dRowOf. by rewrite (extractedData_ext h up c c'), Hid.
Qed.

Lemma uRow_sortIndex k x u sortIndex :
  uRow shared k x (set_evm_sortIndex sortIndex u) = uRow shared k x u.
Proof. done. Qed.

Section second_run_tokens.
Variable s0 : Store.
Hypothesis Hwf : wf_store s0.
Hypothesis Hrelays : relaysKnown feed s0.
Hypothesis Hdistinct : evmFeedDistinct shared.
Hypothesis Hsettled : evmUpdatesSettled h up shared (afterTasks h up s0).

Local Abbreviation F := (run s0).

Lemma rerun_dom : dom (chains F) = feedChainIds feed.
Proof.
  rewrite (run_chains s0 Hwf), dom_fmap_L.
  destruct Hwf as (Hwc & _ & Hwt).
  destruct (updateChainsFromGithub_frame shared s0 Hwc) as (Hwc1 & _ & Ht1).
  unfold afterTasks.
  destruct (updateChainData_closed h up (updateChainsFromGithub shared s0))
    as (-> & _); [done|by rewrite Ht1|].
  rewrite dom_fmap_L. by apply updateChainsFromGithub_dom.
Qed.

Lemma rerun_relaysKnown : relaysKnown feed F.
Proof.
  intros pre g post Hsplit _. rewrite rerun_dom. f_equal.
  rewrite Hsplit. unfold feedChainIds. rewrite fmap_app, list_to_set_app_L. set_solver.
Qed.

Lemma rerun_chain_rows k x :
  foldl (dRowOf h up k) x (find (chains (updateChainsFromGithub shared F)))
  = foldl (dRowOf h up k) x (find (chains (updateChainsFromGithub shared s0))).
Proof.
  pose proof (run_wf s0 Hwf) as (HwcF & _ & _). destruct Hwf as (Hwc & _ & _).
  apply find_fold_ext.
  - by rewrite !updateChainsFromGithub_dom.
  - intros key c c' y Hc Hc'.
    rewrite updateChainsFromGithub_rows in Hc by (done || apply rerun_relaysKnown).
    rewrite updateChainsFromGithub_rows in Hc' by done.
    destruct (lastRecord feed key) as [g|]; [|done]. cbn in Hc, Hc'.
    injection Hc as <-. injection Hc' as <-.
    apply dRowOf_ext; [|done]. cbn. unfold getOrCreateChain.
    destruct (chains F !! key) as [c1|] eqn:H1, (chains s0 !! key) as [c2|] eqn:H2; cbn;
      rewrite ?(HwcF _ _ H1), ?(Hwc _ _ H2); done.
Qed.

Lemma rerun_updates :
  evmNetworkUpdates h up shared (afterTasks h up F)
  = rankedEvmNetwork rankN (afterNetworks h up s0)
      <$> evmNetworkUpdates h up shared (afterTasks h up s0).
Proof.
  destruct (rerun_afterTasks s0 Hwf Hrelays) as [Hc He].
  destruct (afterTasks_wf s0 Hwf) as [Hwf2 _].
  destruct (afterTasks_wf F (run_wf s0 Hwf)) as [(_ & _ & Hwt2') _].
  apply (updates_settled h up shared (afterTasks h up s0) (afterTasks h up F)
           (rankC (set_chain_sortIndex None <$> find (chains (afterNetworks h up s0)))
              (set_evm_sortIndex None <$> find (evmNetworks (afterNetworks h up s0))))
           (rankN (set_chain_sortIndex None <$> find (chains (afterNetworks h up s0)))
              (set_evm_sortIndex None <$> find (evmNetworks (afterNetworks h up s0))))
           Hwf2 Hdistinct Hsettled Hwt2').
  - by rewrite Hc, (run_chains s0 Hwf).
  - by rewrite He, (run_evmNetworks s0 Hwf).
Qed.

Lemma rerun_afterSort :
  chains (afterSort h up F) = chains (afterSort h up s0)
  ∧ evmNetworks (afterSort h up F) = evmNetworks (afterSort h up s0).
Proof.
  destruct (processorSteps_tables F (run_wf s0 Hwf)) as (H1 & H2 & _).
  destruct (processorSteps_tables s0 Hwf) as (H3 & H4 & _).
  destruct (rerun_tables s0 Hwf Hrelays Hdistinct Hsettled) as [H5 H6].
  split; congruence.
Qed.

Lemma rerun_row k x :
  pipelineRow h up (find (chains (updateChainsFromGithub shared F)))
    (evmNetworkUpdates h up shared (afterTasks h up F))
    (evmNetworks (afterSort h up F)) k x
  = pipelineRow h up (find (chains (updateChainsFromGithub shared s0)))
      (evmNetworkUpdates h up shared (afterTasks h up s0))
      (evmNetworks (afterSort h up s0)) k x.
Proof.
  unfold pipelineRow. cbn zeta.
  destruct rerun_afterSort as [_ ->]. rewrite rerun_chain_rows, rerun_updates.
  do 2 f_equal.
  generalize (foldl (dRowOf h up k) x (find (chains (updateChainsFromGithub shared s0)))).
  induction (evmNetworkUpdates h up shared (afterTasks h up s0)) as [|u l IH] using rev_ind;
    intros y; [done|].
  rewrite fmap_app, !foldl_app, IH. cbn [fmap list_fmap foldl]. apply uRow_sortIndex.
Qed.

(** A second run leaves the tokens as the first run left them. *)
Lemma rerun_tokens : tokens (run F) = tokens F.
Proof.
  apply map_eq. intros k.
  rewrite (run_row F k (run_wf s0 Hwf)), rerun_row.
  rewrite (run_row s0 k Hwf).
  set (f := pipelineRow h up (find (chains (updateChainsFromGithub shared s0)))
              (evmNetworkUpdates h up shared (afterTasks h up s0))
              (evmNetworks (afterSort h up s0)) k).
  assert (∀ y, settleToken up (afterSort h up F) <$> y
               = settleToken up (afterSort h up s0) <$> y) as ->.
  { intros y. apply option_fmap_ext. intros t.
    destruct rerun_afterSort as [Hc He]. by apply settleToken_ext. }
  apply settling_twice.
  - apply settling_pipelineRow. apply NoDup_find_keys.
    destruct Hwf as (Hwc & _). by apply updateChainsFromGithub_frame.
  - apply sim_settleToken.
  - apply settleToken_sim.
Qed.

(** A second run leaves the store as the first run left it. *)
Lemma rerun_store : run F = F.
Proof.
  destruct (rerun_tables s0 Hwf Hrelays Hdistinct Hsettled) as [Hc He].
  rewrite <- (store_eta (run F)). rewrite Hc, He, rerun_tokens. apply store_eta.
Qed.

End second_run_tokens.

End tables_settled.

(** ** A second run *)

(** C9, amended. [processorSteps] run a second time on the store the first
    run left, with the same answers of every upstream source, returns that
    store unchanged: the same chains, networks and tokens with the same
    fields. This holds when the store the first run starts from keeps every
    row under its id; the ordering helper only assigns sort indices, and
    assigns them without looking at the indices the rows carried; every
    record of the chain feed with a paraId finds its relay among the chains
    known at its turn exactly when the relay is a chain of the feed; the
    standalone records of the network feed have distinct names and the
    substrate records distinct chains; and the networks the first run
    saves have distinct ids, none of them linked to a chain under the name
    of a standalone record and none of another kind than the network the
    store had under its id. *)
Theorem second_run_changes_nothing h up s0 :
  sortAssignsRanks h →
  wf_store s0 →
  relaysStable (dom (chains s0)) (feedChainIds (githubChains (fetchDataFromGithub up)))
    (githubChains (fetchDataFromGithub up)) = true →
  evmFeedDistinct (fetchDataFromGithub up) →
  evmUpdatesSettled h up (fetchDataFromGithub up) (afterTasks h up s0) →
  processorSteps h up (processorSteps h up s0) = processorSteps h up s0.
Proof.
  intros (rankC & rankN & Hranks) Hwf Hstable Hdistinct Hsettled.
  apply (rerun_store h up rankC rankN Hranks s0 Hwf); [|done|done].
  intros pre g post Hsplit Hp. by apply (relaysStable_split _ _ _ pre g post Hstable).
Qed.

(** ** What the steps remove from the token table *)

Section row_fate.
Variable h : Helpers.

Lemma makeRow_kind kind p k x :
  ∃ t, makeRow kind p k x = Some t ∧ token_isTypeOf t = kind.
Proof. eexists. split; [done|]. rewrite applyPatch_kind. apply gocRow_kind. Qed.

Lemma reconcileOrml_fate chainId tokenDecimals tokenStateKeys k l x :
  let r := reconcileRow (ormlIdOf h chainId tokenStateKeys) OrmlToken
             (ormlEntryPatch chainId tokenDecimals tokenStateKeys) (isOrmlOf chainId) k l x in
  r = x
  ∨ (∃ t, r = Some t ∧ token_isTypeOf t = OrmlToken ∧ token_chain t = Some chainId)
  ∨ (r = None ∧ ∃ t, x = Some t ∧ isOrmlOf chainId t = true).
Proof.
  cbn zeta. unfold reconcileRow. case_decide as Hin.
  - right. left.
    destruct (loopRow_make (ormlIdOf h chainId tokenStateKeys) OrmlToken
                (ormlEntryPatch chainId tokenDecimals tokenStateKeys)
                (λ q, p_chain q = Some (Some chainId))) with (k := k) (l := l)
      as (q & Hq & Hrow); [by intros q p Hq; unfold overPatch; cbn; rewrite Hq|done|done|].
    rewrite Hrow. eexists. split; [done|]. split.
    + rewrite applyPatch_kind. apply gocRow_kind.
    + unfold applyPatch. cbn. by rewrite Hq.
  - destruct x as [t|]; [|by left]. cbn. destruct (isOrmlOf chainId t) eqn:Ho.
    + right. right. split; [done|]. by exists t.
    + by left.
Qed.

Lemma dRow_fate chainId data k x :
  let r := dRow h chainId data k x in
  r = x
  ∨ (∃ t, r = Some t
       ∧ (token_isTypeOf t = NativeToken
          ∨ (token_isTypeOf t = OrmlToken ∧ token_chain t = Some chainId)))
  ∨ (r = None ∧ ∃ t, x = Some t ∧ isOrmlOf chainId t = true).
Proof.
  cbn zeta. unfold dRow. destruct (tokenSymbolVariants data) as [variants|]; [|by left].
  cbn zeta. case_decide as Hk.
  - right. left. destruct (makeRow_kind NativeToken
      (nativePatch (nativeSymbol (chosenSymbols h chainId data))
         (nativeDecimals (chosenDecimals h chainId data)) (rd_existentialDeposit data)) k
      (reconcileRow (ormlIdOf h chainId (chosenStateKeys h chainId data variants)) OrmlToken
         (ormlEntryPatch chainId (chosenDecimals h chainId data)
            (chosenStateKeys h chainId data variants)) (isOrmlOf chainId) k
         (symbolEntries (chosenSymbols h chainId data)) x)) as (t & -> & Ht).
    exists t. split; [done|]. by left.
  - destruct (reconcileOrml_fate chainId (chosenDecimals h chainId data)
                (chosenStateKeys h chainId data variants) k
                (symbolEntries (chosenSymbols h chainId data)) x)
      as [->|[(t & -> & Ht & Hc)|(-> & Hx)]].
    + by left.
    + right. left. exists t. split; [done|]. by right.
    + right. by right.
Qed.

Lemma dRowOf_outlives up k x chain l :
  chain_id chain ∉ l →
  outlives (chain_id chain :: l) x → outlives l (dRowOf h up k x chain).
Proof.
  intros Hnotin (t & -> & Hk & Ho). unfold dRowOf.
  destruct (extractedData h up chain) as [data|].
  - destruct (dRow_fate (chain_id chain) data k (Some t))
      as [->|[(t' & -> & Ht')|(_ & t' & [= <-] & Ht')]].
    + exists t. split; [done|]. split; [done|]. intros Hkind c Hc. apply Ho; [done|set_solver].
    + exists t'. split; [done|]. destruct Ht' as [Hn|[Hn Hc]].
      * split; [by rewrite Hn|]. by rewrite Hn.
      * split; [by rewrite Hn|]. intros _ c Hin Heq. rewrite Hc in Heq. by injection Heq as <-.
    + unfold isOrmlOf in Ht'. apply andb_true_iff in Ht' as [H1%bool_decide_eq_true H2%bool_decide_eq_true].
      destruct (Ho H1 (chain_id chain)); [set_solver|done].
  - exists t. split; [done|]. split; [done|]. intros Hkind c Hc. apply Ho; [done|set_solver].
Qed.

Lemma tasks_outlives up k (l : list Chain) x :
  NoDup (chain_id <$> l) →
  outlives (chain_id <$> l) x → outlives [] (foldl (dRowOf h up k) x l).
Proof.
  revert x. induction l as [|c l IH]; intros x Hnd Hx; [done|].
  cbn. apply NoDup_cons in Hnd as [Hc Hnd]. apply IH; [done|].
  by apply dRowOf_outlives.
Qed.

Lemma outlives_nil_iff x :
  outlives [] x ↔ ∃ t, x = Some t ∧ token_isTypeOf t ≠ Erc20Token.
Proof.
  split.
  - intros (t & -> & Hk & _). by exists t.
  - intros (t & -> & Hk). exists t. split; [done|]. split; [done|]. by intros _ c ?%elem_of_nil.
Qed.

Lemma uRow_outlives shared k x u : outlives [] x → outlives [] (uRow shared k x u).
Proof.
  rewrite !outlives_nil_iff. intros (t & -> & Hk). unfold uRow. case_match; [|by exists t].
  destruct (makeRow_kind NativeToken
              (evmNativePatch (nativeSymbolOf (githubNetworkOf shared u))
                 (nativeDecimalsOf (githubNetworkOf shared u))) k (Some t)) as (t' & -> & Ht').
  exists t'. split; [done|]. by rewrite Ht'.
Qed.

Lemma renameRow_outlives k x r : outlives [] x → outlives [] (renameRow k x r).
Proof.
  rewrite !outlives_nil_iff. intros (t & -> & Hk). unfold renameRow. case_decide; [|by exists t].
  eexists. split; [done|]. by rewrite applyPatch_kind.
Qed.

Lemma foldl_outlives {A : Type} (f : option Token → A → option Token) (l : list A) x :
  (∀ x a, outlives [] x → outlives [] (f x a)) →
  outlives [] x → outlives [] (foldl f x l).
Proof. intros Hf. revert x. induction l as [|a l IH]; intros x Hx; [done|]. cbn. by apply IH, Hf. Qed.

Lemma reconcileErc20_outlives nets k l x :
  outlives [] x →
  is_Some (reconcileRow (erc20IdOf h nets) Erc20Token (erc20RecordPatch nets) isErc20Row k l x).
Proof.
  rewrite outlives_nil_iff. intros (t & -> & Hk). unfold reconcileRow. case_decide as Hin.
  - destruct (loopRow_make (erc20IdOf h nets) Erc20Token (erc20RecordPatch nets)
                (λ _, True)) with (k := k) (l := l) as (q & _ & Hrow); [done|done|done|].
    rewrite Hrow. done.
  - cbn. unfold isErc20Row. by rewrite bool_decide_eq_false_2.
Qed.

Lemma pipelineRow_after_tasks up chains updates nets k x :
  outlives [] (foldl (uRow (fetchDataFromGithub up) k) (foldl (dRowOf h up k) x chains) updates) →
  is_Some (pipelineRow h up chains updates nets k x).
Proof.
  intros Hx. unfold pipelineRow. apply reconcileErc20_outlives.
  by apply foldl_outlives; [intros; by apply renameRow_outlives|].
Qed.

Lemma pipelineRow_outlives up chains updates nets k x :
  NoDup (chain_id <$> chains) →
  outlives (chain_id <$> chains) x →
  is_Some (pipelineRow h up chains updates nets k x).
Proof.
  intros Hnd Hx. apply pipelineRow_after_tasks.
  apply foldl_outlives; [intros; by apply uRow_outlives|].
  by apply tasks_outlives.
Qed.

(** The sort step saves chains and networks only. *)
Lemma updateSortIndexes_keeps st :
  wf_store st →
  wf_store (updateSortIndexes h st) ∧ tokens (updateSortIndexes h st) = tokens st.
Proof.
  intros Hwf. unfold updateSortIndexes.
  induction (hp_sortChainsAndNetworks h _ _) as [|e l IH] using rev_ind; [done|].
  rewrite foldl_snoc. destruct IH as [(Hc & Hn & Ht) Heq].
  destruct e as [c|n]; cbn.
  - split; [|done]. split; [by apply map_Forall_insert_2|done].
  - unfold saveEvmNetwork. destruct (evm_id n) as [i|] eqn:Hi; [|done].
    split; [|done]. split; [done|]. split; [by apply map_Forall_insert_2|done].
Qed.

Lemma afterSort_keeps up st :
  wf_store st →
  wf_store (afterSort h up st) ∧ tokens (afterSort h up st) = tokens (afterNetworks h up st).
Proof.
  intros Hwf. destruct (afterNetworks_wf h up st Hwf) as [Hwf3 _].
  by apply updateSortIndexes_keeps.
Qed.

(** The last three steps write tokens only. *)
Lemma run_tables up st :
  wf_store st →
  chains (processorSteps h up st) = chains (afterSort h up st)
  ∧ evmNetworks (processorSteps h up st) = evmNetworks (afterSort h up st)
  ∧ wf_store (processorSteps h up st).
Proof.
  intros Hwf. destruct (afterSort_keeps up st Hwf) as [(Hwc & Hwn & Hwt) _].
  rewrite processorSteps_afterSort.
  destruct (updateTokensFromGithub_frame h (fetchDataFromGithub up) _ Hwt) as (H1 & H2 & H3).
  destruct (updateTokensTestnetField_frame _ H3) as (H4 & H5 & H6).
  destruct (updateTokenRates_frame up _ H6) as (H7 & H8 & H9).
  rewrite H7, H8, H4, H5, H1, H2. split; [done|]. split; [done|].
  split; [by rewrite H7, H4, H1|]. split; [by rewrite H8, H5, H2|done].
Qed.

(** The row of a token after a run, for any ordering helper. *)
Lemma run_token_row up st k :
  wf_store st →
  tokens (processorSteps h up st) !! k
  = settleToken up (afterSort h up st)
      <$> pipelineRow h up (find (chains (updateChainsFromGithub (fetchDataFromGithub up) st)))
            (evmNetworkUpdates h up (fetchDataFromGithub up) (afterTasks h up st))
            (evmNetworks (afterSort h up st)) k (tokens st !! k).
Proof.
  intros Hwf. pose proof Hwf as (Hwc & Hwn & Hwt).
  set (shared := fetchDataFromGithub up).
  destruct (updateChainsFromGithub_frame shared st Hwc) as (Hwc1 & He1 & Ht1).
  destruct (afterTasks_wf h up st Hwf) as [Hwf2 _].
  destruct (afterSort_keeps up st Hwf) as [(_ & _ & Hwt4) Ht4].
  destruct (renameTokens_frame shared _ Hwt4) as (_ & He5 & Hwt5).
  destruct (updateTokensFromGithub_frame h shared _ Hwt4) as (Hc6 & He6 & Hwt6).
  destruct (updateTokensTestnetField_frame _ Hwt6) as (_ & _ & Hwt7).
  rewrite processorSteps_afterSort. fold shared.
  rewrite updateTokenRates_tokens, lookup_fmap by done.
  rewrite updateTokensTestnetField_tokens, lookup_fmap by done.
  rewrite <- option_fmap_compose.
  unfold updateTokensFromGithub at 2.
  rewrite (reconcileErc20Tokens_row h shared _ k Hwt5), He5.
  rewrite (renameTokens_row shared _ k Hwt4), Ht4.
  unfold afterNetworks at 1. fold shared.
  rewrite (updateEvmNetworksFromGithub_row h up shared _ k Hwf2).
  unfold afterTasks at 1. fold shared.
  rewrite (updateChainData_row h up _ k Hwc1) by by rewrite Ht1.
  rewrite Ht1. unfold pipelineRow. cbn zeta. fold shared. fold (renameRecords shared).
  apply option_fmap_ext. intros t. unfold settleToken. cbn.
  by rewrite (isTestnetToken_ext _ (afterSort h up st) t t Hc6 He6 (sim_refl t)).
Qed.

Lemma feed_chain_ids up st :
  wf_chains (chains st) →
  chain_id <$> find (chains (updateChainsFromGithub (fetchDataFromGithub up) st))
  = elements (feedChainIds (githubChains (fetchDataFromGithub up))).
Proof.
  intros Hwc. destruct (updateChainsFromGithub_frame (fetchDataFromGithub up) st Hwc) as (Hwc1 & _).
  rewrite (find_keys chain_id) by (intros k c Hk; by apply Hwc1).
  by rewrite updateChainsFromGithub_dom.
Qed.

End row_fate.

(** X1: a run never removes a native token, nor an orml token of a
    chain that is not in the feed: a token that was persisted before
    the run and is gone after it was an erc20 token, or an orml token
    anchored to a chain of the feed. *)
Theorem run_removes_only_erc20_and_feed_orml_tokens h up st k t :
  wf_store st →
  tokens st !! k = Some t →
  tokens (processorSteps h up st) !! k = None →
  token_isTypeOf t = Erc20Token
  ∨ (token_isTypeOf t = OrmlToken
     ∧ ∃ githubChain, githubChain ∈ githubChains (fetchDataFromGithub up)
         ∧ token_chain t = Some (gc_id githubChain)).
Proof.
  intros Hwf Ht Hgone. rewrite (run_token_row h up st k Hwf), Ht in Hgone.
  apply fmap_None in Hgone.
  destruct (decide (token_isTypeOf t = Erc20Token)) as [|Hk]; [by left|right].
  assert (¬ outlives (chain_id <$> find (chains (updateChainsFromGithub
                                                  (fetchDataFromGithub up) st))) (Some t))
    as Hno.
  { intros Hx. eapply pipelineRow_outlives in Hx as [? Hx].
    - by rewrite Hgone in Hx.
    - apply NoDup_find_keys. intros i c Hi.
      by apply (updateChainsFromGithub_frame (fetchDataFromGithub up) st (proj1 Hwf)). }
  rewrite feed_chain_ids in Hno by apply Hwf.
  destruct (decide (token_isTypeOf t = OrmlToken)) as [Ho|Ho].
  - split; [done|]. destruct (token_chain t) as [c|] eqn:Hc.
    + destruct (decide (c ∈ feedChainIds (githubChains (fetchDataFromGithub up)))) as [Hin|Hin].
      * unfold feedChainIds in Hin. apply elem_of_list_to_set, list_elem_of_fmap in Hin.
        destruct Hin as (g & -> & Hg). by exists g.
      * destruct Hno. exists t. split; [done|]. split; [done|].
        intros _ c' Hc' Heq. rewrite Hc in Heq. injection Heq as <-.
        by apply elem_of_elements in Hc'.
    + destruct Hno. exists t. split; [done|]. split; [done|]. intros _ c' _ Heq.
      by rewrite Hc in Heq.
  - destruct Hno. exists t. split; [done|]. split; [done|]. by intros ?.
Qed.

Section native_tokens.
Variable h : Helpers.
Variable up : Upstream.

Lemma foldl_outlives_from {A : Type} (f : option Token → A → option Token)
    (pre post : list A) (a : A) x :
  (∀ x, outlives [] (f x a)) →
  (∀ x b, outlives [] x → outlives [] (f x b)) →
  outlives [] (foldl f x (pre ++ a :: post)).
Proof.
  intros Ha Hf. rewrite foldl_app. cbn. by apply foldl_outlives.
Qed.

Lemma extractedData_variants chain data :
  extractedData h up chain = Some data → is_Some (tokenSymbolVariants data).
Proof.
  intros Hd%extractedData_Some. unfold applyRpcData in Hd.
  by destruct (tokenSymbolVariants data).
Qed.

(** The task of a chain whose extraction goes through leaves a native
    token under the id it computes. *)
Lemma dRowOf_native chain data x l :
  extractedData h up chain = Some data →
  outlives l
    (dRowOf h up
       (hp_nativeTokenId h (chain_id chain)
          (nativeSymbol (chosenSymbols h (chain_id chain) data))) x chain).
Proof.
  intros Hd. unfold dRowOf. rewrite Hd. unfold dRow.
  destruct (extractedData_variants chain data Hd) as [variants ->]. cbn zeta.
  rewrite decide_True by done.
  match goal with |- outlives _ (makeRow ?kd ?p ?k ?y) =>
    destruct (makeRow_kind kd p k y) as (t & -> & Ht) end.
  exists t. split; [done|]. split; [by rewrite Ht|]. by rewrite Ht.
Qed.

Lemma tasks_native (l : list Chain) chain data x :
  NoDup (chain_id <$> l) → chain ∈ l →
  extractedData h up chain = Some data →
  outlives []
    (foldl (dRowOf h up
              (hp_nativeTokenId h (chain_id chain)
                 (nativeSymbol (chosenSymbols h (chain_id chain) data)))) x l).
Proof.
  intros Hnd (pre & post & ->)%list_elem_of_split Hd.
  rewrite foldl_app. cbn. rewrite fmap_app, fmap_cons in Hnd.
  apply NoDup_app in Hnd as (_ & _ & Hnd). apply NoDup_cons in Hnd as [Hc Hnd].
  apply tasks_outlives; [done|]. by apply dRowOf_native.
Qed.

Lemma uRow_native shared x u k :
  isStandaloneEntity u = true → evm_nativeToken u = Some k →
  outlives [] (uRow shared k x u).
Proof.
  intros Hs Hn. unfold uRow. rewrite Hs, bool_decide_eq_true_2 by done. cbn.
  match goal with |- outlives _ (makeRow ?kd ?p ?k ?y) =>
    destruct (makeRow_kind kd p k y) as (t & -> & Ht) end.
  apply outlives_nil_iff. exists t. split; [done|]. by rewrite Ht.
Qed.

End native_tokens.

(** X2: after a run, every chain that is marked healthy has a native
    token, and that token is persisted under the id the chain refers
    to. *)
Theorem healthy_chain_has_its_native_token h up st i c :
  sortAssignsRanks h →
  wf_store st →
  chains (processorSteps h up st) !! i = Some c →
  chain_isHealthy c = true →
  ∃ k t, chain_nativeToken c = Some k
    ∧ tokens (processorSteps h up st) !! k = Some t ∧ token_id t = k.
Proof.
  intros (rankC & rankN & Hranks) Hwf Hc Hh. pose proof Hwf as (Hwc & Hwn & Hwt).
  rewrite (run_chains h up rankC rankN Hranks st Hwf), lookup_fmap in Hc.
  unfold afterTasks in Hc.
  destruct (updateChainsFromGithub_frame (fetchDataFromGithub up) st Hwc) as (Hwc1 & He1 & Ht1).
  destruct (updateChainData_closed h up (updateChainsFromGithub (fetchDataFromGithub up) st) Hwc1)
    as (Hcl & _); [by rewrite Ht1|].
  rewrite Hcl, lookup_fmap in Hc.
  destruct (chains (updateChainsFromGithub (fetchDataFromGithub up) st) !! i) as [c0|] eqn:Hc0;
    [|done].
  cbn in Hc. injection Hc as <-. cbn in Hh. unfold dChain in *.
  destruct (extractedData h up c0) as [data|] eqn:Hd; [|done].
  set (k := hp_nativeTokenId h (chain_id c0) (nativeSymbol (chosenSymbols h (chain_id c0) data))).
  assert (is_Some (tokens (processorSteps h up st) !! k)) as [t Ht].
  { rewrite (run_token_row h up st k Hwf). apply fmap_is_Some.
    apply pipelineRow_after_tasks.
    apply foldl_outlives; [intros; by apply uRow_outlives|].
    apply tasks_native; [| |done].
    - apply NoDup_find_keys. intros j c' Hj. by apply Hwc1.
    - apply elem_of_find. by exists i. }
  exists k, t. split; [done|]. split; [done|].
  by apply (run_tables h up st Hwf) in Ht.
Qed.

Section network_links.
Variable h : Helpers.
Variable up : Upstream.
Variable shared : SharedData.

Lemma evmUpdateOf_nativeToken e u :
  evmUpdateOf h up shared e = Some u →
  if isStandaloneEntity u then is_Some (evm_nativeToken u)
  else evm_nativeToken u = evm_nativeToken e.
Proof.
  unfold evmUpdateOf. cbn zeta.
  destruct (evm_id (probeEvmNetwork up e)) as [id|]; [|done].
  destruct (isStandaloneEntity (probeEvmNetwork up e)) eqn:Hs; intros [= <-].
  - unfold isStandaloneEntity in *. cbn. by rewrite Hs.
  - rewrite Hs. apply probeEvmNetwork_fields.
Qed.

Lemma linked_update_origin st u sid :
  wf_store st →
  u ∈ evmNetworkUpdates h up shared st →
  evm_substrateChain u = Some sid →
  ∃ c, chains st !! sid = Some c
    ∧ evm_isTestnet u = chain_isTestnet c
    ∧ evm_nativeToken u = chain_nativeToken c.
Proof.
  intros Hwf (e & He & Hu)%evm_update_origin Hsub; [|done].
  pose proof (evmUpdateOf_nativeToken e u Hu) as Hnat.
  apply evmUpdateOf_Some in Hu as (_ & _ & Ht & _ & Hs & _).
  unfold isStandaloneEntity in Hnat. rewrite Hsub in Hnat. cbn in Hnat.
  unfold incomingEvmNetworks in He. apply elem_of_app in He as [He|He].
  - unfold standaloneEvmNetworks in He. apply list_elem_of_fmap in He as (r & -> & _).
    by rewrite Hs, standaloneEntity_substrateChain in Hsub.
  - unfold substrateEvmNetworks in He. apply list_elem_of_omap in He as (r & Hr & He).
    apply substrateEntity_Some in He as (c & Hc & Hsc & Htc & _ & Hnc).
    destruct Hwf as (Hwc & _). pose proof (Hwc _ _ Hc) as Hcid. cbn in Hcid.
    rewrite Hs, Hsc in Hsub. injection Hsub as <-.
    exists c. rewrite <- Hcid in Hc at 1. by rewrite Ht, Hnat, Htc, Hnc.
Qed.

End network_links.

(** X3: after a run, every persisted network that is not linked to a
    chain has a native token, and that token is persisted under the id
    the network refers to. *)
Theorem standalone_network_has_its_native_token h up st i n :
  sortAssignsRanks h →
  wf_store st →
  evmNetworks (processorSteps h up st) !! i = Some n →
  evm_substrateChain n = None →
  ∃ k t, evm_nativeToken n = Some k
    ∧ tokens (processorSteps h up st) !! k = Some t ∧ token_id t = k.
Proof.
  intros (rankC & rankN & Hranks) Hwf Hn Hs.
  rewrite (run_evmNetworks h up rankC rankN Hranks st Hwf), lookup_fmap in Hn.
  destruct (evmNetworks (afterNetworks h up st) !! i) as [n0|] eqn:Hn0; [|done].
  cbn in Hn. injection Hn as <-. cbn in Hs. cbn [rankedEvmNetwork set_evm_sortIndex evm_nativeToken].
  destruct (afterTasks_wf h up st Hwf) as [Hwf2 _].
  unfold afterNetworks in Hn0.
  apply (evm_persisted_is_last_update h up _ _ Hwf2) in Hn0 as (pre & post & Hsplit & _).
  assert (n0 ∈ evmNetworkUpdates h up (fetchDataFromGithub up) (afterTasks h up st)) as Hin
    by (rewrite Hsplit; set_solver).
  apply (evm_update_origin h up _ _ Hwf2) in Hin as (e & _ & He).
  apply evmUpdateOf_nativeToken in He.
  assert (isStandaloneEntity n0 = true) as Hst
    by (unfold isStandaloneEntity; by rewrite bool_decide_eq_true_2).
  rewrite Hst in He. destruct He as [k Hk].
  assert (is_Some (tokens (processorSteps h up st) !! k)) as [t Ht].
  { rewrite (run_token_row h up st k Hwf). apply fmap_is_Some.
    apply pipelineRow_after_tasks. rewrite Hsplit.
    apply foldl_outlives_from; [intros; by apply uRow_native|intros; by apply uRow_outlives]. }
  exists k, t. split; [done|]. split; [done|].
  by apply (run_tables h up st Hwf) in Ht.
Qed.

(** X4: after a run, every persisted network that is linked to a
    chain refers to a persisted chain, and carries the testnet flag and
    the native token of that chain. *)
Theorem linked_network_agrees_with_its_chain h up st i n sid :
  sortAssignsRanks h →
  wf_store st →
  evmNetworks (processorSteps h up st) !! i = Some n →
  evm_substrateChain n = Some sid →
  ∃ c, chains (processorSteps h up st) !! sid = Some c
    ∧ evm_isTestnet n = chain_isTestnet c
    ∧ evm_nativeToken n = chain_nativeToken c.
Proof.
  intros (rankC & rankN & Hranks) Hwf Hn Hs.
  rewrite (run_evmNetworks h up rankC rankN Hranks st Hwf), lookup_fmap in Hn.
  destruct (evmNetworks (afterNetworks h up st) !! i) as [n0|] eqn:Hn0; [|done].
  cbn in Hn. injection Hn as <-. cbn in Hs. cbn [rankedEvmNetwork set_evm_sortIndex evm_nativeToken evm_isTestnet].
  destruct (afterTasks_wf h up st Hwf) as [Hwf2 _].
  unfold afterNetworks in Hn0.
  apply (evm_persisted_is_last_update h up _ _ Hwf2) in Hn0 as (pre & post & Hsplit & _).
  assert (n0 ∈ evmNetworkUpdates h up (fetchDataFromGithub up) (afterTasks h up st)) as Hin
    by (rewrite Hsplit; set_solver).
  destruct (linked_update_origin h up _ _ n0 sid Hwf2 Hin Hs) as (c & Hc & Ht & Hnat).
  rewrite (run_chains h up rankC rankN Hranks st Hwf), lookup_fmap, Hc. cbn.
  eexists. split; [done|]. by rewrite Ht, Hnat.
Qed.

Section erc20_links.
Variable h : Helpers.

Lemma reconcileErc20_network nets k l x t :
  wf_evmNetworks nets →
  reconcileRow (erc20IdOf h nets) Erc20Token (erc20RecordPatch nets) isErc20Row k l x = Some t →
  token_isTypeOf t = Erc20Token →
  ∃ i, token_evmNetwork t = Some i ∧ is_Some (nets !! i).
Proof.
  intros Hwn Hrow Hk. unfold reconcileRow in Hrow. case_decide as Hin.
  - destruct (loopRow_make (erc20IdOf h nets) Erc20Token (erc20RecordPatch nets)
                (λ q, ∃ i, p_evmNetwork q = Some (Some i) ∧ is_Some (nets !! i)))
      with (k := k) (l := l) as (q & (i & Hq & Hi) & Hrow').
    + intros q p (i & Hq & Hi). exists i. unfold overPatch. cbn. by rewrite Hq.
    + intros erc20 _ Hid. unfold erc20IdOf in Hid. unfold erc20RecordPatch.
      destruct (nets !! default "" (gt_evmNetworkId erc20)) as [evmNetwork|] eqn:Hnet; [|done].
      exists (default "" (gt_evmNetworkId erc20)). cbn. by rewrite (Hwn _ _ Hnet), Hnet.
    + done.
    + rewrite Hrow' in Hrow. injection Hrow as <-. exists i. unfold applyPatch. cbn.
      by rewrite Hq.
  - destruct x as [t0|]; [|done]. cbn in Hrow. unfold isErc20Row in Hrow.
    case_bool_decide; [done|]. by injection Hrow as ->.
Qed.

End erc20_links.

(** X5: after a run, every persisted erc20 token refers to a persisted
    network. *)
Theorem erc20_token_has_its_network h up st k t :
  wf_store st →
  tokens (processorSteps h up st) !! k = Some t →
  token_isTypeOf t = Erc20Token →
  ∃ i n, token_evmNetwork t = Some i ∧ evmNetworks (processorSteps h up st) !! i = Some n.
Proof.
  intros Hwf Ht Hk. rewrite (run_token_row h up st k Hwf) in Ht.
  apply fmap_Some in Ht as (t0 & Ht0 & ->).
  destruct (sim_settleToken up (afterSort h up st) t0) as (_ & Hkind & _ & _ & _ & _ & _ & _ & _ & Hnet).
  rewrite Hkind in Hk. rewrite Hnet. unfold pipelineRow in Ht0.
  destruct (afterSort_keeps h up st Hwf) as [(_ & Hwn & _) _].
  destruct (reconcileErc20_network h _ _ _ _ _ Hwn Ht0 Hk) as (i & Hi & [n Hn]).
  exists i, n. split; [done|]. by destruct (run_tables h up st Hwf) as (_ & -> & _).
Qed.

(** ** The steps one by one *)

Lemma feed_split_testnets (main testnets pre post : list GithubChain) g g' :
  main ++ testnets = pre ++ g :: post →
  g' ∈ testnets → g' ∉ post → g ∈ testnets.
Proof.
  intros Heq Hin Hpost. apply app_eq_app in Heq as (l & [[-> Heq]|[-> Heq]]).
  - destruct l as [|x l]; cbn in Heq.
    + rewrite <- Heq. by left.
    + injection Heq as -> ->. destruct Hpost. set_solver.
  - rewrite Heq. set_solver.
Qed.

(** X6: a chain listed in the testnet feed is persisted as a testnet
    by the chain-sync step, whatever the main feed says about a chain of
    the same id. *)
Theorem testnet_feed_chain_is_testnet up st githubChain :
  wf_chains (chains st) →
  githubChain ∈ up_testnets_chaindata up →
  ∃ c, chains (updateChainsFromGithub (fetchDataFromGithub up) st) !! gc_id githubChain = Some c
    ∧ chain_isTestnet c = true.
Proof.
  intros Hwf Hin.
  set (g1 := with_isTestnet_true githubChain).
  assert (g1 ∈ map with_isTestnet_true (up_testnets_chaindata up)) as Hin1
    by by apply list_elem_of_fmap_2.
  assert (is_Some (chains (updateChainsFromGithub (fetchDataFromGithub up) st)
                     !! gc_id githubChain)) as [c Hc].
  { apply elem_of_dom. rewrite updateChainsFromGithub_dom by done.
    unfold feedChainIds. apply elem_of_list_to_set, list_elem_of_fmap.
    exists g1. split; [done|]. cbn. set_solver. }
  exists c. split; [done|].
  apply updateChainsFromGithub_last in Hc as (pre & g & post & Hsplit & Hid & Hpost & ->);
    [|done].
  cbn in Hsplit.
  assert (g ∈ map with_isTestnet_true (up_testnets_chaindata up)) as Hg.
  { apply (feed_split_testnets _ _ _ _ _ g1 Hsplit Hin1).
    intros Hp. apply Hpost. unfold feedChainIds.
    apply elem_of_list_to_set, list_elem_of_fmap. by exists g1. }
  apply list_elem_of_fmap in Hg as (g0 & -> & _). done.
Qed.

(** X7: the chain-sync step keeps what the extraction wrote on a chain
    that was already persisted (sort index, genesis hash, prefix, chain,
    implementation and spec names, spec version, native token, currency
    id index and health), and resets every rpc of a chain it saves to
    unhealthy. *)
Theorem chain_sync_keeps_extracted_fields shared st k old c :
  wf_chains (chains st) →
  chains st !! k = Some old →
  chains (updateChainsFromGithub shared st) !! k = Some c →
  chain_sortIndex c = chain_sortIndex old
  ∧ chain_genesisHash c = chain_genesisHash old
  ∧ chain_prefix c = chain_prefix old
  ∧ chain_chainName c = chain_chainName old
  ∧ chain_implName c = chain_implName old
  ∧ chain_specName c = chain_specName old
  ∧ chain_specVersion c = chain_specVersion old
  ∧ chain_nativeToken c = chain_nativeToken old
  ∧ chain_tokensCurrencyIdIndex c = chain_tokensCurrencyIdIndex old
  ∧ chain_isHealthy c = chain_isHealthy old
  ∧ Forall (λ rpc, srpc_isHealthy rpc = false) (chain_rpcs c).
Proof.
  intros Hwf Hold Hc.
  apply updateChainsFromGithub_last in Hc as (pre & g & post & Hsplit & Hid & Hpost & ->);
    [|done].
  destruct (chainsLoop_spec pre st (dom (chains st)) Hwf) as (Hwf' & _).
  fold (chainsLoop pre st) in Hwf'.
  rewrite (upsertChain_fields _ _ Hwf'), Hid, chainsLoop_carried by done.
  unfold getOrCreateChain. rewrite Hold. cbn.
  repeat (split; [done|]). apply Forall_forall. by intros rpc (url & -> & _)%list_elem_of_fmap.
Qed.

(** X8: a chain none of whose rpcs answers the health check is saved
    unhealthy, with every rpc unhealthy; no extraction is attempted and
    nothing else changes. *)
Theorem unreachable_chain_is_not_contacted h up chain st :
  (∀ rpc, rpc ∈ chain_rpcs chain →
     up_substrateProbe up (chain_id chain) (srpc_url rpc) = false) →
  updateOneChain h up chain st
  = (saveChain
       (set_chain_rpcs_health
          (map (λ rpc, mkSubstrateRpc (srpc_url rpc) false) (chain_rpcs chain)) false chain)
       st, []).
Proof.
  intros Hdown. unfold updateOneChain. cbn zeta.
  assert (probeSubstrateRpcs up chain
          = map (λ rpc, mkSubstrateRpc (srpc_url rpc) false) (chain_rpcs chain)) as ->.
  { unfold probeSubstrateRpcs. apply map_ext_in. intros rpc Hin%list_elem_of_In.
    by rewrite Hdown. }
  assert (healthyUrls (map (λ rpc, mkSubstrateRpc (srpc_url rpc) false) (chain_rpcs chain))
          = []) as ->.
  { unfold healthyUrls. clear Hdown. induction (chain_rpcs chain) as [|rpc l IH]; [done|].
    cbn [map]. rewrite filter_cons_False by (cbn; by intros []). exact IH. }
  cbn. f_equal. unfold saveChain, set_chains. cbn. f_equal. apply insert_insert_eq.
Qed.

Section attempt_throws.
Variable h : Helpers.


End attempt_throws.


(** X10: after the probe of its rpcs a network is marked healthy
    exactly when at least one of its rpcs reported an id. *)
Theorem network_healthy_iff_some_rpc_answers up evmNetwork :
  evm_isHealthy (probeEvmNetwork up evmNetwork) = true
  ↔ ∃ rpc, rpc ∈ evm_rpcs evmNetwork
      ∧ is_Some (ethereumIdOf (up_ethChainId up (erpc_url rpc))).
Proof.
  unfold probeEvmNetwork. cbn zeta.
  destruct (head (omap (λ id, id) (ethereumIds up (evm_rpcs evmNetwork)))) as [first|] eqn:Hhead.
  - cbn. assert (first ∈ omap (λ id, id) (ethereumIds up (evm_rpcs evmNetwork))) as Hin.
    { destruct (omap _ _) as [|x l]; [done|]. injection Hhead as ->. by left. }
    apply list_elem_of_omap in Hin as (o & Ho & ->).
    apply list_elem_of_lookup in Ho as [i Hi].
    pose proof Hi as Hi'. unfold ethereumIds in Hi'. rewrite list_lookup_fmap in Hi'.
    destruct (evm_rpcs evmNetwork !! i) as [rpc0|] eqn:Hrpc; [|done].
    cbn in Hi'. injection Hi' as Hid.
    assert (mkEthereumRpc (erpc_url rpc0) true
            ∈ markDisagreeing first (ethereumIds up (evm_rpcs evmNetwork))
                (probedRpcs up (evm_rpcs evmNetwork))) as Hhealthy.
    { apply list_elem_of_lookup. exists i. rewrite markDisagreeing_lookup, Hi.
      rewrite bool_decide_eq_true_2 by done. unfold probedRpcs.
      rewrite list_lookup_fmap, Hrpc. cbn. rewrite Hid. by rewrite bool_decide_eq_true_2. }
    split; intros _.
    + exists rpc0. split; [by apply list_elem_of_lookup_2 in Hrpc|by rewrite Hid].
    + apply bool_decide_eq_true. unfold healthyEthUrls. rewrite length_map.
      assert (mkEthereumRpc (erpc_url rpc0) true
              ∈ filter (λ rpc, Is_true (erpc_isHealthy rpc))
                  (markDisagreeing first (ethereumIds up (evm_rpcs evmNetwork))
                     (probedRpcs up (evm_rpcs evmNetwork)))) as Hf
        by by apply list_elem_of_filter.
      destruct (filter _ _) as [|x l]; [by apply elem_of_nil in Hf|cbn; lia].
  - cbn. pose proof (head_omap_ethereumIds_None up _ Hhead) as Hnone.
    rewrite (probedRpcs_unhealthy up _ Hnone), healthyEthUrls_unhealthy. cbn.
    split; [done|]. intros (rpc & Hin & Hsome). rewrite (Hnone rpc Hin) in Hsome.
    by destruct Hsome.
Qed.

Lemma store_ext (a b : Store) :
  chains a = chains b → evmNetworks a = evmNetworks b → tokens a = tokens b → a = b.
Proof. destruct a, b. cbn. by intros -> -> ->. Qed.

Lemma truthy_string_Some o : truthy_string o = true → ∃ s, o = Some s ∧ s ≠ "".
Proof.
  destruct o as [s|]; [|done]. cbn. intros Hs%negb_true_iff%bool_decide_eq_false.
  by exists s.
Qed.

Lemma renameRow_renamedFrom shared k t t0 r :
  r ∈ githubTokens shared → is_Some (gt_id r) →
  renamedFrom shared k t t0 →
  ∃ t', renameRow k (Some t0) r = Some t' ∧ renamedFrom shared k t t'.
Proof.
  intros Hr [i Hi] (Heq & Hsym & Hcg). unfold renameRow. case_decide as Hk; [|by exists t0].
  rewrite Hi in Hk. cbn in Hk. subst i.
  eexists. split; [done|]. unfold renamedFrom, applyPatch, renamePatch.
  rewrite Heq. cbn. split; [done|]. split.
  - destruct (truthy_string (gt_symbol r)) eqn:Ht; cbn; [|done].
    right. apply truthy_string_Some in Ht as (s & Hs & Hne). by exists r, s.
  - destruct (truthy_string (gt_coingeckoId r)) eqn:Ht; cbn; [|done].
    right. apply truthy_string_Some in Ht as (s & Hs & Hne). by exists r, s.
Qed.

(** X11: the rename pass of the token step neither creates nor removes
    a token, and changes nothing of a token but its symbol and its
    coingecko id, each of them to the non-empty value of a record of the
    feed that names the token. *)
Theorem rename_pass_rewrites_names_only shared st k :
  wf_tokens (tokens st) →
  match tokens st !! k with
  | None => tokens (renameTokens shared st) !! k = None
  | Some t =>
      ∃ t', tokens (renameTokens shared st) !! k = Some t'
        ∧ t' = mkToken (token_id t) (token_isTypeOf t) (token_isTestnet t) (token_symbol t')
                 (token_decimals t) (token_coingeckoId t') (token_rates t)
                 (token_existentialDeposit t) (token_stateKey t) (token_contractAddress t)
                 (token_chain t) (token_evmNetwork t)
        ∧ (token_symbol t' = token_symbol t
           ∨ ∃ r symbol, r ∈ githubTokens shared ∧ gt_id r = Some k
               ∧ gt_symbol r = Some symbol ∧ symbol ≠ "" ∧ token_symbol t' = Some symbol)
        ∧ (token_coingeckoId t' = token_coingeckoId t
           ∨ ∃ r coingeckoId, r ∈ githubTokens shared ∧ gt_id r = Some k
               ∧ gt_coingeckoId r = Some coingeckoId ∧ coingeckoId ≠ ""
               ∧ token_coingeckoId t' = Some coingeckoId)
  end.
Proof.
  intros Hwf. rewrite renameTokens_row by done.
  assert (∀ l, l ⊆ filter (λ t, Is_true (isRenameOrCoingeckoId t)) (githubTokens shared) →
            match tokens st !! k with
            | None => foldl (renameRow k) (tokens st !! k) l = None
            | Some t => ∃ t', foldl (renameRow k) (tokens st !! k) l = Some t'
                          ∧ renamedFrom shared k t t'
            end) as Hall.
  { induction l as [|r l IH] using rev_ind; intros Hsub.
    - destruct (tokens st !! k) as [t|]; [|done]. exists t. split; [done|].
      split; [by destruct t|]. split; by left.
    - rewrite foldl_snoc. assert (l ⊆ filter (λ t, Is_true (isRenameOrCoingeckoId t))
                                        (githubTokens shared)) as Hl by set_solver.
      specialize (IH Hl). destruct (tokens st !! k) as [t|].
      + destruct IH as (t0 & -> & Hren).
        assert (r ∈ filter (λ t, Is_true (isRenameOrCoingeckoId t)) (githubTokens shared))
          as [Hrec Hr]%list_elem_of_filter by set_solver.
        apply (renameRow_renamedFrom shared k t t0 r); [done| |done].
        unfold isRenameOrCoingeckoId in Hrec.
        apply Is_true_true, andb_true_iff in Hrec as [Hid _].
        by apply bool_decide_eq_true in Hid.
      + rewrite IH. unfold renameRow. by case_decide. }
  apply Hall. done.
Qed.

(** X12: the rates step gives quotes only to tokens whose coingecko id
    was among the ids the quote request asked for. *)
Theorem rates_only_for_requested_ids up st k t :
  wf_tokens (tokens st) →
  tokens (updateTokenRates up st) !! k = Some t →
  is_Some (token_rates t) →
  ∃ id, token_coingeckoId t = Some id ∧ id ∈ coingeckoIds st.
Proof.
  intros Hwf Ht Hrates. rewrite updateTokenRates_tokens, lookup_fmap in Ht by done.
  destruct (tokens st !! k) as [t0|] eqn:Ht0; [|done]. cbn in Ht. injection Ht as <-.
  unfold refreshRates in *. cbn in *.
  destruct (token_isTestnet t0) eqn:Htest; [by destruct Hrates|].
  destruct (truthy_string (token_coingeckoId t0)) eqn:Hid; cbn in *; [|by destruct Hrates].
  destruct (token_coingeckoId t0) as [id|] eqn:Hcg; [|done].
  exists id. split; [by case_match|].
  unfold coingeckoIds. apply list_elem_of_omap. exists t0. split.
  - apply elem_of_find. by exists k.
  - by rewrite Htest, Hcg, Hid.
Qed.

Lemma refreshRates_twice prices t :
  refreshRates prices (refreshRates prices t) = refreshRates prices t.
Proof.
  unfold refreshRates. cbn.
  destruct (token_isTestnet t) eqn:Htest; cbn; [by rewrite Htest|].
  destruct (truthy_string (token_coingeckoId t)) eqn:Hid; cbn; [|by rewrite Htest, Hid].
  destruct (prices !! default "" (token_coingeckoId t)) as [rates|] eqn:Hp; cbn;
    by rewrite Htest, Hid, Hp.
Qed.

(** X13: each of the two closing steps, the testnet flags and the
    rates, changes nothing when it is run a second time on its own
    result. *)
Theorem closing_steps_are_idempotent up st :
  wf_tokens (tokens st) →
  updateTokensTestnetField (updateTokensTestnetField st) = updateTokensTestnetField st
  ∧ updateTokenRates up (updateTokenRates up st) = updateTokenRates up st.
Proof.
  intros Hwf. split.
  - destruct (updateTokensTestnetField_frame st Hwf) as (Hc & He & Hwf1).
    destruct (updateTokensTestnetField_frame _ Hwf1) as (Hc2 & He2 & _).
    apply store_ext; [done|done|].
    rewrite (updateTokensTestnetField_tokens _ Hwf1), (updateTokensTestnetField_tokens _ Hwf).
    rewrite <- map_fmap_compose. apply map_fmap_ext. intros k t _. cbn.
    rewrite (isTestnetToken_ext (updateTokensTestnetField st) st
               (set_token_isTestnet (isTestnetToken st t) t) t Hc He); [done|].
    by repeat split.
  - destruct (updateTokenRates_frame up st Hwf) as (Hc & He & Hwf1).
    destruct (updateTokenRates_frame up _ Hwf1) as (Hc2 & He2 & _).
    apply store_ext; [done|done|].
    rewrite (updateTokenRates_tokens up _ Hwf1), (updateTokenRates_tokens up _ Hwf).
    rewrite <- map_fmap_compose. apply map_fmap_ext. intros k t _. cbn.
    apply refreshRates_twice.
Qed.

(** X14: when the ordering helper only assigns sort indices, the sort
    step leaves the tokens alone and changes nothing of a chain or a
    network but its sort index; it neither adds nor removes a row. *)
Theorem sort_step_only_assigns_sort_indices h st :
  sortAssignsRanks h →
  wf_store st →
  tokens (updateSortIndexes h st) = tokens st
  ∧ (∀ k, set_chain_sortIndex None <$> chains (updateSortIndexes h st) !! k
          = set_chain_sortIndex None <$> chains st !! k)
  ∧ (∀ k, set_evm_sortIndex None <$> evmNetworks (updateSortIndexes h st) !! k
          = set_evm_sortIndex None <$> evmNetworks st !! k).
Proof.
  intros (rankC & rankN & Hranks) (Hwc & Hwn & _).
  destruct (updateSortIndexes_closed h rankC rankN Hranks st Hwc Hwn) as (-> & -> & ->).
  split; [done|]. split; intros k; rewrite lookup_fmap.
  - by destruct (chains st !! k).
  - by destruct (evmNetworks st !! k).
Qed.

(** X15: the post-block hook runs the steps on a block whose height
    is a multiple of fifty and that is at most a day old, and leaves the
    store alone on every other block; so of two blocks less than fifty
    heights apart at most one runs the steps. *)
Theorem hook_is_throttled h up now now' height height' timestamp timestamp' st st' :
  (height mod 50 = 0 → (now - timestamp ≤ 86400000)%Z →
   postHook h up now height timestamp st = processorSteps h up st)
  ∧ (height mod 50 ≠ 0 ∨ (86400000 < now - timestamp)%Z →
     postHook h up now height timestamp st = st)
  ∧ ((height < height' < height + 50)%Z →
     postHook h up now height timestamp st = st
     ∨ postHook h up now' height' timestamp' st' = st').
Proof.
  unfold postHook, numBlocksPerExecution, skipBlocksOlderThan.
  split; [|split].
  - intros Hm Ht. rewrite bool_decide_eq_true_2 by done. cbn.
    by rewrite bool_decide_eq_false_2 by lia.
  - intros [Hm|Ht].
    + by rewrite bool_decide_eq_false_2.
    + case_bool_decide; [|done]. cbn. by rewrite bool_decide_eq_true_2.
  - intros Hh. destruct (decide (height mod 50 = 0)) as [Hm|Hm].
    + right. rewrite bool_decide_eq_false_2; [done|]. intros Hm'.
      apply Z.mod_divide in Hm as [a Ha]; [|lia].
      apply Z.mod_divide in Hm' as [b Hb]; [|lia]. lia.
    + left. by rewrite bool_decide_eq_false_2.
Qed.

(** X16: each step writes only the tables it owns: the chain steps
    leave the networks alone (and the chain-sync step the tokens as
    well), the network step leaves the chains alone, the sort step the
    tokens, and the three token steps the chains and the networks. *)
Theorem steps_write_their_own_tables h up shared st :
  wf_store st →
  (evmNetworks (updateChainsFromGithub shared st) = evmNetworks st
   ∧ tokens (updateChainsFromGithub shared st) = tokens st)
  ∧ evmNetworks (updateChainData h up st) = evmNetworks st
  ∧ chains (updateEvmNetworksFromGithub h up shared st) = chains st
  ∧ tokens (updateSortIndexes h st) = tokens st
  ∧ (chains (updateTokensFromGithub h shared st) = chains st
     ∧ evmNetworks (updateTokensFromGithub h shared st) = evmNetworks st)
  ∧ (chains (updateTokensTestnetField st) = chains st
     ∧ evmNetworks (updateTokensTestnetField st) = evmNetworks st)
  ∧ (chains (updateTokenRates up st) = chains st
     ∧ evmNetworks (updateTokenRates up st) = evmNetworks st).
Proof.
  intros Hwf. pose proof Hwf as (Hwc & Hwn & Hwt).
  split; [apply (updateChainsFromGithub_frame shared st Hwc)|].
  split; [apply (updateChainData_closed h up st Hwc Hwt)|].
  split.
  { rewrite (updateEvmNetworksFromGithub_eq h up shared st Hwf). cbn.
    apply (evmLoopFinal_store h up shared st Hwf). }
  split; [apply (updateSortIndexes_keeps h st Hwf)|].
  split; [split; apply (updateTokensFromGithub_frame h shared st Hwt)|].
  split; [split; apply (updateTokensTestnetField_frame st Hwt)|].
  split; apply (updateTokenRates_frame up st Hwt).
Qed.

(** X17: the chain-data step neither adds nor removes a chain and
    leaves what the feed says of a chain as it is; the rpcs keep their
    urls and carry the answers of the health check, and a chain that is
    marked healthy has at least one healthy rpc. *)
Theorem chain_data_step_keeps_feed_fields h up st k :
  wf_store st →
  match chains st !! k with
  | None => chains (updateChainData h up st) !! k = None
  | Some c =>
      ∃ c', chains (updateChainData h up st) !! k = Some c'
        ∧ chain_id c' = chain_id c ∧ chain_isTestnet c' = chain_isTestnet c
        ∧ chain_sortIndex c' = chain_sortIndex c ∧ chain_name c' = chain_name c
        ∧ chain_account c' = chain_account c ∧ chain_subscanUrl c' = chain_subscanUrl c
        ∧ chain_paraId c' = chain_paraId c ∧ chain_relay c' = chain_relay c
        ∧ chain_rpcs c'
          = map (λ rpc, mkSubstrateRpc (srpc_url rpc)
                          (up_substrateProbe up (chain_id c) (srpc_url rpc)))
              (chain_rpcs c)
        ∧ (chain_isHealthy c' = true →
           ∃ rpc, rpc ∈ chain_rpcs c' ∧ srpc_isHealthy rpc = true)
  end.
Proof.
  intros (Hwc & _ & Hwt).
  destruct (updateChainData_closed h up st Hwc Hwt) as (-> & _).
  rewrite lookup_fmap. destruct (chains st !! k) as [c|]; [|done]. cbn.
  exists (dChain h up c). split; [done|].
  assert (chain_isHealthy (dChain h up c) = true →
          ∃ rpc, rpc ∈ probeSubstrateRpcs up c ∧ srpc_isHealthy rpc = true) as Hhealthy.
  { unfold dChain. destruct (extractedData h up c); [|done]. cbn.
    intros Hlen%bool_decide_eq_true. unfold healthyUrls in Hlen. rewrite length_map in Hlen.
    destruct (filter _ (probeSubstrateRpcs up c)) as [|rpc l] eqn:Hf; [cbn in Hlen; lia|].
    assert (rpc ∈ filter (λ rpc, Is_true (srpc_isHealthy rpc)) (probeSubstrateRpcs up c))
      as [Hh Hin]%list_elem_of_filter by (rewrite Hf; by left).
    exists rpc. split; [done|]. by apply Is_true_true. }
  unfold dChain in *. by destruct (extractedData h up c).
Qed.

(** X18: no step writes the currency id index of a chain: after a run
    it is what it was before the run, and absent on a chain the run
    created. *)
Theorem run_never_writes_tokensCurrencyIdIndex h up st k c :
  sortAssignsRanks h →
  wf_store st →
  chains (processorSteps h up st) !! k = Some c →
  chain_tokensCurrencyIdIndex c = chains st !! k ≫= chain_tokensCurrencyIdIndex.
Proof.
  intros (rankC & rankN & Hranks) Hwf Hc. pose proof Hwf as (Hwc & Hwn & Hwt).
  rewrite (run_chains h up rankC rankN Hranks st Hwf), lookup_fmap in Hc.
  unfold afterTasks in Hc.
  destruct (updateChainsFromGithub_frame (fetchDataFromGithub up) st Hwc) as (Hwc1 & He1 & Ht1).
  destruct (updateChainData_closed h up (updateChainsFromGithub (fetchDataFromGithub up) st) Hwc1)
    as (Hcl & _); [by rewrite Ht1|].
  rewrite Hcl, lookup_fmap in Hc.
  destruct (chains (updateChainsFromGithub (fetchDataFromGithub up) st) !! k) as [c0|] eqn:Hc0;
    [|done].
  cbn in Hc. injection Hc as <-.
  apply updateChainsFromGithub_last in Hc0 as (pre & g & post & Hsplit & Hid & Hpost & ->);
    [|done].
  destruct (chainsLoop_spec pre st (dom (chains st)) Hwc) as (Hwf' & _).
  fold (chainsLoop pre st) in Hwf'.
  rewrite (upsertChain_fields _ _ Hwf'), Hid, chainsLoop_carried by done.
  unfold getOrCreateChain, dChain.
  destruct (extractedData h up _); by destruct (chains st !! k).
Qed.

(** X19: an extraction attempt that goes through leaves the native
    token of the chain persisted under the id made of the chain id and
    the first symbol the chain reports, as a native token with that
    symbol, the first of the reported decimals and the existential
    deposit of the runtime; the chain row refers to that token and
    carries the genesis hash, the names and the version the rpc
    answered, and as prefix the one of the metadata, else the one of the
    chain properties, else 42. *)
Theorem chain_native_token_fields h chain data st st' :
  wf_chains (chains st) →
  wf_tokens (tokens st) →
  applyRpcData h chain data st = Done st' tt →
  let symbol := nativeSymbol (chosenSymbols h (chain_id chain) data) in
  ∃ nativeToken c,
    tokens st' !! hp_nativeTokenId h (chain_id chain) symbol = Some nativeToken
    ∧ token_isTypeOf nativeToken = NativeToken
    ∧ token_symbol nativeToken = symbol
    ∧ token_decimals nativeToken = nativeDecimals (chosenDecimals h (chain_id chain) data)
    ∧ token_existentialDeposit nativeToken = rd_existentialDeposit data
    ∧ chains st' !! chain_id chain = Some c
    ∧ chain_nativeToken c = Some (hp_nativeTokenId h (chain_id chain) symbol)
    ∧ chain_genesisHash c = rd_genesisHash data
    ∧ chain_chainName c = rd_chainName data
    ∧ chain_implName c = rd_implName data
    ∧ chain_specName c = rd_specName data
    ∧ chain_specVersion c = rd_specVersion data
    ∧ chain_prefix c
      = Some match rd_chainSS58 data, rd_ss58Format data with
             | Some ss58Prefix, _ => ss58Prefix
             | None, Some ss58Format => ss58Format
             | None, None => 42
             end.
Proof.
  intros Hwc Hwt Hdone. cbn zeta.
  assert (throws (applyRpcData h (newChain (chain_id chain)) data emptyStore) = false) as Hok.
  { rewrite (applyRpcData_throws_indep h _ data emptyStore st).
    assert (throws (applyRpcData h chain data st) = false) as <- by by rewrite Hdone.
    unfold applyRpcData. by cbn [chain_id newChain]. }
  destruct (applyRpcData_Done h chain data st st' Hwc Hwt Hdone) as (Hc & _ & Ht & _).
  destruct (dTokens_row h (chain_id chain) data (tokens st)
              (hp_nativeTokenId h (chain_id chain)
                 (nativeSymbol (chosenSymbols h (chain_id chain) data))) Hwt Hok) as [Hrow _].
  rewrite Ht, Hrow, Hc, lookup_insert_eq. unfold dRow.
  unfold applyRpcData in Hok. destruct (tokenSymbolVariants data) as [variants|]; [|done].
  cbn zeta. rewrite decide_True by done. unfold makeRow, chainPrefix.
  eexists _, _. split; [reflexivity|]. split; [by rewrite applyPatch_kind, gocRow_kind|].
  cbn. repeat (split; [done|]). unfold set_chain_data, chainPrefix. cbn.
  by destruct (rd_chainSS58 data), (rd_ss58Format data).
Qed.

Lemma renameRows_patch k (l : list GithubToken) :
  ∃ p, ∀ x, foldl (renameRow k) x l = applyPatch p <$> x.
Proof.
  induction l as [|r l IH] using rev_ind.
  - exists emptyPatch. intros [t|]; [|done]. cbn. by rewrite applyPatch_empty.
  - destruct IH as [p Hp]. unfold renameRow.
    destruct (decide (default "" (gt_id r) = k)) as [Hk|Hk].
    + exists (overPatch (renamePatch r) p). intros x. rewrite foldl_snoc, Hp.
      rewrite decide_True by done. destruct x as [t|]; [|done]. cbn.
      by rewrite applyPatch_over.
    + exists p. intros x. rewrite foldl_snoc, Hp. by rewrite decide_False.
Qed.

(** X20: when the two chain feeds and the network feed are empty, a
    run removes every chain, every network and every erc20 token, and
    keeps every other token: the native and the orml tokens stay without
    the chains and networks they belonged to. *)
Theorem run_on_empty_feeds h up st :
  sortAssignsRanks h →
  wf_store st →
  up_chaindata up = [] → up_testnets_chaindata up = [] → up_evm_networks up = [] →
  chains (processorSteps h up st) = ∅
  ∧ evmNetworks (processorSteps h up st) = ∅
  ∧ ∀ k, is_Some (tokens (processorSteps h up st) !! k)
         ↔ ∃ t, tokens st !! k = Some t ∧ token_isTypeOf t ≠ Erc20Token.
Proof.
  intros (rankC & rankN & Hranks) Hwf Hmain Htest Hnets.
  pose proof Hwf as (Hwc & Hwn & Hwt).
  assert (githubChains (fetchDataFromGithub up) = []) as Hfeed
    by (cbn; by rewrite Hmain, Htest).
  assert (chains (updateChainsFromGithub (fetchDataFromGithub up) st) = ∅) as Hc1.
  { apply dom_empty_inv_L. rewrite updateChainsFromGithub_dom by done. by rewrite Hfeed. }
  destruct (updateChainsFromGithub_frame (fetchDataFromGithub up) st Hwc) as (Hwc1 & He1 & Ht1).
  assert (chains (afterTasks h up st) = ∅) as Hc2.
  { unfold afterTasks.
    destruct (updateChainData_closed h up (updateChainsFromGithub (fetchDataFromGithub up) st)
                Hwc1) as (-> & _); [by rewrite Ht1|].
    by rewrite Hc1, fmap_empty. }
  destruct (afterTasks_wf h up st Hwf) as [Hwf2 _].
  assert (evmNetworkUpdates h up (fetchDataFromGithub up) (afterTasks h up st) = []) as Hups.
  { rewrite (evmNetworkUpdates_eq h up _ _ Hwf2).
    unfold incomingEvmNetworks, standaloneEvmNetworks, substrateEvmNetworks. cbn.
    by rewrite Hnets. }
  assert (evmNetworks (afterNetworks h up st) = ∅) as He3.
  { apply map_empty. intros i. unfold afterNetworks.
    apply (evm_unaffirmed_is_deleted h up _ _ Hwf2). rewrite Hups.
    by intros u ?%elem_of_nil. }
  assert (chains (processorSteps h up st) = ∅) as Hc.
  { by rewrite (run_chains h up rankC rankN Hranks st Hwf), Hc2, fmap_empty. }
  assert (evmNetworks (processorSteps h up st) = ∅) as He.
  { by rewrite (run_evmNetworks h up rankC rankN Hranks st Hwf), He3, fmap_empty. }
  split; [done|]. split; [done|]. intros k.
  rewrite (run_token_row h up st k Hwf), fmap_is_Some.
  destruct (run_tables h up st Hwf) as (_ & He' & _). rewrite <- He', He, Hc1, Hups.
  unfold pipelineRow. cbn zeta. cbn [foldl].
  assert (find (∅ : gmap string Chain) = []) as -> by done. cbn [foldl].
  destruct (renameRows_patch k (renameRecords (fetchDataFromGithub up))) as [p ->].
  unfold reconcileRow. rewrite decide_False.
  - destruct (tokens st !! k) as [t|]; cbn.
    + unfold isErc20Row. rewrite applyPatch_kind. case_bool_decide as Hk; cbn.
      * split; [by intros []|]. by intros (t' & [= <-] & ?).
      * split; [|done]. intros _. by exists t.
    + split; [by intros []|]. by intros (t' & [=] & _).
  - intros (r & Hr & _)%list_elem_of_fmap. unfold erc20IdOf in Hr.
    by rewrite lookup_empty in Hr.
Qed.


Lemma refreshRates_flag prices t :
  token_isTestnet (refreshRates prices t) = token_isTestnet t
  ∧ (token_isTestnet t = true → token_rates (refreshRates prices t) = None).
Proof.
  unfold refreshRates. cbn zeta. cbn [set_token_rates token_isTestnet token_coingeckoId].
  destruct (token_isTestnet t) eqn:Htest; [done|].
  destruct (negb (truthy_string (token_coingeckoId t))); [done|].
  by destruct (prices !! default "" (token_coingeckoId t)).
Qed.

(** X22: after a run the testnet flag of every token is the one the
    testnet rule gives on the chains and networks of the store the run
    leaves, and a token flagged testnet carries no rates. *)
Theorem run_leaves_testnet_flags_consistent h up st k t :
  wf_store st →
  tokens (processorSteps h up st) !! k = Some t →
  token_isTestnet t = isTestnetToken (processorSteps h up st) t
  ∧ (token_isTestnet t = true → token_rates t = None).
Proof.
  intros Hwf Ht. pose proof (run_tables h up st Hwf) as (Hc & He & _).
  rewrite (run_token_row h up st k Hwf) in Ht.
  apply fmap_Some in Ht as (t0 & _ & ->).
  rewrite (isTestnetToken_ext (processorSteps h up st) (afterSort h up st)
             (settleToken up (afterSort h up st) t0) t0 Hc He)
    by apply sim_settleToken.
  unfold settleToken.
  destruct (refreshRates_flag (up_coingeckoPrices up)
              (set_token_isTestnet (isTestnetToken (afterSort h up st) t0) t0)) as [Hflag Hrates].
  rewrite Hflag. split; [done|]. intros Htest. by apply Hrates.
Qed.

Section invalid_record.
Variable h : Helpers.
Variable up : Upstream.

Lemma evmLoopBody_feed_ext shared shared' acc e :
  (∀ e, githubNetworkOf shared e = githubNetworkOf shared' e) →
  evmLoopBody h up shared acc e = evmLoopBody h up shared' acc e.
Proof.
  intros Hext. unfold evmLoopBody, provisionNativeToken. cbn zeta. by rewrite Hext.
Qed.

Lemma evmLoop_feed_ext shared shared' (l : list EvmNetwork) acc :
  (∀ e, githubNetworkOf shared e = githubNetworkOf shared' e) →
  foldl (evmLoopBody h up shared) acc l = foldl (evmLoopBody h up shared') acc l.
Proof.
  intros Hext. revert acc. induction l as [|e l IH]; intros acc; [done|].
  cbn. by rewrite IH, (evmLoopBody_feed_ext shared shared' acc e Hext).
Qed.

End invalid_record.

(** X23: a record of the network feed that has neither a name nor a
    chain is ignored: the network step does what it does without the
    record. *)
Theorem invalid_network_record_is_ignored h up st githubChains githubTokens pre r post :
  gn_name r = None →
  gn_substrateChainId r = None →
  updateEvmNetworksFromGithub h up (mkSharedData githubChains (pre ++ r :: post) githubTokens) st
  = updateEvmNetworksFromGithub h up (mkSharedData githubChains (pre ++ post) githubTokens) st.
Proof.
  intros Hname Hchain.
  assert (filter (λ r, Is_true (isStandaloneRecord r)) (pre ++ r :: post)
          = filter (λ r, Is_true (isStandaloneRecord r)) (pre ++ post)) as Hst.
  { rewrite !filter_app, filter_cons_False; [done|].
    unfold isStandaloneRecord. rewrite Hname. rewrite andb_comm. cbn. by intros []. }
  assert (filter (λ r, Is_true (isSubstrateRecord r)) (pre ++ r :: post)
          = filter (λ r, Is_true (isSubstrateRecord r)) (pre ++ post)) as Hsub.
  { rewrite !filter_app, filter_cons_False; [done|].
    unfold isSubstrateRecord. rewrite Hchain. cbn. by intros []. }
  assert (evmLoopFinal h up (mkSharedData githubChains (pre ++ r :: post) githubTokens) st
          = evmLoopFinal h up (mkSharedData githubChains (pre ++ post) githubTokens) st) as Hloop.
  { unfold evmLoopFinal, standaloneEvmNetworks, substrateEvmNetworks. cbn zeta.
    cbn [githubEvmNetworks]. rewrite Hst, Hsub. apply evmLoop_feed_ext.
    intros e. unfold githubNetworkOf. cbn [githubEvmNetworks]. by rewrite Hst. }
  unfold updateEvmNetworksFromGithub, evmNetworkUpdates. cbn zeta. by rewrite Hloop.
Qed.

(** ** The statements on the sample inputs *)

Lemma wf_store_decide st :
  bool_decide (wf_chains (chains st)) && bool_decide (wf_evmNetworks (evmNetworks st))
  && bool_decide (wf_tokens (tokens st)) = true →
  wf_store st.
Proof.
  intros H. apply andb_true_iff in H as [H H3]. apply andb_true_iff in H as [H1 H2].
  split; [|split]; by eapply bool_decide_eq_true_1.
Defined.

Lemma wf_tokens_decide m : bool_decide (wf_tokens m) = true → wf_tokens m.
Proof. apply bool_decide_eq_true_1. Defined.

Lemma relay_and_paraId_set_together_witness :
  ∃ c, chains (updateChainsFromGithub Sample.relayFirst Sample.emptyStore) !! "acala" = Some c
    ∧ (is_Some (chain_relay c) ↔ is_Some (chain_paraId c)).
Proof.
  eexists. split; [vm_compute; reflexivity|].
  eapply (relay_and_paraId_set_together Sample.relayFirst Sample.emptyStore "acala").
  - apply map_Forall_empty.
  - vm_compute. reflexivity.
Defined.


Lemma retry_budget_round_robin_witness :
  length (updateOneChain Sample.helpers Sample.upAllFail Sample.polkadot Sample.storeWithDot).2
  = 6%nat.
Proof.
  pose proof (retry_budget_round_robin Sample.helpers Sample.upAllFail Sample.polkadot
                Sample.storeWithDot) as H.
  cbn zeta in H. destruct H as (_ & _ & _ & _ & Hall); [vm_compute; lia|].
  destruct Hall as [Hlen _]; [intros a _; reflexivity|]. exact Hlen.
Defined.


Lemma token_testnet_is_and_of_referrers_witness :
  ∃ t', tokens (updateTokensTestnetField Sample.storeAB) !! "T" = Some t'
    ∧ token_isTestnet t' = false.
Proof.
  destruct (token_testnet_is_and_of_referrers Sample.storeAB "T" Sample.tokenT)
    as (t' & Ht' & _ & _ & _ & _ & Hfalse).
  - apply wf_store_decide. vm_compute. reflexivity.
  - vm_compute. reflexivity.
  - exists t'. split; [done|].
    apply (Hfalse "B" Sample.chainB); [vm_compute; reflexivity|right; reflexivity|reflexivity].
Defined.


Lemma linked_network_takes_the_records_name :
  ∃ n c,
    evmNetworks (updateEvmNetworksFromGithub Sample.helpers Sample.upEth Sample.sharedMoonbeam
                   Sample.storeWithMoonbeam) !! "1284" = Some n
    ∧ evm_substrateChain n = Some "moonbeam"
    ∧ chains Sample.storeWithMoonbeam !! "moonbeam" = Some c
    ∧ evm_name n ≠ chain_name c.
Proof.
  eexists. eexists. split; [vm_compute; reflexivity|].
  split; [reflexivity|]. split; [vm_compute; reflexivity|]. cbn. discriminate.
Qed.

Lemma linked_network_inherits_testnet_and_default_name_witness :
  ∃ n, evmNetworks (updateEvmNetworksFromGithub Sample.helpers Sample.upEth
                      Sample.sharedMoonbeam Sample.storeWithMoonbeam) !! "1284" = Some n
    ∧ evm_isTestnet n = true ∧ evm_name n = Some "Moonbeam EVM".
Proof.
  eexists. split; [vm_compute; reflexivity|].
  edestruct (linked_network_inherits_testnet_and_default_name Sample.helpers Sample.upEth
               Sample.sharedMoonbeam Sample.storeWithMoonbeam "1284")
    as (r & sid & c & Hr & Hsid & Hc & _ & Htest & Hname & _).
  - apply wf_store_decide. vm_compute. reflexivity.
  - vm_compute. reflexivity.
  - cbn. eauto.
  - split; reflexivity.
Defined.




Lemma sortingHelpers_assign_ranks : sortAssignsRanks Sample.sortingHelpers.
Proof.
  exists (λ chains _ id, Sample.rankOf (chain_id <$> chains) 0 id),
    (λ chains evmNetworks id,
       Sample.rankOf (evmKey <$> evmNetworks) (length chains) id).
  intros chains evmNetworks. cbn [hp_sortChainsAndNetworks Sample.sortingHelpers].
  rewrite <- !list_fmap_compose, length_fmap. done.
Defined.

Lemma evmUpdatesSettled_whole :
  evmUpdatesSettled Sample.sortingHelpers Sample.upWhole (fetchDataFromGithub Sample.upWhole)
    (afterTasks Sample.sortingHelpers Sample.upWhole Sample.storeWithDot).
Proof.
  unfold evmUpdatesSettled.
  set (U := evmNetworkUpdates _ _ _ _).
  set (names := gn_name <$> standaloneRecords _).
  set (nets := evmNetworks _).
  vm_compute in U. vm_compute in names.
  assert (nets = ∅) as -> by (vm_compute; reflexivity).
  subst U names. split.
  - cbn. repeat constructor; set_solver.
  - repeat constructor; cbn; try done; intros _; set_solver.
Defined.

(** The second run of a feed that lists a parachain before its relay
    links the parachain to the relay, which the first run did not. *)
Lemma second_run_links_the_relay :
  processorSteps Sample.helpers Sample.upParaFirst
    (processorSteps Sample.helpers Sample.upParaFirst Sample.emptyStore)
  ≠ processorSteps Sample.helpers Sample.upParaFirst Sample.emptyStore
  ∧ (chains (processorSteps Sample.helpers Sample.upParaFirst Sample.emptyStore) !! "acala")
      ≫= chain_relay = None
  ∧ (chains (processorSteps Sample.helpers Sample.upParaFirst
               (processorSteps Sample.helpers Sample.upParaFirst Sample.emptyStore))
       !! "acala") ≫= chain_relay = Some "polkadot".
Proof.
  split; [|split; vm_compute; reflexivity].
  intros Heq. apply (f_equal (λ st, (chains st !! "acala") ≫= chain_relay)) in Heq.
  vm_compute in Heq. discriminate.
Qed.

Lemma second_run_changes_nothing_witness :
  processorSteps Sample.sortingHelpers Sample.upWhole
    (processorSteps Sample.sortingHelpers Sample.upWhole Sample.storeWithDot)
  = processorSteps Sample.sortingHelpers Sample.upWhole Sample.storeWithDot.
Proof.
  apply second_run_changes_nothing.
  - apply sortingHelpers_assign_ranks.
  - apply wf_store_decide. vm_compute. reflexivity.
  - vm_compute. reflexivity.
  - split; vm_compute; repeat constructor; set_solver.
  - apply evmUpdatesSettled_whole.
Defined.

Lemma run_removes_only_erc20_and_feed_orml_tokens_witness :
  tokens (processorSteps Sample.sortingHelpers Sample.upWhole Sample.storeStale)
    !! "9-erc20-0xdead" = None
  ∧ (token_isTypeOf Sample.staleErc20 = Erc20Token
     ∨ (token_isTypeOf Sample.staleErc20 = OrmlToken
        ∧ ∃ githubChain, githubChain ∈ githubChains (fetchDataFromGithub Sample.upWhole)
            ∧ token_chain Sample.staleErc20 = Some (gc_id githubChain))).
Proof.
  split; [vm_compute; reflexivity|].
  apply (run_removes_only_erc20_and_feed_orml_tokens Sample.sortingHelpers Sample.upWhole
           Sample.storeStale "9-erc20-0xdead").
  - apply wf_store_decide. vm_compute. reflexivity.
  - vm_compute. reflexivity.
  - vm_compute. reflexivity.
Defined.

Lemma healthy_chain_has_its_native_token_witness :
  ∃ k t,
    (chains (processorSteps Sample.sortingHelpers Sample.upWhole Sample.storeWithDot)
       !! "acala") ≫= chain_nativeToken = Some k
    ∧ tokens (processorSteps Sample.sortingHelpers Sample.upWhole Sample.storeWithDot) !! k
      = Some t.
Proof.
  destruct (chains (processorSteps Sample.sortingHelpers Sample.upWhole Sample.storeWithDot)
              !! "acala") as [c|] eqn:Hc; [|vm_compute in Hc; discriminate].
  destruct (healthy_chain_has_its_native_token Sample.sortingHelpers Sample.upWhole
              Sample.storeWithDot "acala" c) as (k & t & Hk & Ht & _).
  - apply sortingHelpers_assign_ranks.
  - apply wf_store_decide. vm_compute. reflexivity.
  - exact Hc.
  - vm_compute in Hc. injection Hc as <-. reflexivity.
  - exists k, t. split; [exact Hk|exact Ht].
Defined.

Lemma standalone_network_has_its_native_token_witness :
  ∃ k t,
    (evmNetworks (processorSteps Sample.sortingHelpers Sample.upWhole Sample.storeWithDot)
       !! "5") ≫= evm_nativeToken = Some k
    ∧ tokens (processorSteps Sample.sortingHelpers Sample.upWhole Sample.storeWithDot) !! k
      = Some t.
Proof.
  destruct (evmNetworks (processorSteps Sample.sortingHelpers Sample.upWhole
                           Sample.storeWithDot) !! "5") as [n|] eqn:Hn;
    [|vm_compute in Hn; discriminate].
  destruct (standalone_network_has_its_native_token Sample.sortingHelpers Sample.upWhole
              Sample.storeWithDot "5" n) as (k & t & Hk & Ht & _).
  - apply sortingHelpers_assign_ranks.
  - apply wf_store_decide. vm_compute. reflexivity.
  - exact Hn.
  - vm_compute in Hn. injection Hn as <-. reflexivity.
  - exists k, t. split; [exact Hk|exact Ht].
Defined.

Lemma linked_network_agrees_with_its_chain_witness :
  ∃ c,
    chains (processorSteps Sample.sortingHelpers Sample.upWhole Sample.storeWithDot) !! "acala"
    = Some c
    ∧ (evmNetworks (processorSteps Sample.sortingHelpers Sample.upWhole Sample.storeWithDot)
         !! "1284") ≫= evm_nativeToken = chain_nativeToken c.
Proof.
  destruct (evmNetworks (processorSteps Sample.sortingHelpers Sample.upWhole
                           Sample.storeWithDot) !! "1284") as [n|] eqn:Hn;
    [|vm_compute in Hn; discriminate].
  destruct (linked_network_agrees_with_its_chain Sample.sortingHelpers Sample.upWhole
              Sample.storeWithDot "1284" n "acala") as (c & Hc & _ & Hnat).
  - apply sortingHelpers_assign_ranks.
  - apply wf_store_decide. vm_compute. reflexivity.
  - exact Hn.
  - vm_compute in Hn. injection Hn as <-. reflexivity.
  - exists c. split; [exact Hc|exact Hnat].
Defined.

Lemma erc20_token_has_its_network_witness :
  ∃ i n,
    (tokens (processorSteps Sample.sortingHelpers Sample.upWhole Sample.storeWithDot)
       !! "5-erc20-0xa0b8") ≫= token_evmNetwork = Some i
    ∧ evmNetworks (processorSteps Sample.sortingHelpers Sample.upWhole Sample.storeWithDot) !! i
      = Some n.
Proof.
  destruct (tokens (processorSteps Sample.sortingHelpers Sample.upWhole Sample.storeWithDot)
              !! "5-erc20-0xa0b8") as [t|] eqn:Ht; [|vm_compute in Ht; discriminate].
  destruct (erc20_token_has_its_network Sample.sortingHelpers Sample.upWhole
              Sample.storeWithDot "5-erc20-0xa0b8" t) as (i & n & Hi & Hn).
  - apply wf_store_decide. vm_compute. reflexivity.
  - exact Ht.
  - vm_compute in Ht. injection Ht as <-. reflexivity.
  - exists i, n. split; [exact Hi|exact Hn].
Defined.

Lemma testnet_feed_chain_is_testnet_witness :
  ∃ c, chains (updateChainsFromGithub (fetchDataFromGithub Sample.upTestnets)
                 Sample.emptyStore) !! "westend" = Some c
    ∧ chain_isTestnet c = true.
Proof.
  apply (testnet_feed_chain_is_testnet Sample.upTestnets Sample.emptyStore Sample.westend).
  - apply map_Forall_empty.
  - vm_compute. by left.
Defined.

Lemma chain_sync_keeps_extracted_fields_witness :
  ∃ c, chains (updateChainsFromGithub Sample.sharedMoonbeamChain Sample.storeWithMoonbeam)
         !! "moonbeam" = Some c
    ∧ chain_nativeToken c = Some "moonbeam-native-GLMR"
    ∧ chain_name c = Some "Moonbeam Network".
Proof.
  destruct (chains (updateChainsFromGithub Sample.sharedMoonbeamChain Sample.storeWithMoonbeam)
              !! "moonbeam") as [c|] eqn:Hc; [|vm_compute in Hc; discriminate].
  destruct (chain_sync_keeps_extracted_fields Sample.sharedMoonbeamChain
              Sample.storeWithMoonbeam "moonbeam" Sample.moonbeam c)
    as (_ & _ & _ & _ & _ & _ & _ & Hnat & _).
  - apply (wf_store_decide Sample.storeWithMoonbeam). vm_compute. reflexivity.
  - vm_compute. reflexivity.
  - exact Hc.
  - exists c. split; [reflexivity|]. split; [exact Hnat|].
    vm_compute in Hc. injection Hc as <-. reflexivity.
Defined.

Lemma unreachable_chain_is_not_contacted_witness :
  (updateOneChain Sample.helpers Sample.upEth Sample.polkadot Sample.storeWithDot).2 = []
  ∧ tokens (updateOneChain Sample.helpers Sample.upEth Sample.polkadot Sample.storeWithDot).1
    = tokens Sample.storeWithDot.
Proof.
  rewrite (unreachable_chain_is_not_contacted Sample.helpers Sample.upEth Sample.polkadot
             Sample.storeWithDot); [split; reflexivity|].
  intros rpc _. reflexivity.
Defined.

Lemma rename_pass_rewrites_names_only_witness :
  ∃ t', tokens (renameTokens Sample.sharedRenames Sample.storeAB) !! "T" = Some t'
    ∧ token_decimals t' = Some 12
    ∧ tokens (renameTokens Sample.sharedRenames Sample.storeAB) !! "Z" = None.
Proof.
  pose proof (rename_pass_rewrites_names_only Sample.sharedRenames Sample.storeAB "T") as HT.
  pose proof (rename_pass_rewrites_names_only Sample.sharedRenames Sample.storeAB "Z") as HZ.
  assert (wf_tokens (tokens Sample.storeAB)) as Hwf
    by (apply wf_tokens_decide; vm_compute; reflexivity).
  specialize (HT Hwf). specialize (HZ Hwf).
  assert (tokens Sample.storeAB !! "T" = Some Sample.tokenT) as HlT by (vm_compute; reflexivity).
  assert (tokens Sample.storeAB !! "Z" = None) as HlZ by (vm_compute; reflexivity).
  rewrite HlT in HT. rewrite HlZ in HZ.
  destruct HT as (t' & Ht' & Heq & _).
  exists t'. split; [exact Ht'|]. split; [by rewrite Heq|exact HZ].
Defined.

Lemma rates_only_for_requested_ids_witness :
  ∃ id, token_coingeckoId Sample.tokenO = Some id ∧ id ∈ coingeckoIds Sample.storeQuoted.
Proof.
  destruct (rates_only_for_requested_ids Sample.upPrices Sample.storeQuoted "O"
              (refreshRates (up_coingeckoPrices Sample.upPrices) Sample.tokenO))
    as (id & Hid & Hin).
  - apply wf_tokens_decide. vm_compute. reflexivity.
  - vm_compute. reflexivity.
  - vm_compute. eauto.
  - exists id. split; [exact Hid|exact Hin].
Defined.

Lemma closing_steps_are_idempotent_witness :
  updateTokensTestnetField (updateTokensTestnetField Sample.storeAB)
  = updateTokensTestnetField Sample.storeAB
  ∧ updateTokenRates Sample.upPrices (updateTokenRates Sample.upPrices Sample.storeAB)
    = updateTokenRates Sample.upPrices Sample.storeAB.
Proof.
  apply (closing_steps_are_idempotent Sample.upPrices Sample.storeAB).
  apply wf_tokens_decide. vm_compute. reflexivity.
Defined.

Lemma sort_step_only_assigns_sort_indices_witness :
  tokens (updateSortIndexes Sample.sortingHelpers Sample.storeAB) = tokens Sample.storeAB
  ∧ set_chain_sortIndex None
      <$> chains (updateSortIndexes Sample.sortingHelpers Sample.storeAB) !! "B"
    = Some Sample.chainB.
Proof.
  destruct (sort_step_only_assigns_sort_indices Sample.sortingHelpers Sample.storeAB)
    as (Ht & Hc & _).
  - apply sortingHelpers_assign_ranks.
  - apply wf_store_decide. vm_compute. reflexivity.
  - split; [exact Ht|]. rewrite (Hc "B"). vm_compute. reflexivity.
Defined.

Lemma steps_write_their_own_tables_witness :
  chains (updateEvmNetworksFromGithub Sample.helpers Sample.upEth Sample.sharedMoonbeam
            Sample.storeWithMoonbeam)
  = chains Sample.storeWithMoonbeam.
Proof.
  destruct (steps_write_their_own_tables Sample.helpers Sample.upEth Sample.sharedMoonbeam
              Sample.storeWithMoonbeam) as (_ & _ & Hc & _).
  - apply wf_store_decide. vm_compute. reflexivity.
  - exact Hc.
Defined.

Lemma chain_data_step_keeps_feed_fields_witness :
  ∃ c', chains (updateChainData Sample.helpers Sample.upAllFail Sample.storeWithDot)
          !! "polkadot" = Some c'
    ∧ chain_name c' = Some "Polkadot"
    ∧ Forall (λ rpc, srpc_isHealthy rpc = true) (chain_rpcs c').
Proof.
  pose proof (chain_data_step_keeps_feed_fields Sample.helpers Sample.upAllFail
                Sample.storeWithDot "polkadot") as H.
  assert (chains Sample.storeWithDot !! "polkadot" = Some Sample.polkadot) as Hl
    by (vm_compute; reflexivity).
  rewrite Hl in H. destruct H as (c' & Hc' & _ & _ & _ & Hname & _ & _ & _ & _ & Hrpcs & _).
  - apply wf_store_decide. vm_compute. reflexivity.
  - exists c'. split; [exact Hc'|]. split; [by rewrite Hname|].
    rewrite Hrpcs. vm_compute. repeat constructor.
Defined.

Lemma run_never_writes_tokensCurrencyIdIndex_witness :
  (chains (processorSteps Sample.sortingHelpers Sample.upWhole Sample.storeWithDot) !! "acala")
    ≫= chain_tokensCurrencyIdIndex = None.
Proof.
  destruct (chains (processorSteps Sample.sortingHelpers Sample.upWhole Sample.storeWithDot)
              !! "acala") as [c|] eqn:Hc; [|reflexivity].
  cbn. rewrite (run_never_writes_tokensCurrencyIdIndex Sample.sortingHelpers Sample.upWhole
                  Sample.storeWithDot "acala" c).
  - vm_compute. reflexivity.
  - apply sortingHelpers_assign_ranks.
  - apply wf_store_decide. vm_compute. reflexivity.
  - exact Hc.
Defined.

Lemma chain_native_token_fields_witness :
  ∃ nativeToken,
    tokens (outcome_store (applyRpcData Sample.helpers (newChain "acala") Sample.acalaData
                             Sample.emptyStore)) !! "acala-native-ACA" = Some nativeToken
    ∧ token_symbol nativeToken = Some "ACA"
    ∧ token_decimals nativeToken = Some 12
    ∧ token_existentialDeposit nativeToken = Some 100000000000.
Proof.
  destruct (chain_native_token_fields Sample.helpers (newChain "acala") Sample.acalaData
              Sample.emptyStore
              (outcome_store (applyRpcData Sample.helpers (newChain "acala") Sample.acalaData
                                Sample.emptyStore)))
    as (nativeToken & c & Ht & _ & Hs & Hd & He & _).
  - apply map_Forall_empty.
  - apply map_Forall_empty.
  - vm_compute. reflexivity.
  - exists nativeToken. split; [exact Ht|]. split; [exact Hs|]. split; [exact Hd|exact He].
Defined.

Lemma run_on_empty_feeds_witness :
  chains (processorSteps Sample.sortingHelpers Sample.upEth Sample.storeStale) = ∅
  ∧ is_Some (tokens (processorSteps Sample.sortingHelpers Sample.upEth Sample.storeStale)
               !! "polkadot-orml-DOT")
  ∧ ¬ is_Some (tokens (processorSteps Sample.sortingHelpers Sample.upEth Sample.storeStale)
                 !! "9-erc20-0xdead").
Proof.
  destruct (run_on_empty_feeds Sample.sortingHelpers Sample.upEth Sample.storeStale)
    as (Hc & _ & Ht).
  - apply sortingHelpers_assign_ranks.
  - apply wf_store_decide. vm_compute. reflexivity.
  - reflexivity.
  - reflexivity.
  - reflexivity.
  - split; [exact Hc|]. split.
    + apply Ht. exists Sample.dotToken. split; [vm_compute; reflexivity|discriminate].
    + intros (t & Hl & Hk)%Ht. vm_compute in Hl. injection Hl as <-. by apply Hk.
Defined.


Lemma run_leaves_testnet_flags_consistent_witness :
  ∃ t, tokens (processorSteps Sample.sortingHelpers Sample.upWhole Sample.storeWithDot)
         !! "5-native-ETH" = Some t
    ∧ token_isTestnet t = true ∧ token_rates t = None.
Proof.
  destruct (tokens (processorSteps Sample.sortingHelpers Sample.upWhole Sample.storeWithDot)
              !! "5-native-ETH") as [t|] eqn:Ht; [|vm_compute in Ht; discriminate].
  destruct (run_leaves_testnet_flags_consistent Sample.sortingHelpers Sample.upWhole
              Sample.storeWithDot "5-native-ETH" t) as [_ Hrates].
  - apply wf_store_decide. vm_compute. reflexivity.
  - exact Ht.
  - assert (token_isTestnet t = true) as Htest
      by (vm_compute in Ht; injection Ht as <-; reflexivity).
    exists t. split; [reflexivity|]. split; [exact Htest|]. by apply Hrates.
Defined.

Lemma invalid_network_record_is_ignored_witness :
  updateEvmNetworksFromGithub Sample.helpers Sample.upEth
    (mkSharedData [] ([Sample.goerliRecord] ++ Sample.namelessRecord :: []) [])
    Sample.emptyStore
  = updateEvmNetworksFromGithub Sample.helpers Sample.upEth
      (mkSharedData [] ([Sample.goerliRecord] ++ []) []) Sample.emptyStore.
Proof.
  apply (invalid_network_record_is_ignored Sample.helpers Sample.upEth Sample.emptyStore
           [] [] [Sample.goerliRecord] Sample.namelessRecord []); reflexivity.
Defined.
